(** * gsemantique.data.download: batched, re-signing, retrying asset download

    A shallow embedding of [src/gsemantique/data/download.py] and the
    properties its specification states about it.

    Conventions of the embedding.
    - Python integers are [Z] where the source accepts any integer
      ([retries], [preview_size], [reauth_batch_size]) and [nat] for lengths
      and offsets, which are never negative.
    - The local disk is a tree of named nodes; a directory lists its entries
      in the order [os.listdir] returns them, so the listing order is part of
      the state.
    - Side effects live in a [world]: the disk, the number of calls made to
      each collaborator and the trace of observable events (printed lines,
      sleeps, signing calls, fetch calls).  A computation maps a world to a
      world and an [outcome]; the world survives an exception, as it does in
      Python.
    - The collaborators that are not part of the repository (the signing
      service, the asset fetcher, the random sampler, the JSON writer) are
      fields of the class [Collaborators]; every theorem holds for all of
      them unless it names an instance.
    - The progress bar ([_async_message_handling], [_calculate_dir_size])
      only reads the disk and draws; it is left out.
    - [Downloader] runs in a [session]: the world of its downloads, the
      lines it prints itself and the catalogs it hands to pystac, which
      enters as the class [Pystac]. *)

From Stdlib Require Import List ZArith Lia String Ascii Bool Arith PeanoNat.
From Stdlib Require Import Permutation DecimalString QArith Reals Lra.
From Stdlib Require Import Sorted.
From Stdlib Require OrderedTypeEx.
Import ListNotations.
Abbreviation length := List.length.
Abbreviation concat := List.concat.
Local Open Scope string_scope.
Local Open Scope list_scope.
Local Open Scope nat_scope.

Set Implicit Arguments.

(* ------------------------------------------------------------------ *)
(** ** Python values *)

Module Py.

(** The exceptions the modelled code can raise. [OSError] stands for its
    subclasses [FileNotFoundError], [NotADirectoryError] and
    [IsADirectoryError]; [JSONDecodeError] is [json] refusing the text of a
    file that is not JSON; [External] is whatever a collaborator raises. *)
Inductive exn : Type :=
| ValueError
| ZeroDivisionError
| UnboundLocalError
| OSError
| JSONDecodeError
| External (code : nat).

(** How a call ends: with a value, with an exception, or not at all within
    the fuel given to the unbounded signing loop. *)
Inductive outcome (A : Type) : Type :=
| Val (a : A)
| Raise (e : exn)
| Diverge.
Arguments Raise {A} e.
Arguments Diverge {A}.

(** [range(0, stop, step)]: [None] is the [ValueError] of a zero step, a
    negative step gives the empty range. *)
Fixpoint offsets (count start step : nat) : list nat :=
  match count with
  | O => []
  | S c => start :: offsets c (start + step) step
  end.

Definition ceil_div (n b : nat) : nat := (n + b - 1) / b.

Definition range_step (stop : nat) (step : Z) : option (list nat) :=
  if (step =? 0)%Z then None
  else if (step <? 0)%Z then Some []
  else Some (offsets (ceil_div stop (Z.to_nat step)) 0 (Z.to_nat step)).

(** [range(n)] for an integer [n]. *)
Definition range (n : Z) : list nat := seq 0 (Z.to_nat n).

(** [l[i : i + k]] for [0 <= i] and [0 < k]. *)
Definition slice {A} (l : list A) (i k : nat) : list A := firstn k (skipn i l).

(** [a or b] on an optional integer: [None] and [0] are falsy. *)
Definition or_else (a : option Z) (b : Z) : Z :=
  match a with
  | Some v => if (v =? 0)%Z then b else v
  | None => b
  end.

(** [str(n)] of a non-negative integer. *)
Definition str (n : nat) : string := NilZero.string_of_uint (Nat.to_uint n).

(** [list.remove(x)]: drops the first occurrence, [None] is the
    [ValueError] raised when [x] is not in the list. *)
Fixpoint list_remove (x : string) (l : list string) : option (list string) :=
  match l with
  | [] => None
  | y :: t => if String.eqb x y then Some t
              else option_map (cons y) (list_remove x t)
  end.

(** [x in l] on strings. *)
Definition mem (x : string) (l : list string) : bool := existsb (String.eqb x) l.

(** [min(l)] and [max(l)]: [None] is the [ValueError] on an empty list. *)
Definition min_list (l : list Z) : option Z :=
  match l with
  | [] => None
  | x :: t => Some (fold_left Z.min t x)
  end.

Definition max_list (l : list Z) : option Z :=
  match l with
  | [] => None
  | x :: t => Some (fold_left Z.max t x)
  end.

End Py.
Import Py.

(* ------------------------------------------------------------------ *)
(** ** Data model *)

(** A GeoJSON geometry: the rings of a polygon or multipolygon, each a list
    of vertices. *)
Definition GeoJSON := list (list (Z * Z)).

(** A STAC item, with the fields the downloader reads. *)
Record Item : Type := mkItem {
  id : string;
  collection : string;
  geometry : GeoJSON;
  datetime : Z
}.

(** The local disk. A file has a size in bytes and, when it is an
    item-collection JSON, the items it lists; any other file is an asset,
    which is not JSON. *)
#[warnings="-register-all"]
Inductive node : Type :=
| File (size : N) (body : option (list Item))
| Dir (entries : list (string * node)).

Definition path := list string.
Definition dir := list (string * node).

Module FS.

Fixpoint find (es : dir) (name : string) : option node :=
  match es with
  | [] => None
  | (k, v) :: t => if String.eqb name k then Some v else find t name
  end.

Fixpoint lookup (n : node) (p : path) : option node :=
  match p with
  | [] => Some n
  | name :: q =>
      match n with
      | Dir es => match find es name with
                  | Some c => lookup c q
                  | None => None
                  end
      | File _ _ => None
      end
  end.

Definition remove_entry (name : string) (es : dir) : dir :=
  filter (fun e => negb (String.eqb name (fst e))) es.

(** Writing an entry keeps its place in the listing when the name exists
    and lists a new name last. *)
Fixpoint put_entry (name : string) (v : node) (es : dir) : dir :=
  match es with
  | [] => [(name, v)]
  | (k, w) :: t => if String.eqb name k then (k, v) :: t
                   else (k, w) :: put_entry name v t
  end.

(** Apply [g] to the directory that holds the last component of [p]. *)
Fixpoint modify (g : dir -> string -> option dir) (n : node) (p : path)
  : option node :=
  match p with
  | [] => None
  | name :: q =>
      match n with
      | File _ _ => None
      | Dir es =>
          match q with
          | [] => option_map Dir (g es name)
          | _ :: _ =>
              match find es name with
              | Some c => option_map (fun c' => Dir (put_entry name c' es))
                                     (modify g c q)
              | None => None
              end
          end
      end
  end.

Definition is_dir (o : option node) : bool :=
  match o with Some (Dir _) => true | _ => false end.

Definition is_file (o : option node) : bool :=
  match o with Some (File _ _) => true | _ => false end.

(** [shutil.rmtree(p)]: [p] must be a directory. *)
Definition rmtree (n : node) (p : path) : option node :=
  modify (fun es name => if is_dir (find es name)
                         then Some (remove_entry name es) else None) n p.

(** Leaving a [TemporaryDirectory]: the directory is removed when it is
    still there. *)
Definition cleanup (n : node) (p : path) : node :=
  match rmtree n p with Some n' => n' | None => n end.

(** [os.remove(p)]: [p] must be a file. *)
Definition remove (n : node) (p : path) : option node :=
  modify (fun es name => if is_file (find es name)
                         then Some (remove_entry name es) else None) n p.

(** Writing a file: the parent must exist and [p] must not be a directory. *)
Definition write (f : node) (n : node) (p : path) : option node :=
  modify (fun es name => if is_dir (find es name)
                         then None else Some (put_entry name f es)) n p.

(** Creating an empty directory at a free name. *)
Definition mkdir (n : node) (p : path) : option node :=
  modify (fun es name => match find es name with
                         | None => Some (put_entry name (Dir []) es)
                         | Some _ => None
                         end) n p.

(** [os.listdir(p)]. *)
Definition listdir (n : node) (p : path) : option (list string) :=
  match lookup n p with
  | Some (Dir es) => Some (map fst es)
  | _ => None
  end.

Definition is_empty_dir (n : node) : bool :=
  match n with Dir [] => true | _ => false end.

Definition is_nonempty_dir (n : node) : bool :=
  match n with Dir (_ :: _) => true | _ => false end.

(** The sum of the sizes of all files below a node ([os.walk] over the
    whole tree, no symbolic links in the model). *)
Fixpoint tree_size (n : node) : N :=
  match n with
  | File s _ => s
  | Dir es => fold_right (fun e acc => (tree_size (snd e) + acc)%N) 0%N es
  end.

(** [os.path.split(p)[-1]]. *)
Definition basename (p : path) : string := last p "".

End FS.

(* ------------------------------------------------------------------ *)
(** ** The size estimate *)

(** What the size preview measured: the byte size and the number of entries
    of the scratch directory, the size of each sampled item's directory, and
    the size of the whole collection. *)
Record measure : Type := mkMeasure {
  scratch_bytes : N;
  scratch_entries : nat;
  sample_bytes : list N;
  population : nat
}.

(** The estimate is floating-point arithmetic in the source; the model
    computes it over the real numbers, so a statement about it holds up to
    the rounding of the floats. *)
Module Estimate.

Local Open Scope R_scope.

Definition bytes (n : N) : R := IZR (Z.of_N n).

Definition total (l : list R) : R := fold_right Rplus 0 l.

Definition mean (l : list R) : R := total l / INR (length l).

(** [np.std]: the population standard deviation (no Bessel correction). *)
Definition np_std (l : list R) : R :=
  sqrt (mean (map (fun x => (x - mean l) ^ 2) l)).

(** [_get_dir_size(temp_dir) / n_items * len(self.item_coll)]. *)
Definition mean_size (m : measure) : R :=
  bytes (scratch_bytes m) / INR (scratch_entries m) * INR (population m).

Definition std_size (m : measure) : R :=
  np_std (map bytes (sample_bytes m)).

(** [1.96 * std_size / ((n_items - 1) ** 0.5) * len(self.item_coll)]. *)
Definition ci_size (m : measure) : R :=
  196 / 100 * std_size m / sqrt (INR (scratch_entries m) - 1)
  * INR (population m).

Definition units : list string :=
  [""; "Ki"; "Mi"; "Gi"; "Ti"; "Pi"; "Ei"; "Zi"]%string.

(** The loop of [_sizeof_fmt] over the units that are left, and the
    [return] after it. *)
Fixpoint loop (us : list string) (num : R) (suffix : string) : R * string :=
  match us with
  | [] => (num, ("Yi" ++ suffix)%string)
  | u :: rest =>
      if Rlt_dec (Rabs num) 1024 then (num, (u ++ suffix)%string)
      else loop rest (num / 1024) suffix
  end.

(** [_sizeof_fmt(num, suffix)]: the number that [:.1f] prints and the unit
    with its suffix. *)
Definition _sizeof_fmt (num : R) (suffix : string) : R * string :=
  loop units num suffix.

(** The lines the specification gives for the same two numbers, for a
    sample of sizes [sizes] and a population [N_total]. *)
Definition spec_mean (sizes : list R) (N_total : nat) : R :=
  total sizes / INR (length sizes) * (INR N_total / INR (length sizes)).

Definition spec_ci95 (sizes : list R) (N_total : nat) : R :=
  196 / 100 * np_std sizes / sqrt (INR (length sizes) - 1)
  * (INR N_total / INR (length sizes)).

End Estimate.

(* ------------------------------------------------------------------ *)
(** ** Effects *)

(** The lines the downloader prints. *)
Inductive line : Type :=
| DownloadLoop (i : nat)                 (* "Download loop {i}" *)
| RetryDownload                          (* "Retry download to get all items." *)
| NotAllRetrieved                        (* "Not all items retrieved. ..." *)
| DownloadedItems (got requested : nat)  (* "Downloaded items: {got}/{requested}" *)
| SuccessRate (ratio : Q)                (* "Success rate: {ratio:.2%}" *)
| EstimatingSize                         (* "Estimating size of download..." *)
| EstimatedTotal (mean_size ci_size : R * string)
                        (* "Estimated total size: {mean_size} ± {ci_size} ..." *)
| NotEnoughItems                         (* "Not enough items to estimate size. ..." *)
| Paused                                 (* "...: Download paused due to resign_error." *)
| Resumed.                               (* "...: Download will be continued after resign_error." *)

Inductive event : Type :=
| Print (l : line)
| Sleep (seconds : nat)
| Sign (batch : list Item) (ok : bool)
| Fetch (batch : list Item) (directory : path) (file_name : string).

Record world : Type := mkWorld {
  disk : node;
  sign_calls : nat;
  fetch_calls : nat;
  trace : list event
}.

Definition M (A : Type) : Type := world -> world * outcome A.

Definition ret {A} (a : A) : M A := fun w => (w, Val a).

Definition bind {A B} (c : M A) (k : A -> M B) : M B :=
  fun w => match c w with
           | (w', Val a) => k a w'
           | (w', Raise e) => (w', Raise e)
           | (w', Diverge) => (w', Diverge)
           end.

Definition raise {A} (e : exn) : M A := fun w => (w, Raise e).

Definition diverge {A} : M A := fun w => (w, Diverge).

(** [try: c finally: h], as [with TemporaryDirectory()] does around its
    block: [h] runs when [c] has returned or raised; while [c] has not
    ended, the block has not been left and [h] has not run. *)
Definition finally {A} (c : M A) (h : M unit) : M A :=
  fun w => match c w with
           | (w', Diverge) => (w', Diverge)
           | (w', r) => match h w' with
                        | (w'', Val _) => (w'', r)
                        | (w'', Raise e) => (w'', Raise e)
                        | (w'', Diverge) => (w'', Diverge)
                        end
           end.

Declare Scope monad_scope.
Delimit Scope monad_scope with monad.
Notation "x <- c ;; k" := (bind c (fun x => k))
  (at level 61, c at next level, right associativity) : monad_scope.
Notation "c ;; k" := (bind c (fun _ => k))
  (at level 61, right associativity) : monad_scope.
Local Open Scope monad_scope.

Definition emit (e : event) : M unit :=
  fun w => (mkWorld (disk w) (sign_calls w) (fetch_calls w) (trace w ++ [e]), Val tt).

Definition print (l : line) : M unit := emit (Print l).

Definition sleep (s : nat) : M unit := emit (Sleep s).

Definition get_disk : M node := fun w => (w, Val (disk w)).

Definition set_disk (d : node) : M unit :=
  fun w => (mkWorld d (sign_calls w) (fetch_calls w) (trace w), Val tt).

(** Run a disk operation, raising [OSError] when it fails. *)
Definition disk_op (f : node -> option node) : M unit :=
  d <- get_disk ;;
  match f d with
  | Some d' => set_disk d'
  | None => raise OSError
  end.

(** [for x in l: body x]. *)
Fixpoint for_each {A} (l : list A) (body : A -> M unit) : M unit :=
  match l with
  | [] => ret tt
  | x :: t => body x ;; for_each t body
  end.

(* ------------------------------------------------------------------ *)
(** ** Collaborators outside the repository *)

(** - [sign_metadata k batch] is the [k]-th call of
      [STACCube._sign_metadata]: the signed items, or [None] when it raises.
    - [download_item_collection k batch directory file_name d] is the [k]-th
      call of [stac_asset.download_item_collection] on the disk [d]: the
      disk it leaves and the exception it raises, if any.
    - [choice items size] is [np.random.choice(items, size, replace=False)]
      under the fixed seed.
    - [json_size items] is the byte size of the item-collection file pystac
      writes for [items].
    - [temp_dir] is the path [TemporaryDirectory()] hands out, a name that
      is free on the disk. *)
Class Collaborators : Type := {
  sign_metadata : nat -> list Item -> option (list Item);
  download_item_collection :
    nat -> list Item -> path -> string -> node -> node * option exn;
  choice : list Item -> nat -> list Item;
  json_size : list Item -> N;
  temp_dir : path
}.

(** The attributes of a [_STACDownloader] and the keyword arguments it
    forwards to [_async_download]. *)
Record STACDownloader : Type := mkDownloader {
  item_coll : list Item;
  out_dir : path;
  retries : Z;
  preview_size : Z;
  reauth_batch_size : option Z
}.

(** The constructor's defaults: [retries=3], [preview_size=10],
    [reauth_batch_size=1000]. *)
Definition default_downloader (items : list Item) (out : path) : STACDownloader :=
  mkDownloader items out 3 10 (Some 1000%Z).

Definition default_file_name : string := "item-collection.json".

Definition batch_prefix : string := "item-collection-batch-".

Definition batch_file_name (i : nat) : string :=
  (batch_prefix ++ Py.str i ++ ".json")%string.

Section Orchestrator.

Context {C : Collaborators}.

(** *** pystac files *)

(** [pystac.ItemCollection.from_file(p)]: [open] raises
    [FileNotFoundError] for a missing path and [IsADirectoryError] for a
    directory, [json.loads] raises on a file that is not JSON. *)
Definition from_file (p : path) : M (list Item) :=
  d <- get_disk ;;
  match FS.lookup d p with
  | Some (File _ (Some items)) => ret items
  | Some (File _ None) => raise JSONDecodeError
  | Some (Dir _) => raise OSError
  | None => raise OSError
  end.

(** [ItemCollection(items).save_object(p)]. *)
Definition save_object (items : list Item) (p : path) : M unit :=
  disk_op (fun d => FS.write (File (json_size items) (Some items)) d p).

Definition os_listdir (p : path) : M (list string) :=
  d <- get_disk ;;
  match FS.listdir d p with
  | Some names => ret names
  | None => raise OSError
  end.

(** *** [_find_empty_subdirs] *)

(** One [os.walk] from [dirpath]: the directory itself when it has no
    entry, then its empty subdirectories, which are pruned from the walk,
    then the walk of each remaining subdirectory in turn. *)
Fixpoint walk_empty (dirpath : path) (n : node) : list path :=
  match n with
  | File _ _ => []
  | Dir es =>
      (if FS.is_empty_dir n then [dirpath] else [])
      ++ map (fun e => dirpath ++ [fst e])
             (filter (fun e => FS.is_empty_dir (snd e)) es)
      ++ flat_map (fun e => if FS.is_nonempty_dir (snd e)
                            then walk_empty (dirpath ++ [fst e]) (snd e)
                            else []) es
  end.

Definition _find_empty_subdirs (d : node) (directory : path) : list path :=
  match FS.lookup d directory with
  | Some n => walk_empty directory n
  | None => []
  end.

(** *** [_get_dir_size] *)

Definition _get_dir_size (d : node) (directory : path) : N :=
  match FS.lookup d directory with
  | Some (Dir es) => FS.tree_size (Dir es)
  | _ => 0%N
  end.

(** *** [_remove_empty_items] *)

(** [for id in rm_items: all_items.remove(id)]. *)
Fixpoint remove_ids (rm_items all_items : list string) : option (list string) :=
  match rm_items with
  | [] => Some all_items
  | x :: t => match Py.list_remove x all_items with
              | Some rest => remove_ids t rest
              | None => None
              end
  end.

Definition _remove_empty_items (out_path : path) : M unit :=
  d <- get_disk ;;
  let empty_dirs := _find_empty_subdirs d out_path in
  for_each empty_dirs (fun p => disk_op (fun d => FS.rmtree d p)) ;;
  let coll_path := out_path ++ [default_file_name] in
  in_coll <- from_file coll_path ;;
  let all_items := map id in_coll in
  let rm_items := map FS.basename empty_dirs in
  match remove_ids rm_items all_items with
  | None => raise ValueError
  | Some all_items =>
      let keep_items := filter (fun x => Py.mem (id x) all_items) in_coll in
      save_object keep_items coll_path
  end.

(** *** Signing a batch *)

(** One call of the signing service. *)
Definition call_sign (batch : list Item) : M (option (list Item)) :=
  fun w =>
    let r := sign_metadata (sign_calls w) batch in
    (mkWorld (disk w) (S (sign_calls w)) (fetch_calls w)
             (trace w ++ [Sign batch (match r with Some _ => true | None => false end)]),
     Val r).

(** [while not signed: try: ... except: ...], with [on_hold_count]
    failures so far; the fuel bounds the number of calls the model
    follows. *)
Fixpoint sign_loop (fuel : nat) (batch : list Item) (on_hold_count : nat)
  : M (list Item * nat) :=
  match fuel with
  | O => diverge
  | S fuel' =>
      r <- call_sign batch ;;
      match r with
      | Some signed => ret (signed, on_hold_count)
      | None =>
          let on_hold_count := on_hold_count + 1 in
          (if on_hold_count =? 1 then print Paused else ret tt) ;;
          sleep 1 ;;
          sign_loop fuel' batch on_hold_count
      end
  end.

(** The [# reauth] block of a batch. *)
Definition reauth (fuel : nat) (rbs : option Z) (batch : list Item)
  : M (list Item) :=
  match rbs with
  | Some _ =>
      r <- sign_loop fuel batch 0 ;;
      (if 0 <? snd r then print Resumed else ret tt) ;;
      ret (fst r)
  | None => ret batch
  end.

(** One call of the asset fetcher. *)
Definition call_download (batch : list Item) (directory : path)
           (file_name : string) : M unit :=
  fun w =>
    let w' := mkWorld (disk w) (sign_calls w) (S (fetch_calls w))
                      (trace w ++ [Fetch batch directory file_name]) in
    match download_item_collection (fetch_calls w) batch directory
                                   file_name (disk w) with
    | (d', None) => (mkWorld d' (sign_calls w') (fetch_calls w') (trace w'), Val tt)
    | (d', Some e) => (mkWorld d' (sign_calls w') (fetch_calls w') (trace w'), Raise e)
    end.

(** "Downloading the item collection in batched manner": the loop over
    [range(0, len(coll), batch_size)].  [file_name_of i] is the name of the
    artifact of the batch at offset [i]. *)
Definition download_batches (fuel : nat) (rbs : option Z) (coll : list Item)
           (directory : path) (file_name_of : nat -> string) : M unit :=
  let batch_size := Py.or_else rbs (Z.of_nat (length coll)) in
  match Py.range_step (length coll) batch_size with
  | None => raise ValueError
  | Some starts =>
      for_each starts (fun i =>
        let batch := Py.slice coll i (Z.to_nat batch_size) in
        batch <- reauth fuel rbs batch ;;
        call_download batch directory (file_name_of i))
  end.

(** *** The size preview *)

(** "Evaluate size": what is measured on the scratch directory; the
    division by [n_items] raises when the directory lists nothing. *)
Definition evaluate_size (self : STACDownloader) (pre_coll : list Item)
  : M measure :=
  names <- os_listdir temp_dir ;;
  d <- get_disk ;;
  (if length names =? 0 then raise ZeroDivisionError else ret tt) ;;
  ret (mkMeasure (_get_dir_size d temp_dir)
                 (length names)
                 (map (fun x => _get_dir_size d (temp_dir ++ [id x])) pre_coll)
                 (length (item_coll self))).

(** "Preview run to estimate size".  The fetch is given no [file_name]:
    every batch of the sample is written under the fetcher's default
    name, the [item-collection.json] that the cleanup of the scratch
    directory then reads. *)
Definition preview_run (fuel : nat) (self : STACDownloader) : M unit :=
  if (Z.of_nat (length (item_coll self)) >=? preview_size self)%Z then
    print EstimatingSize ;;
    disk_op (fun d => FS.mkdir d temp_dir) ;;
    finally
      ((if (preview_size self <? 0)%Z then raise ValueError else ret tt) ;;
       let pre_coll := choice (item_coll self) (Z.to_nat (preview_size self)) in
       download_batches fuel (reauth_batch_size self) pre_coll temp_dir
                        (fun _ => default_file_name) ;;
       _remove_empty_items temp_dir ;;
       m <- evaluate_size self pre_coll ;;
       print (EstimatedTotal
                (Estimate._sizeof_fmt (Estimate.mean_size m) "B")
                (Estimate._sizeof_fmt (Estimate.ci_size m) "B")))
      (disk_op (fun d => Some (FS.cleanup d temp_dir)))
  else print NotEnoughItems.

(** *** Merging the batch artifacts *)

Definition is_batch_file (f : string) : bool := String.prefix batch_prefix f.

(** [for f in coll_paths: ...], accumulating [all_items]. *)
Fixpoint merge_files (coll_paths : list path) (all_items : list Item)
  : M (list Item) :=
  match coll_paths with
  | [] => ret all_items
  | f :: t =>
      items <- from_file f ;;
      disk_op (fun d => FS.remove d f) ;;
      merge_files t (all_items ++ items)
  end.

Definition merge_item_collections (self : STACDownloader) : M unit :=
  names <- os_listdir (out_dir self) ;;
  let coll_paths := map (fun f => out_dir self ++ [f])
                        (filter is_batch_file names) in
  all_items <- merge_files coll_paths [] ;;
  save_object all_items (out_dir self ++ [default_file_name]).

(** *** [_async_download] *)

Definition _async_download (fuel : nat) (self : STACDownloader) : M unit :=
  preview_run fuel self ;;
  download_batches fuel (reauth_batch_size self) (item_coll self)
                   (out_dir self) batch_file_name ;;
  merge_item_collections self.

(** *** [run] *)

(** [len(coll) / len(self.item_coll)]: the ratio is exact in the model; two
    lengths below 2^53 divide to the float 1.0 exactly when they are
    equal. *)
Definition true_div (a b : nat) : M Q :=
  if b =? 0 then raise ZeroDivisionError
  else ret (Z.of_nat a # Pos.of_nat b).

(** The body of the retry loop up to the assignment of [coll]: download,
    cleanup, and load of the item collection that is left. *)
Definition attempt (fuel : nat) (self : STACDownloader) (i : nat)
  : M (list Item) :=
  print (DownloadLoop i) ;;
  _async_download fuel self ;;
  _remove_empty_items (out_dir self) ;;
  from_file (out_dir self ++ [default_file_name]).

(** [for i in range(self.retries): ...]; [locals] holds [coll] and [ratio]
    once they are bound. *)
Fixpoint retry_loop (fuel : nat) (self : STACDownloader) (todo : list nat)
         (locals : option (list Item * Q)) : M (option (list Item * Q)) :=
  match todo with
  | [] => ret locals
  | i :: rest =>
      coll <- attempt fuel self i ;;
      ratio <- true_div (length coll) (length (item_coll self)) ;;
      if Qeq_bool ratio 1 then ret (Some (coll, ratio))
      else
        (if (Z.of_nat i <? retries self - 1)%Z
         then print RetryDownload else print NotAllRetrieved) ;;
        retry_loop fuel self rest (Some (coll, ratio))
  end.

Definition run (fuel : nat) (self : STACDownloader) : M (nat * Q) :=
  locals <- retry_loop fuel self (Py.range (retries self)) None ;;
  match locals with
  | None => raise UnboundLocalError
  | Some (coll, ratio) =>
      print (DownloadedItems (length coll) (length (item_coll self))) ;;
      print (SuccessRate ratio) ;;
      ret (length coll, ratio)
  end.

End Orchestrator.

(* ------------------------------------------------------------------ *)
(** ** The extent of a collection *)

Definition bbox := (Z * Z * Z * Z)%type.

(** The part of shapely the catalog builder calls. *)
Class Shapely (Shape : Type) : Type := {
  shape : GeoJSON -> Shape;
  buffer : Shape -> Z -> Shape;
  unary_union : list Shape -> Shape;
  bounds : Shape -> bbox
}.

Record Extent : Type := mkExtent {
  spatial : list bbox;          (* pystac.SpatialExtent(bboxes=...) *)
  temporal : list (Z * Z)       (* pystac.TemporalExtent(intervals=...) *)
}.

Section Extent.

Context {Shape : Type} {Sh : Shapely Shape}.

Definition _get_spatial_extent (polygons : list Shape) : list bbox :=
  let polygons := map (fun p => buffer p 0) polygons in
  let unioned_geometry := unary_union polygons in
  [bounds unioned_geometry].

Definition _get_temporal_extent (startime endtime : Z) : list (Z * Z) :=
  [(startime, endtime)].

(** [min] and [max] raise [ValueError] on an empty list. *)
Definition _create_full_extent (stac_item_list : list Item) : outcome Extent :=
  let polygons := map (fun i => shape (geometry i)) stac_item_list in
  let datetimes := map datetime stac_item_list in
  let spatial_extent := _get_spatial_extent polygons in
  match Py.min_list datetimes, Py.max_list datetimes with
  | Some lo, Some hi =>
      Val (mkExtent spatial_extent (_get_temporal_extent lo hi))
  | _, _ => Raise ValueError
  end.

End Extent.

(** Shapely on valid polygons given by their vertices: a zero-width buffer
    leaves a valid polygon as it is, a union keeps every vertex of the hull,
    and the bounds are the extreme coordinates of the vertices. *)
Module Vertices.

Definition Shape := list (Z * Z).

Definition extreme (f : Z -> Z -> Z) (l : list Z) : Z :=
  match l with
  | [] => 0%Z
  | x :: t => fold_left f t x
  end.

Definition vertex_bounds (s : Shape) : bbox :=
  (extreme Z.min (map fst s), extreme Z.min (map snd s),
   extreme Z.max (map fst s), extreme Z.max (map snd s)).

#[export] Instance shapely : Shapely Shape := {|
  shape g := List.concat g;
  buffer s _ := s;
  unary_union ss := List.concat ss;
  bounds := vertex_bounds
|}.

End Vertices.

(* ------------------------------------------------------------------ *)
(** ** Simulated collaborators *)

(** Stand-ins for the services outside the repository, used to run the
    model on concrete inputs. *)
Module Sim.

(** Create the directories along [p] that are missing. *)
Fixpoint makedirs (n : node) (p : path) : node :=
  match p with
  | [] => n
  | name :: q =>
      match n with
      | File _ _ => n
      | Dir es =>
          let c := match FS.find es name with
                   | Some c => c
                   | None => Dir []
                   end in
          Dir (FS.put_entry name (makedirs c q) es)
      end
  end.

(** A file system that lists a directory by name: a new entry goes before
    the first name that is greater. *)
Fixpoint put_sorted (name : string) (v : node) (es : dir) : dir :=
  match es with
  | [] => [(name, v)]
  | (k, w) :: t =>
      if String.eqb name k then (k, v) :: t
      else if String.ltb name k then (name, v) :: (k, w) :: t
      else (k, w) :: put_sorted name v t
  end.

(** How a new entry is listed: last, or by name. *)
Inductive listing := Appended | ByName.

Definition place (l : listing) : string -> node -> dir -> dir :=
  match l with
  | Appended => FS.put_entry
  | ByName => put_sorted
  end.

(** Put [v] at the name [name] of the directory [p], which exists. *)
Definition put_at (l : listing) (d : node) (p : path) (name : string) (v : node)
  : node :=
  match FS.modify (fun es k => Some (place l k v es)) d (p ++ [name]) with
  | Some d' => d'
  | None => d
  end.

(** The fetcher: every item of the batch gets its directory, holding the
    assets that [assets k item] says the [k]-th call fetched next to what
    was there; then the batch is written as [file_name]. *)
Definition fetch_item (l : listing) (assets : Item -> list (string * N))
           (directory : path) (d : node) (x : Item) : node :=
  let old := match FS.lookup d (directory ++ [id x]) with
             | Some (Dir es) => es
             | _ => []
             end in
  let files := fold_left (fun es a => FS.put_entry (fst a) (File (snd a) None) es)
                         (assets x) old in
  put_at l d directory (id x) (Dir files).

Definition download (l : listing) (size : list Item -> N)
           (assets : nat -> Item -> list (string * N))
           (k : nat) (batch : list Item) (directory : path)
           (file_name : string) (d : node) : node * option exn :=
  let d := makedirs d directory in
  let d := fold_left (fetch_item l (assets k) directory) batch d in
  (put_at l d directory file_name (File (size batch) (Some batch)), None).

Definition size (items : list Item) : N := (64 + 512 * N.of_nat (length items))%N.

(** [failing k] tells whether the [k]-th signing call raises; a signed
    batch is the batch itself. *)
Definition collaborators (l : listing) (failing : nat -> bool)
           (assets : nat -> Item -> list (string * N)) : Collaborators := {|
  sign_metadata k batch := if failing k then None else Some batch;
  download_item_collection := download l size assets;
  choice items n := firstn n items;
  json_size := size;
  temp_dir := ["tmp"; "preview"]
|}.

(** A disk with an empty output directory [data] and the parent of the
    scratch directory. *)
Definition disk0 : node := Dir [("tmp", Dir []); ("data", Dir [])].

Definition world0 : world := mkWorld disk0 0 0 [].

Definition item (n : nat) : Item :=
  mkItem ("S2_" ++ Py.str n)%string "sentinel-2" [] (Z.of_nat n).

Definition items (n : nat) : list Item := map item (seq 0 n).

(** One asset of 2048 bytes for every item, on every call. *)
Definition one_asset (k : nat) (x : Item) : list (string * N) :=
  [("B04.tif", 2048%N)].

(** The batches of the signing calls of a trace, in order. *)
Definition signed_batches (t : list event) : list (list Item) :=
  flat_map (fun e => match e with Sign b _ => [b] | _ => [] end) t.

Definition fetched_batches (t : list event) : list (list Item) :=
  flat_map (fun e => match e with Fetch b _ _ => [b] | _ => [] end) t.

End Sim.

(* ------------------------------------------------------------------ *)
(** ** Vocabulary of the statements *)

(** The slices of a collection for a batch size [b]. *)
Definition batches_of (coll : list Item) (b : nat) : list (list Item) :=
  map (fun i => Py.slice coll i b) (Py.offsets (Py.ceil_div (length coll) b) 0 b).

(** The events of [k] refused signing calls in a row, after [held] earlier
    refusals of the same streak: each is followed by a sleep of one second,
    and the first of a streak by the "paused" line. *)
Fixpoint pause_events (batch : list Item) (held k : nat) : list event :=
  match k with
  | O => []
  | S k' =>
      Sign batch false
        :: (if held =? 0 then [Print Paused] else [])
        ++ Sleep 1 :: pause_events batch (S held) k'
  end.

Definition is_paused (e : event) : bool :=
  match e with Print Paused => true | _ => false end.

Definition is_resumed (e : event) : bool :=
  match e with Print Resumed => true | _ => false end.

Definition is_backoff (e : event) : bool :=
  match e with Sleep 1 => true | _ => false end.

Definition is_sign (e : event) : bool :=
  match e with Sign _ _ => true | _ => false end.

Definition count (f : event -> bool) (t : list event) : nat :=
  length (filter f t).

(** A call as the collaborators see it: a signing call that went through,
    with its batch, or a fetch, with its directory and artifact name. *)
Inductive call : Type :=
| Signed (batch : list Item)
| Fetched (directory : path) (file_name : string).

Definition calls (t : list event) : list call :=
  flat_map (fun e => match e with
                     | Sign b true => [Signed b]
                     | Fetch _ d f => [Fetched d f]
                     | _ => []
                     end) t.

(** [unsigned c]: running [c] makes no signing call, however it ends. *)
Definition unsigned {A} (c : M A) : Prop :=
  forall w, sign_calls (fst (c w)) = sign_calls w
            /\ count is_sign (trace (fst (c w))) = count is_sign (trace w).

(** The world after printing [lines]. *)
Definition printed (w : world) (lines : list line) : world :=
  mkWorld (disk w) (sign_calls w) (fetch_calls w) (trace w ++ map Print lines).

(** How [run] ends once the attempt [k] has ended with [out]: at once
    when the collection is complete, after the "not all items" line when
    it is not and [k] was the last attempt of the budget; a fault of the
    attempt is passed on. *)
Definition ends_with (self : STACDownloader) (k : nat)
           (out : world * outcome (list Item))
           (res : world * outcome (nat * Q)) : Prop :=
  match out with
  | (w', Val coll) =>
      let n := length (item_coll self) in
      let ratio := (Z.of_nat (length coll) # Pos.of_nat n) in
      (length coll = n
       /\ res = (printed w' [DownloadedItems (length coll) n;
                             SuccessRate ratio],
                 Val (length coll, ratio)))
      \/ (length coll <> n /\ Z.of_nat k = (retries self - 1)%Z
          /\ res = (printed w' [NotAllRetrieved;
                                DownloadedItems (length coll) n;
                                SuccessRate ratio],
                    Val (length coll, ratio)))
  | (w', Raise e) => res = (w', Raise e)
  | (w', Diverge) => res = (w', Diverge)
  end.

(** The two lines printed after the loop. *)
Definition summary (self : STACDownloader) (locals : option (list Item * Q))
  : M (nat * Q) :=
  match locals with
  | None => raise UnboundLocalError
  | Some (coll, ratio) =>
      print (DownloadedItems (length coll) (length (item_coll self))) ;;
      print (SuccessRate ratio) ;;
      ret (length coll, ratio)
  end.

(** The tree [d] with the node at [p] replaced by [v]. *)
Fixpoint graft (d : node) (p : path) (v : node) : node :=
  match p with
  | [] => v
  | name :: q =>
      match d with
      | File _ _ => d
      | Dir es =>
          match FS.find es name with
          | Some c => Dir (FS.put_entry name (graft c q v) es)
          | None => d
          end
      end
  end.

(** The items an artifact lists. *)
Definition items_of (n : node) : list Item :=
  match n with
  | File _ (Some items) => items
  | _ => []
  end.

Definition is_artifact (n : node) : bool :=
  match n with
  | File _ (Some _) => true
  | _ => false
  end.

Definition with_disk (w : world) (d : node) : world :=
  mkWorld d (sign_calls w) (fetch_calls w) (trace w).

(** No directory lists a name twice. *)
Fixpoint wf (n : node) : Prop :=
  match n with
  | File _ _ => True
  | Dir es => NoDup (map fst es)
              /\ fold_right (fun e acc => wf (snd e) /\ acc) True es
  end.

(** The tree without its empty directories, at any depth. A directory that
    only held empty directories stays, empty. *)
Fixpoint prune (n : node) : node :=
  match n with
  | File _ _ => n
  | Dir es =>
      Dir ((fix entries (l : dir) : dir :=
              match l with
              | [] => []
              | e :: t => if FS.is_empty_dir (snd e) then entries t
                          else (fst e, prune (snd e)) :: entries t
              end) es)
  end.

(** [for p in ps: shutil.rmtree(p)] on the disk alone. *)
Fixpoint rm_all (d : node) (ps : list path) : option node :=
  match ps with
  | [] => Some d
  | p :: t => match FS.rmtree d p with
              | Some d' => rm_all d' t
              | None => None
              end
  end.

(** A directory that holds files only. *)
Definition flat (n : node) : Prop :=
  match n with
  | File _ _ => False
  | Dir es => Forall (fun e => FS.is_file (Some (snd e)) = true) es
  end.

Fixpoint node_induction (P : node -> Prop)
         (HF : forall s b, P (File s b))
         (HD : forall es, Forall (fun e => P (snd e)) es -> P (Dir es))
         (n : node) {struct n} : P n :=
  match n with
  | File s b => HF s b
  | Dir es =>
      HD es ((fix children (l : dir) : Forall (fun e => P (snd e)) l :=
                match l with
                | [] => Forall_nil _
                | e :: t => Forall_cons e (node_induction P HF HD (snd e))
                                        (children t)
                end) es)
  end.

(** The entries of a directory after the cleanup. *)
Definition kept_entries (es : dir) : dir :=
  map (fun e => (fst e, prune (snd e)))
      (filter (fun e => negb (FS.is_empty_dir (snd e))) es).

(** The output layout: no directory lists a name twice, the items of the
    collection have distinct ids, every item has its directory, and every
    directory is an item's and holds files only. *)
Definition item_layout (es : dir) (coll : list Item) : Prop :=
  wf (Dir es)
  /\ NoDup (map id coll)
  /\ (forall x, In x coll -> FS.is_dir (FS.find es (id x)) = true)
  /\ (forall k sub, In (k, Dir sub) es -> In k (map id coll) /\ flat (Dir sub)).

(** The items whose directory holds a file. *)
Definition with_assets (es : dir) (coll : list Item) : list Item :=
  filter (fun x => match FS.find es (id x) with
                   | Some n => FS.is_nonempty_dir n
                   | None => false
                   end) coll.

(** The unit square with its lower left corner at [(x, y)], acquired at
    [t]. *)
Definition unit_square (name : string) (x y t : Z) : Item :=
  mkItem name "squares"
         [[(x, y); (x + 1, y); (x + 1, y + 1); (x, y + 1); (x, y)]%Z] t.

Definition is_estimate (e : event) : bool :=
  match e with Print (EstimatedTotal _ _) => true | _ => false end.

(** [shown] renders the number of bytes [x] in base-1024 units: the number
    shown times 1024^k is [x], for the k-th unit of B, KiB, ..., ZiB, YiB;
    the number shown is below 1024 unless the unit is the last, and at
    least 1 unless the unit is the first. *)
Definition binary_units (shown : R * string) (x : R) : Prop :=
  exists k : nat,
    k <= 8
    /\ (fst shown * 1024 ^ k = x)%R
    /\ snd shown = (nth k (Estimate.units ++ ["Yi"]) "" ++ "B")%string
    /\ (k < 8 -> (Rabs (fst shown) < 1024)%R)
    /\ (0 < k -> (1 <= Rabs (fst shown))%R).

Section Vocabulary.

Context {C : Collaborators}.

(** The signing service refuses the [k] calls from the [c]-th on. *)
Definition refuses (c k : nat) (batch : list Item) : Prop :=
  forall j, j < k -> sign_metadata (c + j) batch = None.

(** Whatever call comes next, the service answers within [fuel] calls. *)
Definition patient (fuel : nat) : Prop :=
  forall c batch, exists k signed,
    k < fuel /\ refuses c k batch /\ sign_metadata (c + k) batch = Some signed.

Definition never_refuses : Prop :=
  forall c batch, sign_metadata c batch <> None.

Definition fetch_never_raises : Prop :=
  forall k batch directory file_name d,
    snd (download_item_collection k batch directory file_name d) = None.

(** [retried fuel self i w k wk]: from the world [w], the attempts
    [i], ..., [k - 1] each returned, each loaded a collection that is not
    the size of the requested one, and each was followed by the "retry"
    line, leaving the world [wk]. *)
Inductive retried (fuel : nat) (self : STACDownloader)
  : nat -> world -> nat -> world -> Prop :=
| retried_none : forall i w, retried fuel self i w i w
| retried_next : forall i w w1 coll k wk,
    attempt fuel self i w = (w1, Val coll) ->
    length coll <> length (item_coll self) ->
    retried fuel self (S i) (printed w1 [RetryDownload]) k wk ->
    retried fuel self i w k wk.

End Vocabulary.

(* ------------------------------------------------------------------ *)
(** ** Concrete runs *)

(** A signing service that never refuses, and one that refuses its first
    two calls. *)
Definition steady : Collaborators :=
  Sim.collaborators Sim.Appended (fun _ => false) Sim.one_asset.

Definition flaky : Collaborators :=
  Sim.collaborators Sim.Appended (fun k => k <? 2) Sim.one_asset.

(** 25 items, batches of 10, the default preview of 10 items. *)
Definition batched25 : STACDownloader :=
  mkDownloader (Sim.items 25) ["data"] 3 10 (Some 10%Z).

(** The same without a preview: 26 items would be needed for one. *)
Definition batched25_no_preview : STACDownloader :=
  mkDownloader (Sim.items 25) ["data"] 3 26 (Some 10%Z).

(** Three items, re-signing disabled. *)
Definition unsigned3 : STACDownloader :=
  mkDownloader (Sim.items 3) ["data"] 3 10 None.

(** The first fetch call brings nothing for the item [S2_2]; every later
    call brings every asset. *)
Definition second_try : Collaborators :=
  Sim.collaborators Sim.Appended (fun _ => false)
    (fun k x => if (k =? 0) && String.eqb (id x) "S2_2"
                then [] else [("B04.tif", 2048%N)]).

Definition three_items : STACDownloader :=
  default_downloader (Sim.items 3) ["data"].

(** An output directory after two batches, of two items and of one. *)
Definition two_batches : world :=
  mkWorld
    (Dir [("data",
           Dir [("item-collection-batch-0.json",
                 File 1088 (Some [Sim.item 0; Sim.item 1]));
                ("S2_0", Dir [("B04.tif", File 2048 None)]);
                ("S2_1", Dir [("B04.tif", File 2048 None)]);
                ("item-collection-batch-2.json",
                 File 576 (Some [Sim.item 2]));
                ("S2_2", Dir [("B04.tif", File 2048 None)])])])
    2 2 [].

(** A file system that lists a directory by name. *)
Definition by_name : Collaborators :=
  Sim.collaborators Sim.ByName (fun _ => false) Sim.one_asset.

(** 15 items, batches of 5, no preview. *)
Definition batched15 : STACDownloader :=
  mkDownloader (Sim.items 15) ["data"] 3 16 (Some 5%Z).

Definition world_of (es : dir) : world :=
  mkWorld (Dir [("data", Dir es)]) 0 0 [].

(** An output directory after an attempt over two items: [S2_1] got no
    asset. *)
Definition one_empty_item : dir :=
  [("item-collection.json", File 1088 (Some (Sim.items 2)));
   ("S2_0", Dir [("B04.tif", File 2048 None)]);
   ("S2_1", Dir [])].

(** Two items of one id, sharing an empty directory. *)
Definition one_id_twice : dir :=
  [("item-collection.json", File 1088 (Some [Sim.item 0; Sim.item 0]));
   ("S2_0", Dir [])].

(** The scratch directory of a preview, just created. *)
Definition before_preview : world :=
  mkWorld (Dir [("tmp", Dir [("preview", Dir [])]); ("data", Dir [])]) 0 0 [].

(** An output directory with an empty directory that is no item's. *)
Definition stale_directory : dir :=
  [("item-collection.json", File 576 (Some (Sim.items 1)));
   ("S2_0", Dir [("B04.tif", File 2048 None)]);
   ("stale", Dir [])].

(** A scratch directory after the preview of two items. *)
Definition after_preview : world :=
  mkWorld
    (Dir [("tmp",
           Dir [("preview",
                 Dir [("item-collection.json", File 1088 (Some (Sim.items 2)));
                      ("S2_0", Dir [("B04.tif", File 2048 None)]);
                      ("S2_1", Dir [("B04.tif", File 4096 None)])])])])
    0 0 [].

Definition measured : measure := mkMeasure 7232 3 [2048%N; 4096%N] 20.

(* ------------------------------------------------------------------ *)
(** ** The operating system calls of the catalog builder *)

Module OS.

(** [os.path.exists(p)]. *)
Definition path_exists (d : node) (p : path) : bool :=
  match FS.lookup d p with Some _ => true | None => false end.

(** [os.path.isdir(p)]. *)
Definition path_isdir (d : node) (p : path) : bool :=
  FS.is_dir (FS.lookup d p).

(** The directories along [p] that are missing are created; a file in the
    way is an error. *)
Fixpoint make_along (n : node) (p : path) : option node :=
  match n with
  | File _ _ => None
  | Dir es =>
      match p with
      | [] => Some n
      | name :: q =>
          let c := match FS.find es name with
                   | Some c => c
                   | None => Dir []
                   end in
          option_map (fun c' => Dir (FS.put_entry name c' es)) (make_along c q)
      end
  end.

(** [os.makedirs(p, exist_ok=True)]; the empty path is refused. *)
Definition makedirs (d : node) (p : path) : option node :=
  match p with
  | [] => None
  | _ :: _ => make_along d p
  end.

End OS.

(* ------------------------------------------------------------------ *)
(** ** Grouping the items by collection *)

(** The keys of [groupby("collection")]: every collection id once, in
    ascending order (pandas sorts the group keys). *)
Fixpoint insert_key (k : string) (keys : list string) : list string :=
  match keys with
  | [] => [k]
  | h :: t =>
      match String.compare k h with
      | Eq => keys
      | Lt => k :: keys
      | Gt => h :: insert_key k t
      end
  end.

Definition group_keys (colls : list string) : list string :=
  fold_right insert_key [] colls.

(** [grouped_df]: a row per collection, holding the positions the items of
    the collection have in [item_coll], ascending (the column "index"
    aggregated to a list). *)
Definition grouped_df (item_coll : list Item) : list (string * list nat) :=
  let colls := map collection item_coll in
  map (fun k => (k, filter (fun i => String.eqb (nth i colls "") k)
                           (seq 0 (length colls))))
      (group_keys colls).

(** The column "item": [[self.item_coll[i] for i in x]]. *)
Definition row_items (item_coll : list Item) (index : list nat) : list Item :=
  flat_map (fun i => match nth_error item_coll i with
                     | Some x => [x]
                     | None => []
                     end) index.

(* ------------------------------------------------------------------ *)
(** ** The catalog *)

(** A pystac collection and the root catalog, with what the downloader
    gives them.  The hrefs are left out: pystac sets them again when an
    item or a child is added and when the catalog is normalised. *)
Record Collection : Type := mkCollection {
  collection_id : string;
  collection_description : string;
  collection_extent : Extent;
  collection_items : list Item
}.

Record Catalog : Type := mkCatalog {
  catalog_id : string;
  catalog_description : string;
  children : list Collection
}.

(** [catalog.add_child(collection)]. *)
Definition add_child (catalog : Catalog) (collection : Collection) : Catalog :=
  mkCatalog (catalog_id catalog) (catalog_description catalog)
            (children catalog ++ [collection]).

(** [save_catalog k catalog output_path d] is the [k]-th run of
    [catalog.normalize_hrefs(output_path)],
    [catalog.make_all_asset_hrefs_relative()] and [catalog.save(...)] on the
    disk [d]: the disk it leaves and the exception it raises, if any. *)
Class Pystac : Type := {
  save_catalog : nat -> Catalog -> path -> node -> node * option exn
}.

(** What [Downloader] prints itself. *)
Inductive notice : Type :=
| CollectionHeader (collection : string) (index total : nat)
                                   (* "{collection} (collection {idx+1}/{n})" *)
| BlankLine.                       (* "" *)

(** The state of a [Downloader.run]: the world of the downloads, the lines
    [Downloader] printed itself, and the catalogs handed to pystac to be
    saved. *)
Record session : Type := mkSession {
  inner : world;
  console : list notice;
  saved : list (Catalog * path)
}.

Definition O (A : Type) : Type := session -> session * outcome A.

Definition oret {A} (a : A) : O A := fun s => (s, Val a).

Definition obind {A B} (c : O A) (k : A -> O B) : O B :=
  fun s => match c s with
           | (s', Val a) => k a s'
           | (s', Raise e) => (s', Raise e)
           | (s', Diverge) => (s', Diverge)
           end.

(** A computation on the world, run inside a session. *)
Definition lift {A} (c : M A) : O A :=
  fun s => match c (inner s) with
           | (w, r) => (mkSession w (console s) (saved s), r)
           end.

Definition notify (n : notice) : O unit :=
  fun s => (mkSession (inner s) (console s ++ [n]) (saved s), Val tt).

(** The attributes of a [Downloader]; [**kwargs] are the values the
    [_STACDownloader] of every collection is built with. *)
Module Outer.

Record Downloader : Type := mkDownloader {
  item_coll : list Item;
  out_dir : path;
  retries : Z;
  preview_size : Z;
  reauth_batch_size : option Z
}.

End Outer.

Module Downloader.

Section Catalog.

Context {C : Collaborators} {Shape : Type} {Sh : Shapely Shape} {P : Pystac}.

(** [Downloader.__init__]: [stamp] is the time of the call, printed as
    [%Y%m%d_%H%M%S]; an [out_dir] that is [None] or empty gives the
    directory [data_<stamp>]. *)
Definition __init__ (item_coll : list Item) (out_dir : option path)
           (retries preview_size : Z) (reauth_batch_size : option Z)
           (stamp : string) : M Outer.Downloader :=
  let out_dir := match out_dir with
                 | Some (n :: p) => n :: p
                 | _ => [("data_" ++ stamp)%string]
                 end in
  disk_op (fun d => OS.makedirs d out_dir) ;;
  ret (Outer.mkDownloader item_coll out_dir retries preview_size
                          reauth_batch_size).

(** [_STACDownloader(item_coll=..., out_dir=..., **self.kwargs)]. *)
Definition stac (self : Outer.Downloader) (item_coll : list Item)
           (out_dir : path) : STACDownloader :=
  mkDownloader item_coll out_dir (Outer.retries self)
               (Outer.preview_size self) (Outer.reauth_batch_size self).

(** [_load_and_add_collection]: the extent is computed before anything is
    touched, the item collection is removed last. *)
Definition _load_and_add_collection (item_collection_path output_path : path)
           (catalog : Catalog) (coll_path : path) : M Catalog :=
  item_collection <- from_file item_collection_path ;;
  match _create_full_extent item_collection with
  | Val extent =>
      let collection_id := FS.basename coll_path in
      let collection :=
        mkCollection collection_id
                     ("Collection for " ++ collection_id)%string
                     extent item_collection in
      let catalog := add_child catalog collection in
      disk_op (fun d => FS.remove d item_collection_path) ;;
      ret catalog
  | Raise e => raise e
  | Diverge => diverge
  end.

(** "Traverse each subdirectory representing a collection". *)
Fixpoint add_collections (output_path : path) (coll_dirs : list string)
         (catalog : Catalog) : M Catalog :=
  match coll_dirs with
  | [] => ret catalog
  | coll_dir :: rest =>
      let item_collection_path :=
        output_path ++ [coll_dir; default_file_name] in
      d <- get_disk ;;
      catalog <- (if OS.path_exists d item_collection_path
                  then _load_and_add_collection item_collection_path
                         output_path catalog (output_path ++ [coll_dir])
                  else ret catalog) ;;
      add_collections output_path rest catalog
  end.

(** [_create_and_save_catalog] up to the catalog that is saved: the item
    collection of the root directory, then those of its subdirectories in
    the order they are listed. *)
Definition gather (root_dir : path) (catalog_name catalog_desc : string)
  : M Catalog :=
  let output_path := root_dir in
  let catalog := mkCatalog catalog_name catalog_desc [] in
  let root_item_collection_path := root_dir ++ [default_file_name] in
  d <- get_disk ;;
  catalog <- (if OS.path_exists d root_item_collection_path
              then _load_and_add_collection root_item_collection_path
                     output_path catalog []
              else ret catalog) ;;
  names <- os_listdir output_path ;;
  d <- get_disk ;;
  let coll_dirs :=
    filter (fun name => OS.path_isdir d (output_path ++ [name])) names in
  add_collections output_path coll_dirs catalog.

(** One call of pystac to normalise and save the catalog. *)
Definition call_save (catalog : Catalog) (output_path : path) : O unit :=
  fun s =>
    let w := inner s in
    let log := saved s ++ [(catalog, output_path)] in
    match save_catalog (length (saved s)) catalog output_path (disk w) with
    | (d', None) => (mkSession (with_disk w d') (console s) log, Val tt)
    | (d', Some e) => (mkSession (with_disk w d') (console s) log, Raise e)
    end.

Definition _create_and_save_catalog (root_dir : path)
           (catalog_name catalog_desc : string) : O unit :=
  obind (lift (gather root_dir catalog_name catalog_desc))
        (fun catalog => call_save catalog root_dir).

(** [for idx, row in grouped_df.iterrows(): ...]. *)
Fixpoint download_rows (fuel : nat) (self : Outer.Downloader)
         (rows : list (nat * (string * list nat))) (total : nat) : O unit :=
  match rows with
  | [] => oret tt
  | (idx, (coll, index)) :: rest =>
      obind (notify (CollectionHeader coll (idx + 1) total)) (fun _ =>
      let item_coll := row_items (Outer.item_coll self) index in
      let dwl := stac self item_coll (Outer.out_dir self ++ [coll]) in
      obind (lift (run fuel dwl)) (fun _ =>
      obind (notify BlankLine) (fun _ =>
      download_rows fuel self rest total)))
  end.

Definition _download_grouped (fuel : nat) (self : Outer.Downloader) : O unit :=
  let rows := grouped_df (Outer.item_coll self) in
  download_rows fuel self (combine (seq 0 (length rows)) rows) (length rows).

Definition _download_ungrouped (fuel : nat) (self : Outer.Downloader)
  : O unit :=
  let dwl := stac self (Outer.item_coll self) (Outer.out_dir self) in
  obind (lift (run fuel dwl)) (fun _ => oret tt).

(** [Downloader.run(by_collection)]. *)
Definition run (fuel : nat) (self : Outer.Downloader) (by_collection : bool)
  : O unit :=
  obind (if by_collection then _download_grouped fuel self
         else _download_ungrouped fuel self) (fun _ =>
  let catalog_name := "root_catalog" in
  let catalog_desc := "Root catalog containing multiple collections." in
  _create_and_save_catalog (Outer.out_dir self) catalog_name catalog_desc).

End Catalog.

End Downloader.

(* ------------------------------------------------------------------ *)
(** ** Vocabulary of the further statements *)

(** [p] is [q] followed by more components. *)
Definition below (q p : path) : Prop := exists r, p = q ++ r.

(** The paths one entry contributes to the walk of its directory. *)
Definition entry_walk (e : string * node) : list path :=
  (if FS.is_empty_dir (snd e) then [[fst e]] else [])
  ++ (if FS.is_nonempty_dir (snd e) then walk_empty [fst e] (snd e) else []).

(** What the locals of the retry loop say about the disk. *)
Definition loaded (self : STACDownloader) (w : world)
           (locals : option (list Item * Q)) : Prop :=
  match locals with
  | None => True
  | Some (coll, ratio) =>
      (exists s,
          FS.lookup (disk w) (out_dir self ++ [default_file_name])
            = Some (File s (Some coll)))
      /\ length (item_coll self) <> 0
      /\ ratio = (Z.of_nat (length coll) # Pos.of_nat (length (item_coll self)))
  end.

(** The order of the group keys. *)
Definition before (a b : string) : Prop := String.compare a b = Lt.

(** The names of the directories among the entries [es]. *)
Definition dirs_of (es : dir) : list string :=
  map fst (filter (fun e => FS.is_dir (Some (snd e))) es).

(** The collection the catalog builder makes of the item collection of the
    directory [name], when its extent can be computed. *)
Definition collection_of {Shape : Type} {Sh : Shapely Shape}
           (name : string) (items : list Item) : list Collection :=
  match _create_full_extent items with
  | Val extent =>
      [mkCollection name ("Collection for " ++ name)%string extent items]
  | _ => []
  end.

(** The collections of the subdirectories [es] of an output directory, in
    the order they are listed. *)
Definition collections_of {Shape : Type} {Sh : Shapely Shape} (es : dir)
  : list Collection :=
  flat_map (fun e => match snd e with
                     | Dir sub =>
                         match FS.find sub default_file_name with
                         | Some n => collection_of (fst e) (items_of n)
                         | None => []
                         end
                     | File _ _ => []
                     end) es.

(** The entry of an output directory once its item collection is consumed. *)
Definition consumed (e : string * node) : string * node :=
  match snd e with
  | Dir sub => (fst e, Dir (FS.remove_entry default_file_name sub))
  | File _ _ => e
  end.

(** An entry the catalog builder can process: a file, or a directory whose
    item collection, if it has one, lists at least one item. *)
Definition loadable (e : string * node) : Prop :=
  match snd e with
  | Dir sub =>
      match FS.find sub default_file_name with
      | Some n => exists s items, n = File s (Some items) /\ items <> []
      | None => True
      end
  | File _ _ => True
  end.

(** A fetcher that, given a directory that exists, only writes below it
    and leaves it a directory. *)
Definition confined {C : Collaborators} : Prop :=
  forall k batch directory file_name d sub0,
    FS.lookup d directory = Some (Dir sub0) ->
    exists sub, fst (download_item_collection k batch directory file_name d)
                = graft d directory (Dir sub).

(** [keeps I c]: however [c] ends, a disk that satisfies [I] before
    satisfies it after. *)
Definition keeps {A} (I : node -> Prop) (c : M A) : Prop :=
  forall w, I (disk w) -> I (disk (fst (c w))).

(** [ends c]: [c] returns or raises, it never waits forever. *)
Definition ends {A} (c : M A) : Prop :=
  forall w, snd (c w) <> Diverge.

(** The disk [d] with a scratch directory of content [sub] at the free
    name [name] of its directory [parent], which lists [es]. *)
Definition with_scratch (d : node) (parent : path) (name : string) (es : dir)
           (sub : dir) : node :=
  graft d parent (Dir (FS.put_entry name (Dir sub) es)).

(** The scratch directory is there, with some content. *)
Definition scratched (d0 : node) (parent : path) (name : string) (es : dir)
           (d : node) : Prop :=
  exists sub, d = with_scratch d0 parent name es sub.

(** The scratch directory is there, or the disk is as it was. *)
Definition scratch_only (d0 : node) (parent : path) (name : string) (es : dir)
           (d : node) : Prop :=
  d = d0 \/ scratched d0 parent name es d.

(** [collections_done fuel self total rows s s']: from the session [s], the
    downloads of the rows [rows] each returned, in turn, each between its
    header and its blank line, leaving the session [s']. *)
Inductive collections_done {C : Collaborators} (fuel : nat)
          (self : Outer.Downloader) (total : nat)
  : list (nat * (string * list nat)) -> session -> session -> Prop :=
| done_none : forall s, collections_done fuel self total [] s s
| done_next : forall idx coll index rest s w' v s',
    run fuel (Downloader.stac self (row_items (Outer.item_coll self) index)
                              (Outer.out_dir self ++ [coll]))
        (inner s) = (w', Val v) ->
    collections_done fuel self total rest
      (mkSession w' (console s ++ [CollectionHeader coll (idx + 1) total;
                                   BlankLine])
                 (saved s)) s' ->
    collections_done fuel self total ((idx, (coll, index)) :: rest) s s'.

(* ------------------------------------------------------------------ *)
(** ** Further concrete runs *)

(** A fetcher that creates the directories of the items and brings no
    asset. *)
Definition barren : Collaborators :=
  Sim.collaborators Sim.Appended (fun _ => false) (fun _ _ => []).

(** Three items with a preview of size 0. *)
Definition no_sample : STACDownloader :=
  mkDownloader (Sim.items 3) ["data"] 3 0 (Some 1000%Z).

(** A fetcher that fetches nothing and touches nothing. *)
Definition idle : Collaborators := {|
  sign_metadata _ batch := Some batch;
  download_item_collection _ _ _ _ d := (d, None);
  choice items n := firstn n items;
  json_size := Sim.size;
  temp_dir := ["tmp"; "preview"]
|}.

(** A signing service that answers the first call and refuses every later
    one. *)
Definition stalls : Collaborators :=
  Sim.collaborators Sim.Appended (fun k => 0 <? k) Sim.one_asset.

(** 25 items with a preview of 10 items in batches of 5. *)
Definition batched_by5 : STACDownloader :=
  mkDownloader (Sim.items 25) ["data"] 3 10 (Some 5%Z).

(** Items of two collections, interleaved. *)
Definition mixed_items : list Item :=
  [mkItem "L8_0" "landsat-c2-l2" [] 10;
   mkItem "S2_0" "sentinel-2-l2a" [] 20;
   mkItem "L8_1" "landsat-c2-l2" [] 30].

(** The items of two collections, with a retry budget of 0. *)
Definition no_budget : Outer.Downloader :=
  Outer.mkDownloader mixed_items ["data"] 0 10 (Some 1000%Z).

(** pystac writing [catalog.json] into the output directory. *)
Definition writes_catalog : Pystac := {|
  save_catalog _ _ output_path d :=
    (Sim.put_at Sim.Appended d output_path "catalog.json" (File 256 None), None)
|}.

Definition session0 : session := mkSession Sim.world0 [] [].

(** Three items to be downloaded into [data], ungrouped or grouped. *)
Definition three_outer : Outer.Downloader :=
  Outer.mkDownloader (Sim.items 3) ["data"] 3 10 (Some 1000%Z).

(** An output directory after a grouped download of [mixed_items]. *)
Definition grouped_output : dir :=
  [("sentinel-2-l2a",
    Dir [("S2_0", Dir [("B04.tif", File 2048 None)]);
         ("item-collection.json",
          File 576 (Some [unit_square "S2_0" 0 0 20]))]);
   ("landsat-c2-l2",
    Dir [("L8_0", Dir [("B4.tif", File 1024 None)]);
         ("L8_1", Dir [("B4.tif", File 1024 None)]);
         ("item-collection.json",
          File 1088 (Some [unit_square "L8_0" 1 1 10;
                           unit_square "L8_1" 2 2 30]))]);
   ("notes.txt", File 12 None)].

(** The same where the download of one collection retrieved nothing. *)
Definition one_collection_lost : dir :=
  [("sentinel-2-l2a",
    Dir [("S2_0", Dir [("B04.tif", File 2048 None)]);
         ("item-collection.json",
          File 576 (Some [unit_square "S2_0" 0 0 20]))]);
   ("landsat-c2-l2",
    Dir [("item-collection.json", File 64 (Some []))]);
   ("modis", Dir [("item-collection.json",
                   File 576 (Some [unit_square "M_0" 3 3 40]))])].

(* ------------------------------------------------------------------ *)
(** ** Signing a batch *)

Section Signing.

Context {C : Collaborators}.

Lemma sign_loop_succeeds :
  forall k fuel batch held w signed,
    k < fuel ->
    refuses (sign_calls w) k batch ->
    sign_metadata (sign_calls w + k) batch = Some signed ->
    sign_loop fuel batch held w =
      (mkWorld (disk w) (sign_calls w + k + 1) (fetch_calls w)
               (trace w ++ pause_events batch held k ++ [Sign batch true]),
       Val (signed, held + k)).
Proof.
  induction k as [|k IH]; intros fuel batch held w signed Hf Hr Hs.
  - destruct fuel as [|fuel]; [lia|]. simpl.
    unfold bind, call_sign. rewrite Nat.add_0_r in Hs. rewrite Hs.
    unfold ret. rewrite !Nat.add_0_r.
    replace (sign_calls w + 1) with (S (sign_calls w)) by lia.
    reflexivity.
  - destruct fuel as [|fuel]; [lia|]. simpl.
    unfold bind at 1. unfold call_sign.
    assert (H0 : sign_metadata (sign_calls w) batch = None).
    { specialize (Hr 0). rewrite Nat.add_0_r in Hr. apply Hr. lia. }
    rewrite H0.
    set (w1 := mkWorld (disk w) (S (sign_calls w)) (fetch_calls w)
                       (trace w ++ [Sign batch false])).
    assert (Hstep : forall w2 : world,
               disk w2 = disk w -> sign_calls w2 = S (sign_calls w) ->
               fetch_calls w2 = fetch_calls w ->
               sign_loop fuel batch (held + 1) w2 =
               (mkWorld (disk w) (sign_calls w + S k + 1) (fetch_calls w)
                        (trace w2 ++ pause_events batch (held + 1) k
                               ++ [Sign batch true]),
                Val (signed, held + S k))).
    { intros w2 Hd Hc Hfc.
      rewrite (IH fuel batch (held + 1) w2 signed).
      - rewrite Hd, Hc, Hfc.
        replace (S (sign_calls w) + k + 1) with (sign_calls w + S k + 1) by lia.
        replace (held + 1 + k) with (held + S k) by lia.
        reflexivity.
      - lia.
      - intros j Hj. rewrite Hc.
        replace (S (sign_calls w) + j) with (sign_calls w + S j) by lia.
        apply Hr. lia.
      - rewrite Hc.
        replace (S (sign_calls w) + k) with (sign_calls w + S k) by lia.
        exact Hs. }
    replace (S held) with (held + 1) by lia.
    destruct (held + 1 =? 1) eqn:E1.
    + assert (held = 0) by (apply Nat.eqb_eq in E1; lia). subst held.
      simpl. unfold bind, print, sleep, emit. simpl.
      rewrite Hstep by reflexivity. simpl.
      rewrite <- !app_assoc. reflexivity.
    + assert (held <> 0) by (apply Nat.eqb_neq in E1; lia).
      destruct (held =? 0) eqn:E0; [apply Nat.eqb_eq in E0; lia|].
      unfold bind, ret, sleep, emit. simpl.
      rewrite Hstep by reflexivity. simpl.
      rewrite <- !app_assoc. reflexivity.
Qed.

Lemma sign_loop_blocked :
  forall fuel batch held w,
    refuses (sign_calls w) fuel batch ->
    sign_loop fuel batch held w =
      (mkWorld (disk w) (sign_calls w + fuel) (fetch_calls w)
               (trace w ++ pause_events batch held fuel),
       Diverge).
Proof.
  induction fuel as [|fuel IH]; intros batch held w Hr.
  - simpl. unfold diverge. rewrite Nat.add_0_r, app_nil_r.
    destruct w; reflexivity.
  - simpl. unfold bind at 1. unfold call_sign.
    assert (H0 : sign_metadata (sign_calls w) batch = None).
    { specialize (Hr 0). rewrite Nat.add_0_r in Hr. apply Hr. lia. }
    rewrite H0.
    assert (Hstep : forall w2 : world,
               disk w2 = disk w -> sign_calls w2 = S (sign_calls w) ->
               fetch_calls w2 = fetch_calls w ->
               sign_loop fuel batch (held + 1) w2 =
               (mkWorld (disk w) (sign_calls w + S fuel) (fetch_calls w)
                        (trace w2 ++ pause_events batch (held + 1) fuel),
                Diverge)).
    { intros w2 Hd Hc Hfc. rewrite IH.
      - rewrite Hd, Hc, Hfc.
        replace (S (sign_calls w) + fuel) with (sign_calls w + S fuel) by lia.
        reflexivity.
      - intros j Hj. rewrite Hc.
        replace (S (sign_calls w) + j) with (sign_calls w + S j) by lia.
        apply Hr. lia. }
    replace (S held) with (held + 1) by lia.
    destruct (held + 1 =? 1) eqn:E1.
    + assert (held = 0) by (apply Nat.eqb_eq in E1; lia). subst held.
      simpl. unfold bind, print, sleep, emit. simpl.
      rewrite Hstep by reflexivity. simpl.
      rewrite <- !app_assoc. reflexivity.
    + assert (held <> 0) by (apply Nat.eqb_neq in E1; lia).
      destruct (held =? 0) eqn:E0; [apply Nat.eqb_eq in E0; lia|].
      unfold bind, ret, sleep, emit. simpl.
      rewrite Hstep by reflexivity. simpl.
      rewrite <- !app_assoc. reflexivity.
Qed.

Lemma sign_loop_never_raises :
  forall fuel batch held w e,
    snd (sign_loop fuel batch held w) <> Raise e.
Proof.
  induction fuel as [|fuel IH]; intros batch held w e; simpl.
  - discriminate.
  - unfold bind at 1. unfold call_sign.
    destruct (sign_metadata (sign_calls w) batch); [discriminate|].
    unfold bind at 1.
    destruct (held + 1 =? 1); simpl.
    + unfold bind at 1. simpl. apply IH.
    + unfold bind at 1. simpl. apply IH.
Qed.

Lemma count_pause_events :
  forall batch k held,
    count is_paused (pause_events batch held k)
      = (if (held =? 0) && negb (k =? 0) then 1 else 0)
    /\ count is_backoff (pause_events batch held k) = k
    /\ count is_resumed (pause_events batch held k) = 0
    /\ count is_sign (pause_events batch held k) = k
    /\ calls (pause_events batch held k) = [].
Proof.
  unfold count.
  induction k as [|k IH]; intros held; simpl.
  - rewrite andb_false_r. auto.
  - destruct (IH (S held)) as (Hp & Hb & Hr & Hs & Hc).
    destruct (held =? 0) eqn:E; simpl in *;
      rewrite ?Hp, ?Hb, ?Hr, ?Hs, ?Hc; auto.
Qed.

End Signing.

(* ------------------------------------------------------------------ *)
(** ** Slicing a collection into batches *)

Section Slices.

Variable A : Type.

Lemma firstn_plus :
  forall (a b : nat) (l : list A),
    firstn (a + b) l = firstn a l ++ firstn b (skipn a l).
Proof.
  induction a as [|a IH]; intros b l; simpl; [reflexivity|].
  destruct l as [|x l]; simpl.
  - now rewrite firstn_nil.
  - now rewrite IH.
Qed.

Lemma skipn_plus :
  forall (a b : nat) (l : list A), skipn (a + b) l = skipn b (skipn a l).
Proof.
  induction a as [|a IH]; intros b l; simpl; [reflexivity|].
  destruct l as [|x l]; simpl; [now rewrite skipn_nil | apply IH].
Qed.

Lemma concat_slices :
  forall (l : list A) (b c s : nat),
    concat (map (fun i => Py.slice l i b) (Py.offsets c s b))
      = firstn (c * b) (skipn s l).
Proof.
  intros l b. induction c as [|c IH]; intros s; simpl; [reflexivity|].
  rewrite IH. unfold Py.slice.
  rewrite firstn_plus. f_equal. now rewrite skipn_plus.
Qed.

Lemma length_slice :
  forall (l : list A) (i b : nat),
    length (Py.slice l i b) = Nat.min b (length l - i).
Proof.
  intros. unfold Py.slice. now rewrite length_firstn, length_skipn.
Qed.

End Slices.

Lemma length_offsets : forall c s b, length (Py.offsets c s b) = c.
Proof. induction c as [|c IH]; intros; simpl; [reflexivity | now rewrite IH]. Qed.

Lemma offsets_seq :
  forall c s b, Py.offsets c s b = map (fun j => s + j * b) (seq 0 c).
Proof.
  induction c as [|c IH]; intros s b; simpl; [reflexivity|].
  f_equal; [lia|]. rewrite IH. rewrite <- seq_shift, map_map.
  apply map_ext. intros j. lia.
Qed.

Lemma ceil_div_bounds :
  forall n b, 1 <= b ->
    n <= Py.ceil_div n b * b /\ (1 <= n -> (Py.ceil_div n b - 1) * b < n).
Proof.
  intros n b Hb. unfold Py.ceil_div.
  pose proof (Nat.div_mod_eq (n + b - 1) b) as E.
  pose proof (Nat.mod_upper_bound (n + b - 1) b ltac:(lia)) as U.
  set (q := (n + b - 1) / b) in *. set (r := (n + b - 1) mod b) in *.
  split; [nia|]. intros Hn. destruct q as [|q]; [nia|]. simpl. nia.
Qed.

Lemma ceil_div_zero : forall b, 1 <= b -> Py.ceil_div 0 b = 0.
Proof. intros b Hb. unfold Py.ceil_div. apply Nat.div_small. lia. Qed.

Lemma ceil_div_self : forall n, 1 <= n -> Py.ceil_div n n = 1.
Proof.
  intros n Hn. unfold Py.ceil_div.
  symmetry. apply (Nat.div_unique (n + n - 1) n 1 (n - 1)); lia.
Qed.

Lemma or_else_positive :
  forall b n, (1 <= b)%Z -> Py.or_else (Some b) n = b.
Proof.
  intros b n Hb. unfold Py.or_else.
  now replace (b =? 0)%Z with false by (symmetry; apply Z.eqb_neq; lia).
Qed.

Lemma range_step_positive :
  forall stop step, (1 <= step)%Z ->
    Py.range_step stop step
      = Some (Py.offsets (Py.ceil_div stop (Z.to_nat step)) 0 (Z.to_nat step)).
Proof.
  intros stop step Hs. unfold Py.range_step.
  replace (step =? 0)%Z with false by (symmetry; apply Z.eqb_neq; lia).
  now replace (step <? 0)%Z with false by (symmetry; apply Z.ltb_ge; lia).
Qed.

Lemma nth_batches_of :
  forall coll b j,
    j < Py.ceil_div (length coll) b ->
    nth j (batches_of coll b) [] = Py.slice coll (j * b) b.
Proof.
  intros coll b j Hj. unfold batches_of.
  rewrite offsets_seq, map_map.
  rewrite (nth_indep _ [] (Py.slice coll (0 + 0 * b) b))
    by now rewrite length_map, length_seq.
  rewrite (map_nth (fun x => Py.slice coll (0 + x * b) b) _ 0 j).
  now rewrite seq_nth.
Qed.

(* ------------------------------------------------------------------ *)
(** ** Loops and traces *)

Lemma calls_app : forall s t, calls (s ++ t) = calls s ++ calls t.
Proof. intros. unfold calls. apply flat_map_app. Qed.

Lemma count_app : forall f s t, count f (s ++ t) = count f s + count f t.
Proof. intros. unfold count. now rewrite filter_app, length_app. Qed.

(** A loop whose body always returns keeps an invariant of the part of the
    list done so far. *)
Lemma for_each_invariant :
  forall (A : Type) (body : A -> M unit) (I : list A -> world -> Prop),
    (forall done x w, I done w ->
       exists w', body x w = (w', Val tt) /\ I (done ++ [x]) w') ->
    forall todo done w, I done w ->
      exists w', for_each todo body w = (w', Val tt) /\ I (done ++ todo) w'.
Proof.
  intros A body I Hbody. induction todo as [|x todo IH]; intros done w Hi.
  - exists w. rewrite app_nil_r. split; [reflexivity | assumption].
  - destruct (Hbody done x w Hi) as (w1 & E1 & H1).
    destruct (IH (done ++ [x]) w1 H1) as (w2 & E2 & H2).
    exists w2. simpl. unfold bind. rewrite E1.
    rewrite <- app_assoc in H2. split; assumption.
Qed.

Section Batches.

Context {C : Collaborators}.

Lemma reauth_succeeds :
  forall fuel b batch w,
    patient fuel ->
    exists w' new signed,
      reauth fuel (Some b) batch w = (w', Val signed)
      /\ trace w' = trace w ++ new
      /\ calls new = [Signed batch]
      /\ (never_refuses -> count is_sign new = 1).
Proof.
  intros fuel b batch w Hp.
  destruct (Hp (sign_calls w) batch) as (k & signed & Hk & Hr & Hs).
  unfold reauth, bind.
  rewrite (@sign_loop_succeeds _ k fuel batch 0 w signed Hk Hr Hs). simpl.
  destruct (count_pause_events batch k 0) as (_ & _ & _ & Hsign & Hcalls).
  destruct k as [|k].
  - simpl. eexists _, _, signed. split; [reflexivity|]. simpl.
    split; [reflexivity|]. split; [reflexivity|]. reflexivity.
  - replace (0 <? S k) with true by (symmetry; apply Nat.ltb_lt; lia).
    unfold print, emit, ret. simpl.
    eexists _, _, signed. split; [reflexivity|]. simpl.
    split; [rewrite <- app_assoc; reflexivity|].
    split.
    + change (calls ((pause_events batch 0 (S k) ++ [Sign batch true])
                       ++ [Print Resumed]) = [Signed batch]).
      now rewrite !calls_app, Hcalls.
    + intros Hn. exfalso. apply (Hn (sign_calls w) batch).
      specialize (Hr 0). rewrite Nat.add_0_r in Hr. apply Hr. lia.
Qed.

Lemma call_download_returns :
  forall batch directory file_name w,
    fetch_never_raises ->
    exists w',
      call_download batch directory file_name w = (w', Val tt)
      /\ trace w' = trace w ++ [Fetch batch directory file_name].
Proof.
  intros batch directory file_name w Hf. unfold call_download.
  specialize (Hf (fetch_calls w) batch directory file_name (disk w)).
  destruct (download_item_collection (fetch_calls w) batch directory
                                     file_name (disk w)) as [d' [e|]];
    simpl in Hf; [discriminate|].
  eexists. split; reflexivity.
Qed.

Lemma download_batches_calls :
  forall fuel (b : nat) coll directory names w,
    1 <= b -> patient fuel -> fetch_never_raises ->
    exists w' new,
      download_batches fuel (Some (Z.of_nat b)) coll directory names w
        = (w', Val tt)
      /\ trace w' = trace w ++ new
      /\ calls new
         = flat_map (fun i => [Signed (Py.slice coll i b);
                               Fetched directory (names i)])
                    (Py.offsets (Py.ceil_div (length coll) b) 0 b)
      /\ (never_refuses ->
          count is_sign new = Py.ceil_div (length coll) b).
Proof.
  intros fuel b coll directory names w Hb Hp Hf.
  unfold download_batches.
  rewrite or_else_positive by lia. rewrite range_step_positive by lia.
  rewrite Nat2Z.id.
  set (starts := Py.offsets (Py.ceil_div (length coll) b) 0 b).
  set (body := fun i : nat => _).
  set (shape_of := fun i : nat => [Signed (Py.slice coll i b);
                                   Fetched directory (names i)]).
  pose (I := fun (done : list nat) (w' : world) =>
               exists new, trace w' = trace w ++ new
                           /\ calls new = flat_map shape_of done
                           /\ (never_refuses -> count is_sign new = length done)).
  destruct (@for_each_invariant nat body I) with (todo := starts) (done := @nil nat) (w := w)
    as (w' & E & new & Ht & Hc & Hn).
  - intros done i w1 (new & Ht & Hc & Hn). unfold body.
    destruct (reauth_succeeds (Z.of_nat b) (Py.slice coll i b) w1 Hp)
      as (w2 & new2 & signed & E2 & Ht2 & Hc2 & Hn2).
    destruct (call_download_returns signed directory (names i) w2 Hf)
      as (w3 & E3 & Ht3).
    exists w3. unfold bind. rewrite E2. split; [exact E3|].
    exists (new ++ new2 ++ [Fetch signed directory (names i)]).
    split; [rewrite Ht3, Ht2, Ht, <- !app_assoc; reflexivity|].
    split.
    + rewrite !calls_app, Hc, Hc2, flat_map_app. simpl.
      rewrite ?app_nil_r. reflexivity.
    + intros Hnr. rewrite !count_app, (Hn Hnr), (Hn2 Hnr), length_app.
      unfold count. simpl. lia.
  - exists []. rewrite app_nil_r. repeat split; reflexivity.
  - exists w', new. split; [exact E|]. split; [exact Ht|].
    split; [exact Hc|]. intros Hnr. rewrite (Hn Hnr).
    unfold starts. apply length_offsets.
Qed.

End Batches.

(* ------------------------------------------------------------------ *)
(** ** Computations that never call the signing service *)

Create HintDb unsigned.

Lemma unsigned_ret : forall A (a : A), unsigned (ret a).
Proof. intros A a w. split; reflexivity. Qed.

Lemma unsigned_raise : forall A e, unsigned (@raise A e).
Proof. intros A e w. split; reflexivity. Qed.

Lemma unsigned_bind :
  forall A B (c : M A) (k : A -> M B),
    unsigned c -> (forall a, unsigned (k a)) -> unsigned (bind c k).
Proof.
  intros A B c k Hc Hk w. unfold bind.
  destruct (Hc w) as [H1 H2]. destruct (c w) as [w1 [a|e|]]; simpl in *.
  - destruct (Hk a w1) as [H3 H4]. split; congruence.
  - split; assumption.
  - split; assumption.
Qed.

Lemma unsigned_finally :
  forall A (c : M A) (h : M unit),
    unsigned c -> unsigned h -> unsigned (finally c h).
Proof.
  intros A c h Hc Hh w. unfold finally.
  destruct (Hc w) as [H1 H2]. destruct (c w) as [w1 r]. simpl in *.
  destruct (Hh w1) as [H3 H4].
  destruct r as [a|e0|]; [| |split; assumption];
    destruct (h w1) as [w2 [u|e|]]; simpl in *; split; congruence.
Qed.

Lemma unsigned_emit : forall e, is_sign e = false -> unsigned (emit e).
Proof.
  intros e He w. unfold emit. simpl. split; [reflexivity|].
  rewrite count_app. unfold count at 2. simpl. rewrite He. simpl. lia.
Qed.

Lemma unsigned_get_disk : unsigned get_disk.
Proof. intros w. split; reflexivity. Qed.

Lemma unsigned_set_disk : forall d, unsigned (set_disk d).
Proof. intros d w. split; reflexivity. Qed.

#[export] Hint Resolve unsigned_ret unsigned_raise unsigned_bind unsigned_finally
  unsigned_get_disk unsigned_set_disk : unsigned.

Lemma unsigned_disk_op : forall f, unsigned (disk_op f).
Proof.
  intros f. unfold disk_op. apply unsigned_bind; auto with unsigned.
  intros d. destruct (f d); auto with unsigned.
Qed.

Lemma unsigned_print : forall l, unsigned (print l).
Proof. intros l. apply unsigned_emit. reflexivity. Qed.

Lemma unsigned_for_each :
  forall A (body : A -> M unit) l,
    (forall x, unsigned (body x)) -> unsigned (for_each l body).
Proof.
  intros A body l Hb. induction l as [|x l IH]; simpl; auto with unsigned.
Qed.

#[export] Hint Resolve unsigned_disk_op unsigned_print unsigned_for_each : unsigned.

Ltac unsigned_step :=
  first [ solve [ auto with unsigned ]
        | apply unsigned_bind; [| intros ? ]
        | apply unsigned_for_each; intros ?
        | apply unsigned_finally ].

Section Unsigned.

Context {C : Collaborators}.

Lemma unsigned_from_file : forall p, unsigned (from_file p).
Proof.
  intros p. unfold from_file. apply unsigned_bind; auto with unsigned.
  intros d. destruct (FS.lookup d p) as [[s [items|]|es]|]; auto with unsigned.
Qed.

Lemma unsigned_save_object : forall items p, unsigned (save_object items p).
Proof. intros. unfold save_object. auto with unsigned. Qed.

Lemma unsigned_os_listdir : forall p, unsigned (os_listdir p).
Proof.
  intros p. unfold os_listdir. apply unsigned_bind; auto with unsigned.
  intros d. destruct (FS.listdir d p); auto with unsigned.
Qed.

Hint Resolve unsigned_from_file unsigned_save_object unsigned_os_listdir
  : unsigned.

Lemma unsigned_remove_empty_items :
  forall out_path, unsigned (_remove_empty_items out_path).
Proof.
  intros out_path. unfold _remove_empty_items.
  repeat unsigned_step.
  match goal with
  | |- unsigned (match ?x with _ => _ end) => destruct x
  end; auto with unsigned.
Qed.

Lemma unsigned_call_download :
  forall batch directory file_name,
    unsigned (call_download batch directory file_name).
Proof.
  intros batch directory file_name w. unfold call_download.
  destruct (download_item_collection _ _ _ _ _) as [d' [e|]]; simpl;
    (split; [reflexivity|]); rewrite count_app; unfold count at 2; simpl; lia.
Qed.

Lemma unsigned_download_batches :
  forall fuel coll directory names,
    unsigned (download_batches fuel None coll directory names).
Proof.
  intros. unfold download_batches.
  destruct (Py.range_step _ _); auto with unsigned.
  apply unsigned_for_each. intros i. simpl.
  apply unsigned_bind; auto with unsigned.
  intros batch. apply unsigned_call_download.
Qed.

Lemma unsigned_merge_files :
  forall ps acc, unsigned (merge_files ps acc).
Proof.
  induction ps as [|f ps IH]; intros acc; simpl; repeat unsigned_step.
Qed.

Hint Resolve unsigned_remove_empty_items unsigned_call_download
  unsigned_download_batches unsigned_merge_files : unsigned.

Lemma unsigned_async_download :
  forall fuel self,
    reauth_batch_size self = None -> unsigned (_async_download fuel self).
Proof.
  intros fuel self Hn. unfold _async_download. rewrite Hn.
  apply unsigned_bind.
  - unfold preview_run. rewrite Hn.
    destruct (Z.of_nat (length (item_coll self)) >=? preview_size self)%Z;
      auto with unsigned.
    repeat unsigned_step.
    + destruct (preview_size self <? 0)%Z; auto with unsigned.
    + unfold evaluate_size. repeat unsigned_step.
      match goal with
      | |- unsigned (if ?x then _ else _) => destruct x
      end; auto with unsigned.
  - intros _. apply unsigned_bind; auto with unsigned.
    intros _. unfold merge_item_collections. repeat unsigned_step.
Qed.

Lemma download_batches_unsigned_single :
  forall fuel coll directory names w,
    coll <> [] ->
    download_batches fuel None coll directory names w
      = call_download coll directory (names 0) w.
Proof.
  intros fuel coll directory names w Hne.
  assert (Hl : 1 <= length coll) by (destruct coll; [congruence | simpl; lia]).
  unfold download_batches.
  change (Py.or_else None (Z.of_nat (length coll))) with (Z.of_nat (length coll)).
  rewrite range_step_positive by lia. rewrite Nat2Z.id.
  rewrite ceil_div_self by lia. simpl.
  unfold Py.slice. simpl. rewrite firstn_all.
  unfold bind at 1 2. unfold ret at 1.
  destruct (call_download coll directory (names 0) w) as [w' [[]|e|]];
    reflexivity.
Qed.

End Unsigned.

(* ------------------------------------------------------------------ *)
(** ** Signing and batching: the claims *)

(** C7. For every batch of a run with re-signing enabled, a refused signing
    call never fails the run: (1) the [reauth] block raises nothing, whatever
    the signing service does; (2) when the service refuses [k] calls and then
    answers, the block returns the signed batch after [k + 1] calls, having
    slept one second after each refusal, printed the "paused" line once,
    right after the first refusal of the streak, and the "resumed" line once,
    after the call that went through (and neither line when [k = 0]);
    (3) as long as the service refuses, the block is still retrying: it
    neither returns nor raises, and has slept once per refusal. *)
Theorem signing_failures_are_absorbed :
  forall {C : Collaborators} (fuel : nat) (b : Z) (batch : list Item) (w : world),
    (forall e, snd (reauth fuel (Some b) batch w) <> Raise e)
    /\ (forall k signed,
          k < fuel ->
          refuses (sign_calls w) k batch ->
          sign_metadata (sign_calls w + k) batch = Some signed ->
          exists new,
            reauth fuel (Some b) batch w
              = (mkWorld (disk w) (sign_calls w + k + 1) (fetch_calls w)
                         (trace w ++ new),
                 Val signed)
            /\ new = pause_events batch 0 k ++ [Sign batch true]
                       ++ (if k =? 0 then [] else [Print Resumed])
            /\ count is_backoff new = k
            /\ count is_paused new = (if k =? 0 then 0 else 1)
            /\ count is_resumed new = (if k =? 0 then 0 else 1))
    /\ (refuses (sign_calls w) fuel batch ->
        reauth fuel (Some b) batch w
          = (mkWorld (disk w) (sign_calls w + fuel) (fetch_calls w)
                     (trace w ++ pause_events batch 0 fuel),
             Diverge)
        /\ count is_backoff (pause_events batch 0 fuel) = fuel).
Proof.
  intros C fuel b batch w. split; [|split].
  - intros e. unfold reauth, bind.
    pose proof (@sign_loop_never_raises C fuel batch 0 w e) as H.
    destruct (sign_loop fuel batch 0 w) as [w1 [[s n]|e1|]]; simpl in *.
    + destruct (0 <? n); simpl; discriminate.
    + intros E. apply H. now inversion E.
    + discriminate.
  - intros k signed Hk Hr Hs.
    unfold reauth, bind.
    rewrite (@sign_loop_succeeds C k fuel batch 0 w signed Hk Hr Hs).
    cbv beta iota. cbn [fst snd Nat.add].
    destruct (count_pause_events batch k 0) as (Hp & Hb & Hres & _ & _).
    destruct k as [|k].
    + simpl. eexists. split; [reflexivity|]. repeat split; reflexivity.
    + replace (0 <? S k) with true by (symmetry; apply Nat.ltb_lt; lia).
      unfold print, emit, ret.
      cbn [trace disk sign_calls fetch_calls fst snd].
      exists (pause_events batch 0 (S k) ++ [Sign batch true] ++ [Print Resumed]).
      split; [rewrite <- !app_assoc; reflexivity|].
      split; [reflexivity|].
      rewrite !count_app, Hp, Hb, Hres. unfold count. simpl. repeat split; lia.
  - intros Hr. split.
    + unfold reauth, bind.
      now rewrite (@sign_loop_blocked C fuel batch 0 w Hr).
    + apply count_pause_events.
Qed.

(** The slices of a 25-item collection for a batch size of 10. *)
Lemma batches_of_25_by_10 :
  forall coll, length coll = 25 -> map (@List.length Item) (batches_of coll 10) = [10; 10; 5].
Proof.
  intros coll H. unfold batches_of. rewrite H.
  change (Py.offsets (Py.ceil_div 25 10) 0 10) with [0; 10; 20].
  simpl map. rewrite !length_slice, H. reflexivity.
Qed.

(** C2, amended. For every collection of N items and every re-signing batch
    size b >= 1, the download loop of an attempt splits the collection into
    ceil(N/b) contiguous slices that partition it exactly: their
    concatenation is the collection, slice j starts at offset j*b and every
    slice but the last has b items.  Each slice gets exactly one signing call
    that goes through, right before its fetch (a refused call is retried on
    the same slice); when no call is refused the loop makes exactly
    ceil(N/b) signing calls, so 3 for 25 items and b = 10, on slices of 10,
    10 and 5 items.  (The size preview of the same attempt signs the batches
    of its own sample besides.) *)
Theorem batches_partition_and_are_signed_once :
  forall {C : Collaborators} (coll : list Item) (b : nat),
    1 <= b ->
    let chunks := batches_of coll b in
    concat chunks = coll
    /\ length chunks = Py.ceil_div (length coll) b
    /\ (forall j, j < length chunks ->
          nth j chunks [] = Py.slice coll (j * b) b
          /\ 1 <= length (nth j chunks [])
          /\ (S j < length chunks -> length (nth j chunks []) = b))
    /\ (length coll = 25 -> b = 10 -> map (@List.length Item) chunks = [10; 10; 5])
    /\ (forall fuel directory names w,
          patient fuel -> fetch_never_raises ->
          exists w' new,
            download_batches fuel (Some (Z.of_nat b)) coll directory names w
              = (w', Val tt)
            /\ trace w' = trace w ++ new
            /\ calls new
               = flat_map (fun j => [Signed (nth j chunks []);
                                     Fetched directory (names (j * b))])
                          (seq 0 (length chunks))
            /\ (never_refuses -> count is_sign new = length chunks)).
Proof.
  intros C coll b Hb chunks.
  assert (Hlen : length chunks = Py.ceil_div (length coll) b).
  { unfold chunks, batches_of. now rewrite length_map, length_offsets. }
  destruct (ceil_div_bounds (length coll) Hb) as [Hup Hlow].
  split; [|split; [exact Hlen|split; [|split]]].
  - unfold chunks, batches_of. rewrite concat_slices. simpl.
    apply firstn_all2. exact Hup.
  - intros j Hj. rewrite Hlen in Hj.
    unfold chunks. rewrite (nth_batches_of coll b Hj).
    rewrite length_slice.
    assert (j * b < length coll).
    { assert (1 <= length coll).
      { destruct (length coll) eqn:E; [|lia].
        rewrite ceil_div_zero in Hj by exact Hb. lia. }
      specialize (Hlow H). nia. }
    split; [reflexivity|]. split; [lia|].
    intros Hj'. change (S j < length chunks) in Hj'. rewrite Hlen in Hj'.
    assert (1 <= length coll) by lia.
    specialize (Hlow H0). nia.
  - intros H25 H10. subst b. apply batches_of_25_by_10. exact H25.
  - intros fuel directory names w Hp Hf.
    destruct (@download_batches_calls C fuel b coll directory names w Hb Hp Hf)
      as (w' & new & E & Ht & Hc & Hn).
    exists w', new. split; [exact E|]. split; [exact Ht|]. split.
    + rewrite Hc, Hlen, offsets_seq. rewrite !flat_map_concat_map, map_map.
      f_equal. apply map_ext_in. intros j Hj. apply in_seq in Hj.
      unfold chunks. rewrite (@nth_batches_of coll b j) by lia. reflexivity.
    + intros Hnr. rewrite Hlen. apply Hn, Hnr.
Qed.

(** C3, amended. With re-signing disabled ([reauth_batch_size] is [None])
    the loop over a non-empty collection is a single fetch of the whole
    collection, and the attempt makes no signing call at all: the batch is
    fetched unsigned. *)
Theorem unsigned_single_batch :
  forall {C : Collaborators} (fuel : nat) (self : STACDownloader) (w : world),
    reauth_batch_size self = None ->
    (item_coll self <> [] ->
     forall directory names w1,
       download_batches fuel (reauth_batch_size self) (item_coll self)
                        directory names w1
         = call_download (item_coll self) directory (names 0) w1)
    /\ sign_calls (fst (_async_download fuel self w)) = sign_calls w
    /\ count is_sign (trace (fst (_async_download fuel self w)))
       = count is_sign (trace w).
Proof.
  intros C fuel self w Hn. split.
  - intros Hne directory names w1. rewrite Hn.
    now apply download_batches_unsigned_single.
  - apply (unsigned_async_download fuel self Hn w).
Qed.

(* ------------------------------------------------------------------ *)
(** ** Signing and batching on concrete runs *)

Lemma steady_is_patient : @patient steady 1.
Proof.
  intros c batch. exists 0, batch. split; [lia|]. split.
  - intros j Hj. lia.
  - reflexivity.
Qed.

Lemma steady_never_refuses : @never_refuses steady.
Proof. intros c batch. discriminate. Qed.

Lemma steady_fetch_never_raises : @fetch_never_raises steady.
Proof. intros k batch directory file_name d. reflexivity. Qed.

Lemma signing_failures_are_absorbed_witness :
  2 < 5
  /\ @refuses flaky 0 2 (Sim.items 3)
  /\ @sign_metadata flaky 2 (Sim.items 3) = Some (Sim.items 3)
  /\ exists new,
       @reauth flaky 5 (Some 10%Z) (Sim.items 3) Sim.world0
         = (mkWorld Sim.disk0 3 0 new, Val (Sim.items 3))
       /\ new = [Sign (Sim.items 3) false; Print Paused; Sleep 1;
                 Sign (Sim.items 3) false; Sleep 1;
                 Sign (Sim.items 3) true; Print Resumed]
       /\ count is_backoff new = 2
       /\ count is_paused new = 1
       /\ count is_resumed new = 1.
Proof.
  assert (H1 : 2 < 5) by lia.
  assert (H2 : @refuses flaky 0 2 (Sim.items 3)).
  { intros j Hj. destruct j as [|[|j]]; [reflexivity | reflexivity | lia]. }
  assert (H3 : @sign_metadata flaky 2 (Sim.items 3) = Some (Sim.items 3))
    by reflexivity.
  split; [exact H1|]. split; [exact H2|]. split; [exact H3|].
  exact (proj1 (proj2 (@signing_failures_are_absorbed
                         flaky 5 10%Z (Sim.items 3) Sim.world0))
               2 (Sim.items 3) H1 H2 H3).
Defined.

Lemma batches_partition_and_are_signed_once_witness :
  1 <= 10
  /\ concat (batches_of (Sim.items 25) 10) = Sim.items 25
  /\ length (batches_of (Sim.items 25) 10) = 3
  /\ map (@List.length Item) (batches_of (Sim.items 25) 10) = [10; 10; 5]
  /\ exists w' new,
       @download_batches steady 1 (Some 10%Z) (Sim.items 25) ["data"]
                         batch_file_name Sim.world0 = (w', Val tt)
       /\ trace w' = new
       /\ count is_sign new = 3.
Proof.
  assert (H1 : 1 <= 10) by lia.
  destruct (@batches_partition_and_are_signed_once steady (Sim.items 25) 10 H1)
    as (Hc & Hl & _ & H25 & Hrun).
  split; [exact H1|]. split; [exact Hc|]. split; [exact Hl|].
  split; [apply H25; reflexivity|].
  destruct (Hrun 1 ["data"] batch_file_name Sim.world0
                 steady_is_patient steady_fetch_never_raises)
    as (w' & new & E & Ht & _ & Hn).
  exists w', new. split; [exact E|]. split; [exact Ht|].
  rewrite (Hn steady_never_refuses). exact Hl.
Defined.

(** C2 as stated fails on two runs of [_async_download] over 25 items with
    batches of 10.  With the default preview the attempt signs the preview
    sample first: four signing calls, on 10, 10, 10 and 5 items.  Without a
    preview, a service that refuses its first call is called four times as
    well. *)
Lemma attempt_makes_four_signing_calls :
  (let r := @_async_download steady 1 batched25 Sim.world0 in
   snd r = Val tt
   /\ map (@List.length Item) (Sim.signed_batches (trace (fst r)))
      = [10; 10; 10; 5]
   /\ sign_calls (fst r) <> 3)
  /\ (let r := @_async_download
                 (Sim.collaborators Sim.Appended (fun k => k =? 0) Sim.one_asset)
                 2 batched25_no_preview Sim.world0 in
      snd r = Val tt
      /\ map (@List.length Item) (Sim.signed_batches (trace (fst r)))
         = [10; 10; 10; 5]
      /\ sign_calls (fst r) <> 3).
Proof.
  vm_compute. repeat split; discriminate.
Qed.

Lemma unsigned_single_batch_witness :
  reauth_batch_size unsigned3 = None
  /\ (forall w1,
        @download_batches steady 1 None (Sim.items 3) ["data"] batch_file_name w1
          = @call_download steady (Sim.items 3) ["data"] (batch_file_name 0) w1)
  /\ sign_calls (fst (@_async_download steady 1 unsigned3 Sim.world0)) = 0.
Proof.
  assert (H : reauth_batch_size unsigned3 = None) by reflexivity.
  destruct (@unsigned_single_batch steady 1 unsigned3 Sim.world0 H)
    as (H1 & H2 & _).
  split; [exact H|]. split; [|exact H2].
  intros w1. apply (H1 ltac:(discriminate) ["data"] batch_file_name w1).
Defined.

(** C3 as stated fails: with re-signing disabled the attempt over three
    items fetches the whole collection in one batch and never calls the
    signing service; over an empty collection it has no batch at all, the
    range of step 0 raises. *)
Lemma disabled_resigning_signs_nothing :
  (let r := @_async_download steady 1 unsigned3 Sim.world0 in
   snd r = Val tt
   /\ Sim.fetched_batches (trace (fst r)) = [Sim.items 3]
   /\ Sim.signed_batches (trace (fst r)) = []
   /\ sign_calls (fst r) = 0)
  /\ snd (@_async_download steady 1 (mkDownloader [] ["data"] 3 10 None)
                           Sim.world0) = Raise ValueError.
Proof.
  vm_compute. repeat split.
Qed.

(* ------------------------------------------------------------------ *)
(** ** The retry loop *)

Section Retry.

Context {C : Collaborators}.

Lemma run_unfold :
  forall fuel self,
    run fuel self
      = bind (retry_loop fuel self (Py.range (retries self)) None)
             (summary self).
Proof. reflexivity. Qed.

Lemma bind_val :
  forall A B (c : M A) (k : A -> M B) w w1 a,
    c w = (w1, Val a) -> bind c k w = k a w1.
Proof. intros. unfold bind. now rewrite H. Qed.

Lemma bind_raise :
  forall A B (c : M A) (k : A -> M B) w w1 e,
    c w = (w1, Raise e) -> bind c k w = (w1, Raise e).
Proof. intros. unfold bind. now rewrite H. Qed.

Lemma bind_diverge :
  forall A B (c : M A) (k : A -> M B) w w1,
    c w = (w1, Diverge) -> bind c k w = (w1, Diverge).
Proof. intros. unfold bind. now rewrite H. Qed.

Lemma bind_val_inv :
  forall A B (c : M A) (k : A -> M B) w w' b,
    bind c k w = (w', Val b) ->
    exists w1 a, c w = (w1, Val a) /\ k a w1 = (w', Val b).
Proof.
  intros A B c k w w' b H. unfold bind in H.
  destruct (c w) as [w1 [a|e|]]; try discriminate.
  exists w1, a. split; [reflexivity | exact H].
Qed.

Lemma true_div_val :
  forall a b w w' q,
    true_div a b w = (w', Val q) ->
    w' = w /\ b <> 0 /\ q = (Z.of_nat a # Pos.of_nat b).
Proof.
  intros a b w w' q H. unfold true_div in H.
  destruct (b =? 0) eqn:E; [discriminate|].
  apply Nat.eqb_neq in E. inversion H. auto.
Qed.

Lemma ratio_is_one :
  forall a b, b <> 0 ->
    Qeq_bool (Z.of_nat a # Pos.of_nat b) 1 = true <-> a = b.
Proof.
  intros a b Hb. rewrite Qeq_bool_iff. unfold Qeq. simpl. lia.
Qed.

Lemma retry_loop_from :
  forall fuel self n i w locals,
    item_coll self <> [] ->
    0 < n -> (Z.of_nat (i + n) = retries self)%Z ->
    exists k wk,
      i <= k < i + n
      /\ retried fuel self i w k wk
      /\ ends_with self k (attempt fuel self k wk)
                   (bind (retry_loop fuel self (seq i n) locals)
                         (summary self) w).
Proof.
  intros fuel self n. induction n as [|n IH]; intros i w locals Hne Hn Hr;
    [lia|].
  assert (HN : length (item_coll self) <> 0)
    by (destruct (item_coll self); [congruence | discriminate]).
  simpl seq. simpl retry_loop.
  destruct (attempt fuel self i w) as [w1 [coll|e|]] eqn:E.
  - unfold bind at 1 2. rewrite E.
    unfold bind at 1. unfold true_div.
    replace (length (item_coll self) =? 0) with false
      by (symmetry; now apply Nat.eqb_neq).
    unfold ret at 1.
    destruct (Qeq_bool (Z.of_nat (length coll)
                          # Pos.of_nat (length (item_coll self))) 1) eqn:Eq.
    + apply ratio_is_one in Eq; [|exact HN].
      exists i, w. split; [lia|]. split; [constructor|].
      rewrite E. left. split; [exact Eq|].
      unfold ret, summary, bind, print, emit, printed. simpl.
      now rewrite <- app_assoc.
    + assert (Hneq : length coll <> length (item_coll self)).
      { intros Heq. apply (ratio_is_one _ HN) in Heq. congruence. }
      destruct n as [|n].
      * exists i, w. split; [lia|]. split; [constructor|].
        rewrite E. right. split; [exact Hneq|]. split; [lia|].
        replace (Z.of_nat i <? retries self - 1)%Z with false
          by (symmetry; apply Z.ltb_ge; lia).
        unfold ret, summary, bind, print, emit, printed. simpl.
        now rewrite <- !app_assoc.
      * replace (Z.of_nat i <? retries self - 1)%Z with true
          by (symmetry; apply Z.ltb_lt; lia).
        destruct (IH (S i) (printed w1 [RetryDownload])
                     (Some (coll, Z.of_nat (length coll)
                                   # Pos.of_nat (length (item_coll self))))
                     Hne ltac:(lia) ltac:(lia))
          as (k & wk & Hk & Hret & Hend).
        exists k, wk. split; [lia|]. split.
        -- eapply retried_next; eassumption.
        -- exact Hend.
  - exists i, w. split; [lia|]. split; [constructor|].
    rewrite E. unfold bind. now rewrite E.
  - exists i, w. split; [lia|]. split; [constructor|].
    rewrite E. unfold bind. now rewrite E.
Qed.

End Retry.

(** C1, amended. For every non-empty item collection and every retry budget
    of at least 1 (default 3): every iteration of the loop is the same full
    attempt [attempt fuel self] over the collection the downloader was built
    with; the attempts before the last each left an incomplete collection;
    the loop stops at the first attempt whose ratio
    retrieved_items / requested_items is 1, or else at attempt number
    [retries], and then [run] returns without a fault and reports the ratio
    of that last attempt.  [run] only raises what the download, cleanup or
    load of an attempt itself raised. *)
Theorem retry_loop_reports_last_attempt :
  forall {C : Collaborators} (fuel : nat) (self : STACDownloader) (w : world),
    (1 <= retries self)%Z ->
    item_coll self <> [] ->
    exists k wk,
      (Z.of_nat k < retries self)%Z
      /\ retried fuel self 0 w k wk
      /\ ends_with self k (attempt fuel self k wk) (run fuel self w).
Proof.
  intros C fuel self w Hr Hne.
  destruct (@retry_loop_from C fuel self (Z.to_nat (retries self)) 0 w None
                             Hne ltac:(lia) ltac:(lia))
    as (k & wk & Hk & Hret & Hend).
  exists k, wk. split; [lia|]. split; [exact Hret|].
  rewrite run_unfold. exact Hend.
Qed.

(** C9. [run] ends normally only with a retry budget of at least 1: with
    [retries <= 0] it makes no attempt, leaves the world as it found it (no
    line printed, no fetch, no signing call) and raises [UnboundLocalError]
    at the summary, where [coll] and [ratio] were never assigned. *)
Theorem run_needs_a_positive_budget :
  forall {C : Collaborators} (fuel : nat) (self : STACDownloader) (w : world),
    ((retries self <= 0)%Z ->
     run fuel self w = (w, Raise UnboundLocalError))
    /\ (forall w' v, run fuel self w = (w', Val v) -> (1 <= retries self)%Z).
Proof.
  intros C fuel self w.
  assert (H0 : (retries self <= 0)%Z ->
               run fuel self w = (w, Raise UnboundLocalError)).
  { intros Hr. unfold run, Py.range.
    replace (Z.to_nat (retries self)) with 0 by lia. reflexivity. }
  split; [exact H0|].
  intros w' v Hv.
  destruct (Z_le_gt_dec (retries self) 0) as [Hle|Hgt]; [|lia].
  rewrite (H0 Hle) in Hv. discriminate.
Qed.

(* ------------------------------------------------------------------ *)
(** ** The retry loop on concrete runs *)

Lemma retry_loop_reports_last_attempt_witness :
  (1 <= retries three_items)%Z
  /\ item_coll three_items <> []
  /\ (exists k wk,
        (Z.of_nat k < retries three_items)%Z
        /\ @retried second_try 1 three_items 0 Sim.world0 k wk
        /\ @ends_with three_items k (@attempt second_try 1 three_items k wk)
                      (@run second_try 1 three_items Sim.world0))
  /\ snd (@run second_try 1 three_items Sim.world0) = Val (3, 3 # 3)
  /\ count (fun e => match e with Print (DownloadLoop _) => true | _ => false end)
           (trace (fst (@run second_try 1 three_items Sim.world0))) = 2.
Proof.
  assert (H1 : (1 <= retries three_items)%Z) by (simpl; lia).
  assert (H2 : item_coll three_items <> []) by discriminate.
  split; [exact H1|]. split; [exact H2|]. split.
  - exact (@retry_loop_reports_last_attempt second_try 1 three_items
                                            Sim.world0 H1 H2).
  - vm_compute. split; reflexivity.
Defined.

(** C1 as stated fails for a retry budget of 0, where [run] raises
    [UnboundLocalError], and for an empty collection, where the ratio is a
    division by zero. *)
Lemma run_faults_without_budget_or_items :
  snd (@run steady 1 (mkDownloader (Sim.items 3) ["data"] 0 10 (Some 1000%Z))
            Sim.world0) = Raise UnboundLocalError
  /\ snd (@run steady 1 (default_downloader [] ["data"]) Sim.world0)
     = Raise ZeroDivisionError.
Proof.
  vm_compute. split; reflexivity.
Qed.

Lemma run_needs_a_positive_budget_witness :
  (0 <= 0)%Z
  /\ @run steady 1 (mkDownloader (Sim.items 3) ["data"] 0 10 (Some 1000%Z))
          Sim.world0 = (Sim.world0, Raise UnboundLocalError)
  /\ (1 <= retries three_items)%Z.
Proof.
  assert (H0 : (0 <= 0)%Z) by lia.
  split; [exact H0|]. split.
  - exact (proj1 (@run_needs_a_positive_budget
                    steady 1 (mkDownloader (Sim.items 3) ["data"] 0 10
                                           (Some 1000%Z)) Sim.world0) H0).
  - apply (proj2 (@run_needs_a_positive_budget second_try 1 three_items
                                               Sim.world0)
                 (fst (@run second_try 1 three_items Sim.world0)) (3, 3 # 3)).
    vm_compute. reflexivity.
Defined.

(* ------------------------------------------------------------------ *)
(** ** The disk *)

Module FSFacts.

Import FS.

Lemma find_some_in :
  forall es k v, find es k = Some v -> In (k, v) es.
Proof.
  induction es as [|[k' v'] es IH]; intros k v H; simpl in *; [discriminate|].
  destruct (String.eqb k k') eqn:E.
  - apply String.eqb_eq in E. inversion H. subst. now left.
  - right. now apply IH.
Qed.

Lemma find_none_not_in :
  forall es k, find es k = None <-> ~ In k (map fst es).
Proof.
  induction es as [|[k' v'] es IH]; intros k; simpl.
  - tauto.
  - destruct (String.eqb k k') eqn:E.
    + apply String.eqb_eq in E. subst. split; [discriminate|]. tauto.
    + apply String.eqb_neq in E. rewrite IH. split.
      * intros H [H1|H1]; [congruence | tauto].
      * tauto.
Qed.

Lemma find_in_nodup :
  forall es k v, NoDup (map fst es) -> In (k, v) es -> find es k = Some v.
Proof.
  induction es as [|[k' v'] es IH]; intros k v Hnd Hin; simpl in *; [tauto|].
  inversion Hnd as [|? ? Hnotin Hnd']. subst.
  destruct Hin as [Heq|Hin].
  - inversion Heq. subst. now rewrite String.eqb_refl.
  - destruct (String.eqb k k') eqn:E.
    + apply String.eqb_eq in E. subst. exfalso. apply Hnotin.
      apply (in_map fst) in Hin. exact Hin.
    + now apply IH.
Qed.

Lemma find_put_same :
  forall es k v, find (put_entry k v es) k = Some v.
Proof.
  induction es as [|[k' v'] es IH]; intros k v; simpl.
  - now rewrite String.eqb_refl.
  - destruct (String.eqb k k') eqn:E; simpl; rewrite E; [reflexivity | apply IH].
Qed.

Lemma find_put_other :
  forall es k v k', k <> k' -> find (put_entry k v es) k' = find es k'.
Proof.
  induction es as [|[k0 v0] es IH]; intros k v k' Hne; simpl.
  - destruct (String.eqb k' k) eqn:E; [|reflexivity].
    apply String.eqb_eq in E. congruence.
  - destruct (String.eqb k k0) eqn:E; simpl.
    + apply String.eqb_eq in E. subst k0.
      destruct (String.eqb k' k) eqn:E'; [|reflexivity].
      apply String.eqb_eq in E'. congruence.
    + destruct (String.eqb k' k0); [reflexivity | now apply IH].
Qed.

Lemma find_filter :
  forall (keep : string -> bool) es k,
    find (filter (fun e => keep (fst e)) es) k
      = if keep k then find es k else None.
Proof.
  intros keep. induction es as [|[k' v'] es IH]; intros k; simpl.
  - now destruct (keep k).
  - destruct (keep k') eqn:Ek'; simpl.
    + destruct (String.eqb k k') eqn:E.
      * apply String.eqb_eq in E. subst. now rewrite Ek'.
      * apply IH.
    + destruct (String.eqb k k') eqn:E.
      * apply String.eqb_eq in E. subst. rewrite IH. now rewrite Ek'.
      * apply IH.
Qed.

Lemma remove_entry_filter :
  forall k es,
    remove_entry k es = filter (fun e => negb (String.eqb k (fst e))) es.
Proof. reflexivity. Qed.

Lemma lookup_app :
  forall p q d,
    lookup d (p ++ q)
      = match lookup d p with
        | Some m => lookup m q
        | None => None
        end.
Proof.
  induction p as [|name p IH]; intros q d; simpl; [reflexivity|].
  destruct d as [s b|es]; [reflexivity|].
  destruct (find es name); [apply IH | reflexivity].
Qed.

Lemma lookup_graft :
  forall p d m v,
    lookup d p = Some m -> lookup (graft d p v) p = Some v.
Proof.
  induction p as [|name p IH]; intros d m v H; simpl in *; [reflexivity|].
  destruct d as [s b|es]; [discriminate|].
  destruct (find es name) as [c|] eqn:E; [|discriminate].
  simpl. rewrite find_put_same. eapply IH. eassumption.
Qed.

Lemma lookup_graft_below :
  forall p q d m v,
    lookup d p = Some m -> lookup (graft d p v) (p ++ q) = lookup v q.
Proof.
  intros p q d m v H. rewrite lookup_app.
  now rewrite (lookup_graft p d v H).
Qed.

Lemma graft_graft :
  forall p d m v v',
    lookup d p = Some m -> graft (graft d p v) p v' = graft d p v'.
Proof.
  induction p as [|name p IH]; intros d m v v' H; simpl in *; [reflexivity|].
  destruct d as [s b|es]; [discriminate|].
  destruct (find es name) as [c|] eqn:E; [|discriminate].
  simpl. rewrite find_put_same. f_equal.
  rewrite (IH c m v v' H).
  clear. induction es as [|[k0 v0] es IHes]; simpl.
  - now rewrite String.eqb_refl.
  - destruct (String.eqb name k0) eqn:E; simpl; rewrite E; [reflexivity|].
    now rewrite IHes.
Qed.

Lemma graft_same :
  forall out d n, lookup d out = Some n -> graft d out n = d.
Proof.
  induction out as [|a out IHo]; intros d n Hl; simpl in *.
  - now inversion Hl.
  - destruct d as [s b|es0]; [discriminate|].
    destruct (find es0 a) as [c|] eqn:E; [|discriminate].
    rewrite (IHo c n Hl). f_equal.
    clear - E. induction es0 as [|[k v] es0 IHe]; simpl in *; [discriminate|].
    destruct (String.eqb a k) eqn:Ea.
    + apply String.eqb_eq in Ea. inversion E. now subst.
    + now rewrite IHe.
Qed.

(** A change of the directory at [p] through a path that ends in it. *)
Lemma modify_at :
  forall g p d es name,
    lookup d p = Some (Dir es) ->
    modify g d (p ++ [name])
      = option_map (fun es' => graft d p (Dir es')) (g es name).
Proof.
  intros g. induction p as [|a p IH]; intros d es name H; simpl in *.
  - inversion H. subst. reflexivity.
  - destruct d as [s b|es0]; [discriminate|].
    destruct (find es0 a) as [c|] eqn:E; [|discriminate].
    destruct (p ++ [name]) eqn:Ep; [destruct p; discriminate|].
    rewrite <- Ep. rewrite (IH c es name H).
    destruct (g es name); reflexivity.
Qed.

End FSFacts.

Section Files.

Context {C : Collaborators}.

Lemma disk_op_ok :
  forall f w d', f (disk w) = Some d' -> disk_op f w = (with_disk w d', Val tt).
Proof. intros f w d' H. unfold disk_op, bind, get_disk. now rewrite H. Qed.

Lemma disk_op_fails :
  forall f w, f (disk w) = None -> disk_op f w = (w, Raise OSError).
Proof. intros f w H. unfold disk_op, bind, get_disk. now rewrite H. Qed.

Lemma from_file_ok :
  forall p w s items,
    FS.lookup (disk w) p = Some (File s (Some items)) ->
    from_file p w = (w, Val items).
Proof. intros p w s items H. unfold from_file, bind, get_disk. now rewrite H. Qed.

Lemma with_disk_disk : forall w, with_disk w (disk w) = w.
Proof. now destruct w. Qed.

Lemma with_disk_twice :
  forall w d d', with_disk (with_disk w d) d' = with_disk w d'.
Proof. reflexivity. Qed.

End Files.

(* ------------------------------------------------------------------ *)
(** ** Merging the batch artifacts *)

Lemma mem_cons :
  forall x y l, Py.mem x (y :: l) = String.eqb x y || Py.mem x l.
Proof. reflexivity. Qed.

Lemma mem_in : forall x l, Py.mem x l = true <-> In x l.
Proof.
  intros x l. unfold Py.mem. rewrite existsb_exists. split.
  - intros (y & Hin & E). apply String.eqb_eq in E. now subst.
  - intros Hin. exists x. split; [exact Hin | apply String.eqb_refl].
Qed.

Lemma filter_filter :
  forall A (f g : A -> bool) l,
    filter f (filter g l) = filter (fun x => g x && f x) l.
Proof.
  intros A f g. induction l as [|x l IH]; simpl; [reflexivity|].
  destruct (g x); simpl; [destruct (f x)|]; now rewrite IH.
Qed.

Lemma filter_map_fst :
  forall (keep : string -> bool) (es : dir),
    filter keep (map fst es) = map fst (filter (fun e => keep (fst e)) es).
Proof.
  intros keep. induction es as [|e es IH]; simpl; [reflexivity|].
  destruct (keep (fst e)); simpl; now rewrite IH.
Qed.

Lemma flat_map_ext_in :
  forall A B (f g : A -> list B) l,
    (forall x, In x l -> f x = g x) -> flat_map f l = flat_map g l.
Proof.
  intros A B f g l H. rewrite !flat_map_concat_map. f_equal.
  now apply map_ext_in.
Qed.

Lemma Permutation_concat :
  forall A (l l' : list (list A)),
    Permutation l l' -> Permutation (concat l) (concat l').
Proof.
  intros A l l' H. induction H; simpl.
  - constructor.
  - now apply Permutation_app_head.
  - rewrite !app_assoc. apply Permutation_app_tail, Permutation_app_comm.
  - etransitivity; eassumption.
Qed.

Section Merge.

Context {C : Collaborators}.

Lemma merge_files_spec :
  forall out todo es w acc,
    FS.lookup (disk w) out = Some (Dir es) ->
    NoDup todo ->
    (forall k, In k todo ->
               exists s items, FS.find es k = Some (File s (Some items))) ->
    merge_files (map (fun f => out ++ [f]) todo) acc w
      = (with_disk w (graft (disk w) out
                            (Dir (filter (fun e => negb (Py.mem (fst e) todo)) es))),
         Val (acc ++ flat_map (fun k => match FS.find es k with
                                        | Some n => items_of n
                                        | None => []
                                        end) todo)).
Proof.
  intros out. induction todo as [|f todo IH]; intros es w acc Hl Hnd Hart.
  - simpl. unfold ret. rewrite app_nil_r.
    replace (filter (fun _ => true) es) with es
      by (symmetry; apply forallb_filter_id; now apply forallb_forall).
    rewrite (FSFacts.graft_same out (disk w) Hl). now rewrite with_disk_disk.
  - inversion Hnd as [|? ? Hnotin Hnd']. subst.
    destruct (Hart f (or_introl eq_refl)) as (s & items & Hf).
    simpl map. simpl merge_files.
    assert (Hlk : FS.lookup (disk w) (out ++ [f]) = Some (File s (Some items))).
    { rewrite FSFacts.lookup_app, Hl. simpl. now rewrite Hf. }
    erewrite bind_val by (eapply from_file_ok; exact Hlk).
    assert (Hrm : FS.remove (disk w) (out ++ [f])
                  = Some (graft (disk w) out (Dir (FS.remove_entry f es)))).
    { unfold FS.remove. erewrite FSFacts.modify_at by exact Hl.
      now rewrite Hf. }
    erewrite bind_val by (eapply disk_op_ok; exact Hrm).
    assert (Hl1 : FS.lookup (graft (disk w) out (Dir (FS.remove_entry f es))) out
                  = Some (Dir (FS.remove_entry f es)))
      by (eapply FSFacts.lookup_graft; exact Hl).
    rewrite (IH (FS.remove_entry f es)); [| exact Hl1 | exact Hnd' |].
    + simpl disk. rewrite with_disk_twice.
      erewrite FSFacts.graft_graft by exact Hl.
      rewrite FSFacts.remove_entry_filter, filter_filter.
      f_equal.
      * f_equal. f_equal. f_equal. apply filter_ext. intros e.
        rewrite mem_cons, negb_orb. f_equal. f_equal. apply String.eqb_sym.
      * f_equal. simpl. rewrite Hf. simpl. rewrite <- app_assoc. f_equal.
        f_equal. apply flat_map_ext_in. intros k Hk.
        rewrite (FSFacts.find_filter (fun x => negb (String.eqb f x))).
        destruct (String.eqb f k) eqn:E; [|reflexivity].
        apply String.eqb_eq in E. subst. contradiction.
    + intros k Hk. destruct (Hart k (or_intror Hk)) as (s' & items' & Hk').
      exists s', items'.
      rewrite FSFacts.remove_entry_filter.
      rewrite (FSFacts.find_filter (fun x => negb (String.eqb f x))).
      destruct (String.eqb f k) eqn:E; [|exact Hk'].
      apply String.eqb_eq in E. subst. contradiction.
Qed.

Lemma merge_item_collections_spec :
  forall self w es,
    FS.lookup (disk w) (out_dir self) = Some (Dir es) ->
    NoDup (map fst es) ->
    (forall name v, In (name, v) es -> is_batch_file name = true ->
                    is_artifact v = true) ->
    FS.is_dir (FS.find es default_file_name) = false ->
    let artifacts := filter (fun e => is_batch_file (fst e)) es in
    let merged := flat_map (fun e => items_of (snd e)) artifacts in
    merge_item_collections self w
      = (with_disk w
           (graft (disk w) (out_dir self)
              (Dir (FS.put_entry default_file_name
                      (File (json_size merged) (Some merged))
                      (filter (fun e => negb (is_batch_file (fst e))) es)))),
         Val tt).
Proof.
  intros self w es Hl Hnd Hart Hdef artifacts merged.
  unfold merge_item_collections.
  assert (Hls : os_listdir (out_dir self) w = (w, Val (map fst es))).
  { unfold os_listdir, bind, get_disk, FS.listdir. now rewrite Hl. }
  erewrite bind_val by exact Hls.
  set (todo := filter is_batch_file (map fst es)).
  assert (Hin : forall k, In k todo ->
                          exists v, In (k, v) es /\ is_batch_file k = true).
  { intros k Hk. apply filter_In in Hk. destruct Hk as [Hk Hb].
    apply in_map_iff in Hk. destruct Hk as ([k' v] & Hfst & Hk).
    simpl in Hfst. subst k'. eauto. }
  erewrite bind_val.
  2:{ apply (merge_files_spec (out_dir self) (todo := todo) (es := es)).
      - exact Hl.
      - now apply NoDup_filter.
      - intros k Hk. destruct (Hin k Hk) as (v & Hv & Hb).
        specialize (Hart k v Hv Hb).
        rewrite (FSFacts.find_in_nodup es k v Hnd Hv).
        destruct v as [s [items|]|]; try discriminate. eauto. }
  simpl app.
  assert (Hkeep : filter (fun e => negb (Py.mem (fst e) todo)) es
                  = filter (fun e => negb (is_batch_file (fst e))) es).
  { apply filter_ext_in. intros e He. f_equal.
    apply eq_true_iff_eq. rewrite mem_in. unfold todo.
    rewrite filter_In. split; [tauto|]. intros Hb. split; [|exact Hb].
    now apply in_map. }
  assert (Hmerged : flat_map (fun k => match FS.find es k with
                                       | Some n => items_of n
                                       | None => []
                                       end) todo = merged).
  { unfold todo, merged, artifacts. rewrite filter_map_fst.
    rewrite flat_map_concat_map, map_map, <- flat_map_concat_map.
    apply flat_map_ext_in. intros [k v] He. apply filter_In in He.
    simpl. now rewrite (FSFacts.find_in_nodup es k v Hnd (proj1 He)). }
  rewrite Hkeep, Hmerged.
  set (kept := filter (fun e => negb (is_batch_file (fst e))) es).
  unfold save_object.
  erewrite disk_op_ok.
  - rewrite with_disk_twice. reflexivity.
  - simpl disk. unfold FS.write.
    erewrite FSFacts.modify_at
      by (eapply FSFacts.lookup_graft; exact Hl).
    assert (Hfk : FS.find kept default_file_name
                  = FS.find es default_file_name).
    { unfold kept.
      now rewrite (FSFacts.find_filter (fun k => negb (is_batch_file k))). }
    rewrite Hfk, Hdef. simpl option_map.
    erewrite FSFacts.graft_graft by exact Hl. reflexivity.
Qed.

End Merge.

(** C4, amended. After the batches of an attempt, the merge step
    concatenates the per-batch artifacts of the output directory in the
    order the directory lists them, without sorting and without dropping
    repeated ids, into one artifact [item-collection.json], and no per-batch
    artifact is left.  Its items are those of the batch artifacts, each as
    often as they list it: a permutation of their concatenation in batch
    order, and that concatenation itself when the directory lists the
    artifacts in batch order.  Nothing here depends on the batch size. *)
Theorem merge_concatenates_in_listing_order :
  forall {C : Collaborators} (self : STACDownloader) (w : world) (es : dir),
    FS.lookup (disk w) (out_dir self) = Some (Dir es) ->
    NoDup (map fst es) ->
    (forall name v, In (name, v) es -> is_batch_file name = true ->
                    is_artifact v = true) ->
    FS.is_dir (FS.find es default_file_name) = false ->
    let artifacts := filter (fun e => is_batch_file (fst e)) es in
    let merged := flat_map (fun e => items_of (snd e)) artifacts in
    exists d',
      merge_item_collections self w = (with_disk w d', Val tt)
      /\ FS.lookup d' (out_dir self ++ [default_file_name])
         = Some (File (json_size merged) (Some merged))
      /\ (forall name, is_batch_file name = true ->
                       FS.lookup d' (out_dir self ++ [name]) = None)
      /\ (forall batches : list (nat * list Item),
            Permutation (map (fun e => (fst e, items_of (snd e))) artifacts)
                        (map (fun b => (batch_file_name (fst b), snd b)) batches) ->
            Permutation merged (concat (map snd batches)))
      /\ (forall batches : list (nat * list Item),
            map (fun e => (fst e, items_of (snd e))) artifacts
              = map (fun b => (batch_file_name (fst b), snd b)) batches ->
            merged = concat (map snd batches)).
Proof.
  intros C self w es Hl Hnd Hart Hdef artifacts merged.
  eexists. split; [apply (merge_item_collections_spec self w Hl Hnd Hart Hdef)|].
  fold artifacts. fold merged.
  set (kept := filter (fun e => negb (is_batch_file (fst e))) es).
  assert (Hm : merged = concat (map snd (map (fun e => (fst e, items_of (snd e)))
                                             artifacts))).
  { unfold merged. now rewrite map_map, flat_map_concat_map. }
  split; [|split; [|split]].
  - erewrite FSFacts.lookup_graft_below by exact Hl. simpl.
    now rewrite FSFacts.find_put_same.
  - intros name Hb. erewrite FSFacts.lookup_graft_below by exact Hl. simpl.
    rewrite FSFacts.find_put_other.
    + unfold kept.
      rewrite (FSFacts.find_filter (fun k => negb (is_batch_file k))).
      now rewrite Hb.
    + intros E. subst name. discriminate.
  - intros batches Hp. rewrite Hm.
    apply Permutation_concat.
    apply (Permutation_map snd) in Hp. rewrite Hp.
    now rewrite map_map.
  - intros batches He. rewrite Hm, He. now rewrite map_map.
Qed.

Lemma merge_concatenates_in_listing_order_witness :
  exists d',
    @merge_item_collections steady (default_downloader (Sim.items 3) ["data"])
                            two_batches
      = (with_disk two_batches d', Val tt)
    /\ FS.lookup d' ["data"; "item-collection.json"]
       = Some (File 1600 (Some (Sim.items 3)))
    /\ FS.lookup d' ["data"; "item-collection-batch-0.json"] = None
    /\ FS.lookup d' ["data"; "item-collection-batch-2.json"] = None.
Proof.
  pose (es := [("item-collection-batch-0.json",
                File 1088 (Some [Sim.item 0; Sim.item 1]));
               ("S2_0", Dir [("B04.tif", File 2048 None)]);
               ("S2_1", Dir [("B04.tif", File 2048 None)]);
               ("item-collection-batch-2.json", File 576 (Some [Sim.item 2]));
               ("S2_2", Dir [("B04.tif", File 2048 None)])] : dir).
  assert (Hl : FS.lookup (disk two_batches)
                         (out_dir (default_downloader (Sim.items 3) ["data"]))
               = Some (Dir es)) by reflexivity.
  assert (Hnd : NoDup (map fst es)).
  { simpl. repeat constructor; simpl; intuition discriminate. }
  assert (Hart : forall name v, In (name, v) es -> is_batch_file name = true ->
                                is_artifact v = true).
  { intros name v Hin Hb. simpl in Hin.
    repeat (destruct Hin as [Hin|Hin];
            [inversion Hin; subst; first [reflexivity | discriminate]|]).
    contradiction. }
  assert (Hdef : FS.is_dir (FS.find es default_file_name) = false) by reflexivity.
  destruct (@merge_concatenates_in_listing_order
              steady (default_downloader (Sim.items 3) ["data"])
              two_batches es Hl Hnd Hart Hdef)
    as (d' & E & Hfile & Hnone & _).
  exists d'. split; [exact E|]. split; [exact Hfile|].
  split; apply Hnone; reflexivity.
Defined.

(** C4 as stated fails where the directory is listed by name: the artifact
    of the batch at offset 10 is listed, and merged, before the one at
    offset 5, so the merged collection is not the concatenation in batch
    order. *)
Lemma merge_follows_the_listing_not_the_batches :
  let r := @_async_download by_name 1 batched15 Sim.world0 in
  snd r = Val tt
  /\ option_map (fun n => map id (items_of n))
                (FS.lookup (disk (fst r)) ["data"; "item-collection.json"])
     = Some ["S2_0"; "S2_1"; "S2_2"; "S2_3"; "S2_4";
             "S2_10"; "S2_11"; "S2_12"; "S2_13"; "S2_14";
             "S2_5"; "S2_6"; "S2_7"; "S2_8"; "S2_9"]
  /\ option_map items_of
                (FS.lookup (disk (fst r)) ["data"; "item-collection.json"])
     <> Some (concat (batches_of (Sim.items 15) 5)).
Proof.
  vm_compute. repeat split. discriminate.
Qed.

(* ------------------------------------------------------------------ *)
(** ** Removing the empty directories *)

Lemma prune_dir :
  forall es,
    prune (Dir es)
      = Dir (map (fun e => (fst e, prune (snd e)))
                 (filter (fun e => negb (FS.is_empty_dir (snd e))) es)).
Proof.
  intros es. simpl. f_equal.
  induction es as [|e es IH]; simpl; [reflexivity|].
  destruct (FS.is_empty_dir (snd e)); simpl; now rewrite IH.
Qed.

Lemma wf_children :
  forall es, wf (Dir es) ->
             NoDup (map fst es) /\ Forall (fun e => wf (snd e)) es.
Proof.
  intros es [Hnd Hc]. split; [exact Hnd|].
  clear Hnd. induction es as [|e es IH]; simpl in *; constructor; tauto.
Qed.

Lemma rm_all_app :
  forall a b d,
    rm_all d (a ++ b)
      = match rm_all d a with
        | Some d1 => rm_all d1 b
        | None => None
        end.
Proof.
  induction a as [|p a IH]; intros b d; simpl; [reflexivity|].
  destruct (FS.rmtree d p); [apply IH | reflexivity].
Qed.

Lemma map_flat_map :
  forall A B D (f : B -> D) (g : A -> list B) l,
    map f (flat_map g l) = flat_map (fun x => map f (g x)) l.
Proof.
  intros. induction l as [|x l IH]; simpl; [reflexivity|].
  now rewrite map_app, IH.
Qed.

Section Walk.

Context {C : Collaborators}.

Lemma walk_empty_prefix :
  forall n p, walk_empty p n = map (app p) (walk_empty [] n).
Proof.
  induction n as [s b|es IH] using node_induction; intros p;
    [reflexivity|].
  simpl walk_empty. rewrite !map_app. f_equal; [|f_equal].
  - destruct es; simpl; [now rewrite app_nil_r | reflexivity].
  - rewrite map_map. reflexivity.
  - rewrite map_flat_map. apply flat_map_ext_in. intros e He.
    destruct (FS.is_nonempty_dir (snd e)); [|reflexivity].
    rewrite Forall_forall in IH.
    rewrite (IH e He (p ++ [fst e])), (IH e He [fst e]).
    rewrite map_map. apply map_ext. intros q. simpl.
    now rewrite <- app_assoc.
Qed.

Lemma walk_empty_dir :
  forall p es,
    walk_empty p (Dir es)
      = (if FS.is_empty_dir (Dir es) then [p] else [])
        ++ map (fun e => p ++ [fst e])
               (filter (fun e => FS.is_empty_dir (snd e)) es)
        ++ flat_map (fun e => if FS.is_nonempty_dir (snd e)
                              then walk_empty (p ++ [fst e]) (snd e)
                              else []) es.
Proof. reflexivity. Qed.

Lemma walk_empty_nonempty_paths :
  forall n q, FS.is_empty_dir n = false -> In q (walk_empty [] n) -> q <> [].
Proof.
  intros n q Hne Hin. destruct n as [s b|es]; [contradiction|].
  rewrite walk_empty_dir, Hne in Hin. cbn [app] in Hin.
  apply in_app_or in Hin. destruct Hin as [Hin|Hin].
  - apply in_map_iff in Hin. destruct Hin as (e & E & _). now subst.
  - apply in_flat_map in Hin. destruct Hin as (e & _ & Hin).
    destruct (FS.is_nonempty_dir (snd e)); [|contradiction].
    rewrite walk_empty_prefix in Hin. apply in_map_iff in Hin.
    destruct Hin as (q' & E & _). subst. discriminate.
Qed.

End Walk.

Module Prune.

Import FS FSFacts.

Lemma modify_under :
  forall g p d n q,
    lookup d p = Some n -> q <> [] ->
    modify g d (p ++ q) = option_map (graft d p) (modify g n q).
Proof.
  intros g. induction p as [|a p IH]; intros d n q Hl Hq; simpl in *.
  - inversion Hl. subst. now destruct (modify g n q).
  - destruct d as [s b|es0]; [discriminate|].
    destruct (find es0 a) as [c|] eqn:E; [|discriminate].
    destruct (p ++ q) eqn:Ep; [destruct p; [simpl in Ep; congruence | discriminate]|].
    rewrite <- Ep. rewrite (IH c n q Hl Hq).
    now destruct (modify g n q).
Qed.

Lemma rm_all_under :
  forall p qs d n,
    lookup d p = Some n ->
    (forall q, In q qs -> q <> []) ->
    rm_all d (map (app p) qs) = option_map (graft d p) (rm_all n qs).
Proof.
  intros p. induction qs as [|q qs IH]; intros d n Hl Hq; simpl.
  - f_equal. symmetry. now apply graft_same.
  - unfold rmtree at 1.
    erewrite modify_under; [| exact Hl | apply Hq; now left].
    fold (rmtree n q). destruct (rmtree n q) as [n1|]; [|reflexivity].
    simpl. rewrite (IH (graft d p n1) n1).
    + destruct (rm_all n1 qs); [|reflexivity]. simpl.
      f_equal. eapply graft_graft. exact Hl.
    + eapply lookup_graft. exact Hl.
    + intros q' Hq'. apply Hq. now right.
Qed.

End Prune.

Unset Implicit Arguments.

Section Cleanup.

Context {C : Collaborators}.

Import FS FSFacts.

Lemma filter_names_id :
  forall k (l : dir),
    ~ In k (map fst l) ->
    filter (fun e => negb (String.eqb k (fst e))) l = l.
Proof.
  intros k. induction l as [|e l IH]; intros H; simpl in *; [reflexivity|].
  destruct (String.eqb k (fst e)) eqn:E.
  - apply String.eqb_eq in E. subst. tauto.
  - simpl. f_equal. apply IH. tauto.
Qed.

Lemma nodup_middle :
  forall (pre suf : dir) e,
    NoDup (map fst (pre ++ e :: suf)) ->
    ~ In (fst e) (map fst pre) /\ ~ In (fst e) (map fst suf)
    /\ NoDup (map fst (pre ++ suf)).
Proof.
  intros pre suf e H. rewrite map_app in H. simpl in H.
  pose proof (NoDup_remove_1 _ _ _ H) as H1.
  pose proof (NoDup_remove_2 _ _ _ H) as H2.
  rewrite map_app. rewrite in_app_iff in H2. tauto.
Qed.

Lemma remove_entry_middle :
  forall (pre suf : dir) e,
    NoDup (map fst (pre ++ e :: suf)) ->
    remove_entry (fst e) (pre ++ e :: suf) = pre ++ suf.
Proof.
  intros pre suf e H. apply nodup_middle in H. destruct H as (Hp & Hs & _).
  unfold remove_entry. rewrite filter_app. simpl.
  rewrite String.eqb_refl. simpl.
  now rewrite (filter_names_id _ _ Hp), (filter_names_id _ _ Hs).
Qed.

Lemma find_middle :
  forall (pre suf : dir) k v,
    ~ In k (map fst pre) -> find (pre ++ (k, v) :: suf) k = Some v.
Proof.
  induction pre as [|[k0 v0] pre IH]; intros suf k v H; simpl in *.
  - now rewrite String.eqb_refl.
  - destruct (String.eqb k k0) eqn:E.
    + apply String.eqb_eq in E. subst. tauto.
    + apply IH. tauto.
Qed.

Lemma put_entry_middle :
  forall (pre suf : dir) k v v',
    ~ In k (map fst pre) ->
    put_entry k v' (pre ++ (k, v) :: suf) = pre ++ (k, v') :: suf.
Proof.
  induction pre as [|[k0 v0] pre IH]; intros suf k v v' H; simpl in *.
  - now rewrite String.eqb_refl.
  - destruct (String.eqb k k0) eqn:E.
    + apply String.eqb_eq in E. subst. tauto.
    + f_equal. apply IH. tauto.
Qed.

Lemma nodup_names_filter :
  forall (f : string * node -> bool) (es : dir),
    NoDup (map fst es) -> NoDup (map fst (filter f es)).
Proof.
  intros f. induction es as [|e es IH]; intros H; simpl in *; [constructor|].
  inversion H as [|? ? Hn Hd]. subst.
  destruct (f e); simpl; [constructor|]; auto.
  intros Hin. apply Hn. apply in_map_iff in Hin.
  destruct Hin as (e' & E & Hin). apply filter_In in Hin.
  rewrite <- E. apply in_map. tauto.
Qed.

Lemma remove_empty_children :
  forall suf pre,
    NoDup (map fst (pre ++ suf)) ->
    rm_all (Dir (pre ++ suf))
           (map (fun e => [fst e]) (filter (fun e => is_empty_dir (snd e)) suf))
      = Some (Dir (pre ++ filter (fun e => negb (is_empty_dir (snd e))) suf)).
Proof.
  induction suf as [|e suf IH]; intros pre Hnd; simpl; [reflexivity|].
  destruct (is_empty_dir (snd e)) eqn:E; simpl.
  - destruct e as [k v]. simpl in E.
    destruct v as [s b|[|x l]]; try discriminate.
    pose proof (nodup_middle _ _ _ Hnd) as (Hp & _ & Hnd').
    unfold rmtree. simpl. simpl in Hp. rewrite (find_middle _ _ _ _ Hp). simpl.
    pose proof (remove_entry_middle pre suf (k, Dir []) Hnd) as Hrm.
    simpl in Hrm. rewrite Hrm.
    now apply IH.
  - replace (pre ++ e :: suf) with ((pre ++ [e]) ++ suf)
      by now rewrite <- app_assoc.
    replace (pre ++ e :: filter (fun e0 => negb (is_empty_dir (snd e0))) suf)
      with ((pre ++ [e]) ++ filter (fun e0 => negb (is_empty_dir (snd e0))) suf)
      by now rewrite <- app_assoc.
    apply IH. now rewrite <- app_assoc.
Qed.

Lemma prune_children :
  forall suf pre,
    NoDup (map fst (pre ++ suf)) ->
    Forall (fun e => is_empty_dir (snd e) = false) suf ->
    Forall (fun e => is_empty_dir (snd e) = false ->
                     rm_all (snd e) (walk_empty [] (snd e))
                       = Some (prune (snd e))) suf ->
    rm_all (Dir (pre ++ suf))
           (flat_map (fun e => if is_nonempty_dir (snd e)
                               then walk_empty [fst e] (snd e) else []) suf)
      = Some (Dir (pre ++ map (fun e => (fst e, prune (snd e))) suf)).
Proof.
  induction suf as [|e suf IH]; intros pre Hnd Hne Hch; simpl; [reflexivity|].
  inversion Hne as [|? ? Hne1 Hne2]. inversion Hch as [|? ? Hch1 Hch2]. subst.
  destruct e as [k c]. simpl in *.
  pose proof (nodup_middle _ _ _ Hnd) as (Hp & _ & _). simpl in Hp.
  assert (Hstep : forall c', 
             NoDup (map fst ((pre ++ [(k, c')]) ++ suf))).
  { intros c'. rewrite <- app_assoc. simpl.
    rewrite map_app in *. simpl in *. exact Hnd. }
  destruct c as [s b|[|x l]]; [| discriminate |].
  - simpl.
    replace (pre ++ (k, File s b) :: suf) with ((pre ++ [(k, File s b)]) ++ suf)
      by now rewrite <- app_assoc.
    rewrite (IH (pre ++ [(k, File s b)]) (Hstep _) Hne2 Hch2).
    now rewrite <- app_assoc.
  - cbn [is_nonempty_dir]. rewrite rm_all_app.
    rewrite walk_empty_prefix.
    erewrite Prune.rm_all_under.
    + rewrite (Hch1 Hne1). cbn [option_map graft].
      rewrite (find_middle _ _ _ _ Hp).
      rewrite (put_entry_middle _ _ _ _ _ Hp).
      replace (pre ++ (k, prune (Dir (x :: l))) :: suf)
        with ((pre ++ [(k, prune (Dir (x :: l)))]) ++ suf)
        by now rewrite <- app_assoc.
      rewrite (IH (pre ++ [(k, prune (Dir (x :: l)))]) (Hstep _) Hne2 Hch2).
      now rewrite <- !app_assoc.
    + simpl. now rewrite (find_middle _ _ _ _ Hp).
    + intros q Hq. eapply walk_empty_nonempty_paths; [|exact Hq]. reflexivity.
Qed.

Lemma flat_map_filter_nil :
  forall A B (f : A -> list B) (keep : A -> bool) l,
    (forall x, keep x = false -> f x = []) ->
    flat_map f (filter keep l) = flat_map f l.
Proof.
  intros A B f keep l H. induction l as [|x l IH]; simpl; [reflexivity|].
  destruct (keep x) eqn:E; simpl; rewrite IH; [reflexivity|].
  now rewrite (H x E).
Qed.

(** Removing, in the order of the walk, the empty directories found below
    a directory leaves the pruned tree. *)
Lemma rm_all_walk_empty :
  forall n,
    wf n -> is_empty_dir n = false ->
    rm_all n (walk_empty [] n) = Some (prune n).
Proof.
  induction n as [s b|es IH] using node_induction; intros Hwf Hne;
    [reflexivity|].
  apply wf_children in Hwf. destruct Hwf as [Hnd Hwfc].
  rewrite walk_empty_dir, Hne. cbn [app]. rewrite rm_all_app.
  pose proof (remove_empty_children es [] Hnd) as H1. cbn [app] in H1.
  rewrite H1. clear H1.
  set (keep := fun e : string * node => negb (is_empty_dir (snd e))).
  rewrite <- (flat_map_filter_nil _ _
                (fun e => if is_nonempty_dir (snd e)
                          then walk_empty [fst e] (snd e) else [])
                keep es).
  - pose proof (prune_children (filter keep es) []) as H2. cbn [app] in H2.
    rewrite H2.
    + now rewrite prune_dir.
    + simpl. now apply nodup_names_filter.
    + apply Forall_forall. intros e He. apply filter_In in He.
      unfold keep in He. destruct He as [_ He].
      now apply negb_true_iff in He.
    + apply Forall_forall. intros e He. apply filter_In in He.
      destruct He as [He _]. rewrite Forall_forall in IH, Hwfc.
      intros Hnee. apply IH; auto.
  - intros e He. unfold keep in He. apply negb_false_iff in He.
    destruct (snd e) as [s b|[|x l]]; try discriminate. reflexivity.
Qed.

End Cleanup.

Section Pruned.

Context {C : Collaborators}.

Import FS FSFacts.

Lemma find_prune :
  forall es k,
    NoDup (map fst es) ->
    find (map (fun e => (fst e, prune (snd e)))
              (filter (fun e => negb (is_empty_dir (snd e))) es)) k
      = match find es k with
        | Some v => if is_empty_dir v then None else Some (prune v)
        | None => None
        end.
Proof.
  induction es as [|[k0 v0] es IH]; intros k Hnd; simpl; [reflexivity|].
  inversion Hnd as [|? ? Hn Hd]. subst.
  destruct (String.eqb k k0) eqn:E.
  - apply String.eqb_eq in E. subst k0.
    destruct (is_empty_dir v0) eqn:Ev; simpl.
    + rewrite (IH k Hd).
      apply find_none_not_in in Hn. now rewrite Hn.
    + now rewrite String.eqb_refl.
  - destruct (is_empty_dir v0); simpl; [|rewrite E]; now apply IH.
Qed.

Lemma lookup_prune_removed :
  forall n,
    wf n -> is_empty_dir n = false ->
    forall q, In q (walk_empty [] n) -> lookup (prune n) q = None.
Proof.
  induction n as [s b|es IH] using node_induction; intros Hwf Hne q Hq;
    [contradiction|].
  apply wf_children in Hwf. destruct Hwf as [Hnd Hwfc].
  rewrite walk_empty_dir, Hne in Hq. cbn [app] in Hq.
  rewrite prune_dir.
  apply in_app_or in Hq. destruct Hq as [Hq|Hq].
  - apply in_map_iff in Hq. destruct Hq as ([k v] & E & Hin).
    apply filter_In in Hin. destruct Hin as [Hin Hv]. simpl in *. subst q.
    simpl. rewrite (find_prune es k Hnd).
    rewrite (find_in_nodup es k v Hnd Hin). now rewrite Hv.
  - apply in_flat_map in Hq. destruct Hq as ([k c] & Hin & Hq). simpl in Hq.
    destruct (is_nonempty_dir c) eqn:Ec; [|contradiction].
    rewrite walk_empty_prefix in Hq. apply in_map_iff in Hq.
    destruct Hq as (q' & E & Hq'). subst q. simpl.
    rewrite (find_prune es k Hnd).
    rewrite (find_in_nodup es k c Hnd Hin).
    assert (Hce : is_empty_dir c = false)
      by (destruct c as [s b|[|x l]]; try discriminate; reflexivity).
    rewrite Hce. rewrite Forall_forall in IH, Hwfc.
    exact (IH (k, c) Hin (Hwfc (k, c) Hin) Hce q' Hq').
Qed.

Lemma for_each_rmtree :
  forall ps w d',
    rm_all (disk w) ps = Some d' ->
    for_each ps (fun p => disk_op (fun d => rmtree d p)) w
      = (with_disk w d', Val tt).
Proof.
  induction ps as [|p ps IH]; intros w d' H; simpl in *.
  - inversion H. now rewrite with_disk_disk.
  - destruct (rmtree (disk w) p) as [d1|] eqn:E; [|discriminate].
    rewrite (bind_val _ _ w (disk_op_ok (fun d => rmtree d p) w E)).
    rewrite (IH (with_disk w d1) d' H). reflexivity.
Qed.

Lemma basename_under :
  forall p q, q <> [] -> basename (p ++ q) = basename q.
Proof.
  intros p q Hq. unfold basename.
  induction p as [|a p IH]; [reflexivity|].
  simpl. destruct (p ++ q) eqn:E; [|exact IH].
  destruct p; [simpl in E; congruence | discriminate].
Qed.

Lemma list_remove_none :
  forall x l, ~ In x l -> Py.list_remove x l = None.
Proof.
  intros x. induction l as [|y l IH]; intros H; simpl in *; [reflexivity|].
  destruct (String.eqb x y) eqn:E.
  - apply String.eqb_eq in E. subst. tauto.
  - rewrite IH by tauto. reflexivity.
Qed.

Lemma list_remove_spec :
  forall x l,
    In x l -> NoDup l ->
    exists l', Py.list_remove x l = Some l'
               /\ NoDup l'
               /\ forall y, In y l' <-> In y l /\ y <> x.
Proof.
  intros x. induction l as [|y l IH]; intros Hin Hnd; simpl in *; [tauto|].
  inversion Hnd as [|? ? Hn Hd]. subst.
  destruct (String.eqb x y) eqn:E.
  - apply String.eqb_eq in E. subst y. exists l.
    split; [reflexivity|]. split; [exact Hd|].
    intros z. split.
    + intros Hz. split; [now right|]. intros ->. contradiction.
    + intros [[->|Hz] Hne]; [congruence | exact Hz].
  - apply String.eqb_neq in E.
    destruct Hin as [->|Hin]; [congruence|].
    destruct (IH Hin Hd) as (l' & El & Hnd' & Hl').
    exists (y :: l'). rewrite El. split; [reflexivity|]. split.
    + constructor; [|exact Hnd']. rewrite Hl'. tauto.
    + intros z. simpl. rewrite Hl'. split.
      * intros [->|[Hz Hne]]; [split; [now left | congruence] | tauto].
      * intros [[->|Hz] Hne]; [now left | right; tauto].
Qed.

Lemma list_remove_incl :
  forall x l l', Py.list_remove x l = Some l' -> incl l' l.
Proof.
  intros x. induction l as [|y l IH]; intros l' H; simpl in *; [discriminate|].
  destruct (String.eqb x y).
  - inversion H. subst. intros z Hz. now right.
  - destruct (Py.list_remove x l) as [l0|]; [|discriminate].
    inversion H. subst. intros z [->|Hz]; [now left|].
    right. now apply (IH l0 eq_refl).
Qed.

Lemma remove_ids_missing :
  forall rm all,
    (exists x, In x rm /\ ~ In x all) -> remove_ids rm all = None.
Proof.
  induction rm as [|x0 rm IH]; intros all (x & Hin & Hno); simpl in *;
    [contradiction|].
  destruct (Py.list_remove x0 all) as [all'|] eqn:E; [|reflexivity].
  apply IH. destruct Hin as [->|Hin].
  - rewrite (list_remove_none x all Hno) in E. discriminate.
  - exists x. split; [exact Hin|]. intros H. apply Hno.
    exact (list_remove_incl _ _ _ E x H).
Qed.

Lemma remove_ids_spec :
  forall rm all,
    NoDup all -> NoDup rm -> incl rm all ->
    exists rest, remove_ids rm all = Some rest
                 /\ forall y, In y rest <-> In y all /\ ~ In y rm.
Proof.
  induction rm as [|x rm IH]; intros all Hall Hrm Hincl; simpl.
  - exists all. split; [reflexivity|]. tauto.
  - inversion Hrm as [|? ? Hn Hd]. subst.
    destruct (list_remove_spec x all (Hincl x (or_introl eq_refl)) Hall)
      as (all' & E & Hnd' & Hall').
    rewrite E.
    destruct (IH all' Hnd' Hd) as (rest & Er & Hrest).
    + intros y Hy. apply Hall'. split; [apply Hincl; now right|].
      intros ->. contradiction.
    + exists rest. split; [exact Er|]. intros y.
      rewrite Hrest, Hall'. split.
      * intros [[H1 H2] H3]. split; [exact H1|]. intros [->|H4]; tauto.
      * intros [H1 H2]. split; [split; [exact H1|]|]; intros H; apply H2;
          [left; now symmetry | now right].
Qed.

(** What [_remove_empty_items] does to a well-formed, non-empty output
    directory that holds its item collection. *)
Lemma remove_empty_items_spec :
  forall out w es s coll,
    lookup (disk w) out = Some (Dir es) ->
    wf (Dir es) ->
    find es default_file_name = Some (File s (Some coll)) ->
    let rm_items := map basename (walk_empty [] (Dir es)) in
    _remove_empty_items out w
      = match remove_ids rm_items (map id coll) with
        | None => (with_disk w (graft (disk w) out (Dir (kept_entries es))),
                   Raise ValueError)
        | Some all_items =>
            let keep := filter (fun x => Py.mem (id x) all_items) coll in
            (with_disk w
               (graft (disk w) out
                  (Dir (put_entry default_file_name
                          (File (json_size keep) (Some keep))
                          (kept_entries es)))),
             Val tt)
        end.
Proof.
  intros out w es s coll Hl Hwf Hfile rm_items.
  assert (Hne : is_empty_dir (Dir es) = false)
    by (destruct es; [discriminate | reflexivity]).
  assert (Hfk : find (kept_entries es) default_file_name
                = Some (File s (Some coll))).
  { unfold kept_entries.
    rewrite (find_prune es default_file_name (proj1 Hwf)).
    now rewrite Hfile. }
  assert (Hrm : rm_all (disk w) (walk_empty out (Dir es))
                = Some (graft (disk w) out (Dir (kept_entries es)))).
  { rewrite walk_empty_prefix.
    rewrite (Prune.rm_all_under out _ (disk w) Hl).
    - rewrite (rm_all_walk_empty (Dir es) Hwf Hne). now rewrite prune_dir.
    - intros q Hq. eapply walk_empty_nonempty_paths; eassumption. }
  assert (Hbase : map basename (walk_empty out (Dir es)) = rm_items).
  { unfold rm_items. rewrite walk_empty_prefix, map_map.
    apply map_ext_in. intros q Hq. apply basename_under.
    eapply walk_empty_nonempty_paths; eassumption. }
  remember (kept_entries es) as kept eqn:Hkept.
  unfold _remove_empty_items.
  unfold bind at 1. unfold get_disk at 1.
  unfold _find_empty_subdirs. rewrite Hl.
  rewrite (bind_val _ _ w (for_each_rmtree _ w _ Hrm)).
  set (w1 := with_disk w (graft (disk w) out (Dir kept))).
  assert (Hl1 : lookup (disk w1) out = Some (Dir kept))
    by exact (lookup_graft out (disk w) (Dir kept) Hl).
  assert (Hfile1 : lookup (disk w1) (out ++ [default_file_name])
                   = Some (File s (Some coll))).
  { rewrite lookup_app, Hl1. simpl. now rewrite Hfk. }
  rewrite (bind_val _ _ w1 (from_file_ok _ w1 Hfile1)).
  rewrite Hbase.
  destruct (remove_ids rm_items (map id coll)) as [all_items|];
    [|reflexivity].
  cbv zeta. unfold save_object.
  erewrite disk_op_ok.
  - reflexivity.
  - unfold write. rewrite (modify_at _ out (disk w1) _ Hl1). cbv beta.
    rewrite Hfk. simpl option_map. f_equal.
    exact (graft_graft out (disk w) (Dir kept) _ Hl).
Qed.

End Pruned.

Section CleanupClaims.

Context {C : Collaborators}.

Import FS FSFacts.

Lemma walk_empty_sound :
  forall n,
    wf n -> is_empty_dir n = false ->
    forall q, In q (walk_empty [] n) -> lookup n q = Some (Dir []).
Proof.
  induction n as [s b|es IH] using node_induction; intros Hwf Hne q Hq;
    [contradiction|].
  apply wf_children in Hwf. destruct Hwf as [Hnd Hwfc].
  rewrite walk_empty_dir, Hne in Hq. cbn [app] in Hq.
  apply in_app_or in Hq. destruct Hq as [Hq|Hq].
  - apply in_map_iff in Hq. destruct Hq as ([k v] & E & Hin).
    apply filter_In in Hin. destruct Hin as [Hin Hv]. simpl in *. subst q.
    simpl. rewrite (find_in_nodup es k v Hnd Hin).
    destruct v as [s b|[|x l]]; try discriminate. reflexivity.
  - apply in_flat_map in Hq. destruct Hq as ([k c] & Hin & Hq). simpl in Hq.
    destruct (is_nonempty_dir c) eqn:Ec; [|contradiction].
    rewrite walk_empty_prefix in Hq. apply in_map_iff in Hq.
    destruct Hq as (q' & E & Hq'). subst q. simpl.
    rewrite (find_in_nodup es k c Hnd Hin).
    assert (Hce : is_empty_dir c = false)
      by (destruct c as [s b|[|x l]]; try discriminate; reflexivity).
    rewrite Forall_forall in IH, Hwfc.
    exact (IH (k, c) Hin (Hwfc (k, c) Hin) Hce q' Hq').
Qed.

Lemma files_only :
  forall (f : string * node -> list path) es,
    Forall (fun e => is_file (Some (snd e)) = true) es ->
    filter (fun e => is_empty_dir (snd e)) es = []
    /\ flat_map (fun e => if is_nonempty_dir (snd e) then f e else []) es = []
    /\ kept_entries es = es.
Proof.
  intros f es H. unfold kept_entries.
  induction H as [|[k v] es Hv _ (IH1 & IH2 & IH3)]; [auto|].
  simpl in *. destruct v as [s b|l]; [|discriminate]. simpl.
  rewrite IH1, IH2, IH3. auto.
Qed.

Lemma walk_empty_flat :
  forall c p, flat c -> is_empty_dir c = false -> walk_empty p c = [].
Proof.
  intros c p Hf Hne. destruct c as [s b|es]; [reflexivity|].
  rewrite walk_empty_dir, Hne. simpl in Hf.
  destruct (files_only (fun e => walk_empty (p ++ [fst e]) (snd e)) es Hf)
    as (H1 & H2 & _).
  now rewrite H1, H2.
Qed.

Lemma prune_flat : forall c, flat c -> prune c = c.
Proof.
  intros c Hf. destruct c as [s b|es]; [reflexivity|].
  rewrite prune_dir. simpl in Hf.
  destruct (files_only (fun _ => []) es Hf) as (_ & _ & H3).
  unfold kept_entries in H3. now rewrite H3.
Qed.

End CleanupClaims.

(** C10. The cleanup takes the basename of every empty subdirectory for the
    id of an item of the directory's collection.  When the output directory
    holds its [item-collection.json] and some empty subdirectory below it
    has a basename that is no listed id, [_remove_empty_items] raises
    [ValueError] (the [list.remove] of a missing id), and it does so after
    the deletion: every empty subdirectory that was found is gone from the
    disk, while the item collection is the file it was, not rewritten. *)
Theorem cleanup_raises_after_deleting :
  forall {C : Collaborators} (out : path) (w : world) (es : dir)
         (s : N) (coll : list Item),
    FS.lookup (disk w) out = Some (Dir es) ->
    wf (Dir es) ->
    FS.find es default_file_name = Some (File s (Some coll)) ->
    (exists p, In p (_find_empty_subdirs (disk w) out)
               /\ ~ In (FS.basename p) (map id coll)) ->
    exists d',
      _remove_empty_items out w = (with_disk w d', Raise ValueError)
      /\ (forall p, In p (_find_empty_subdirs (disk w) out) ->
                    FS.lookup (disk w) p = Some (Dir [])
                    /\ FS.lookup d' p = None)
      /\ FS.lookup (disk w) (out ++ [default_file_name])
         = Some (File s (Some coll))
      /\ FS.lookup d' (out ++ [default_file_name]) = Some (File s (Some coll)).
Proof.
  intros C out w es s coll Hl Hwf Hfile (p & Hp & Hno).
  assert (Hne : FS.is_empty_dir (Dir es) = false)
    by (destruct es; [discriminate | reflexivity]).
  unfold _find_empty_subdirs in *. rewrite Hl in *.
  rewrite walk_empty_prefix in Hp. apply in_map_iff in Hp.
  destruct Hp as (q & E & Hq). subst p.
  assert (Hqne : q <> []) by (eapply walk_empty_nonempty_paths; eassumption).
  rewrite (basename_under out q Hqne) in Hno.
  exists (graft (disk w) out (Dir (kept_entries es))).
  rewrite (remove_empty_items_spec out w es s coll Hl Hwf Hfile). cbv zeta.
  rewrite remove_ids_missing
    by (exists (FS.basename q); split; [now apply in_map | exact Hno]).
  split; [reflexivity|]. split; [|split].
  - intros p Hp. rewrite walk_empty_prefix in Hp. apply in_map_iff in Hp.
    destruct Hp as (q' & E & Hq'). subst p.
    rewrite FSFacts.lookup_app, Hl.
    rewrite (FSFacts.lookup_graft_below out q' (disk w)
                                        (Dir (kept_entries es)) Hl).
    split; [exact (walk_empty_sound (Dir es) Hwf Hne q' Hq')|].
    pose proof (lookup_prune_removed (Dir es) Hwf Hne q' Hq') as H.
    now rewrite prune_dir in H.
  - rewrite FSFacts.lookup_app, Hl. simpl. now rewrite Hfile.
  - rewrite (FSFacts.lookup_graft_below out [default_file_name] (disk w)
                                        (Dir (kept_entries es)) Hl).
    simpl. unfold kept_entries.
    rewrite (find_prune es default_file_name (proj1 Hwf)).
    now rewrite Hfile.
Qed.

Lemma concat_map_nil :
  forall A B (l : list A), concat (map (fun _ => @nil B) l) = [].
Proof. intros A B l. induction l; simpl; auto. Qed.

Section Layout.

Context {C : Collaborators}.

Import FS FSFacts.

Lemma layout_nonempty :
  forall es s coll,
    find es default_file_name = Some (File s (Some coll)) ->
    is_empty_dir (Dir es) = false.
Proof. intros es s coll H. destruct es; [discriminate | reflexivity]. Qed.

Lemma layout_walk :
  forall es s coll,
    find es default_file_name = Some (File s (Some coll)) ->
    item_layout es coll ->
    walk_empty [] (Dir es)
      = map (fun e => [fst e]) (filter (fun e => is_empty_dir (snd e)) es).
Proof.
  intros es s coll Hfile (Hwf & _ & _ & Hdirs).
  rewrite walk_empty_dir, (layout_nonempty es s coll Hfile). cbn [app].
  rewrite <- (app_nil_r (map _ (filter _ es))) at 2. f_equal.
  rewrite flat_map_concat_map.
  replace (map _ es) with (map (fun _ : string * node => @nil path) es).
  - apply concat_map_nil.
  - apply map_ext_in. intros [k c] He. simpl.
    destruct (is_nonempty_dir c) eqn:Ec; [|reflexivity].
    destruct c as [s0 b|sub]; [discriminate|].
    symmetry. apply walk_empty_flat.
    + exact (proj2 (Hdirs k sub He)).
    + destruct sub; [discriminate | reflexivity].
Qed.

Lemma layout_item_dir :
  forall es s coll,
    find es default_file_name = Some (File s (Some coll)) ->
    item_layout es coll ->
    forall x, In x coll ->
      exists sub, find es (id x) = Some (Dir sub)
                  /\ flat (Dir sub)
                  /\ id x <> default_file_name.
Proof.
  intros es s coll Hfile (_ & _ & Hitems & Hdirs) x Hx.
  specialize (Hitems x Hx).
  assert (Hneq : id x <> default_file_name).
  { intros Heq. rewrite Heq, Hfile in Hitems. discriminate. }
  destruct (find es (id x)) as [[s0 b|sub]|] eqn:E; try discriminate.
  exists sub. split; [reflexivity|]. split; [|exact Hneq].
  apply find_some_in in E. exact (proj2 (Hdirs (id x) sub E)).
Qed.

Lemma layout_removed_iff :
  forall es k,
    NoDup (map fst es) ->
    (In k (map fst (filter (fun e => is_empty_dir (snd e)) es))
     <-> find es k = Some (Dir [])).
Proof.
  intros es k Hnd. split.
  - intros Hin. apply in_map_iff in Hin. destruct Hin as ([k' v] & E & Hin).
    apply filter_In in Hin. destruct Hin as [Hin Hv]. simpl in *. subst k'.
    rewrite (find_in_nodup es k v Hnd Hin).
    destruct v as [s0 b|[|y l]]; try discriminate. reflexivity.
  - intros Hf. apply find_some_in in Hf.
    apply in_map_iff. exists (k, Dir []). split; [reflexivity|].
    apply filter_In. split; [exact Hf | reflexivity].
Qed.

Lemma layout_remove_ids :
  forall es s coll,
    find es default_file_name = Some (File s (Some coll)) ->
    item_layout es coll ->
    exists rest,
      remove_ids (map basename (walk_empty [] (Dir es))) (map id coll)
        = Some rest
      /\ filter (fun x => Py.mem (id x) rest) coll = with_assets es coll.
Proof.
  intros es s coll Hfile Hlay.
  rewrite (layout_walk es s coll Hfile Hlay), map_map.
  change (map (fun x : string * node => basename [fst x]))
    with (map (fun x : string * node => fst x)).
  pose proof Hlay as (Hwf & Hids & Hitems & Hdirs).
  pose proof (proj1 Hwf) as Hnd.
  destruct (remove_ids_spec
              (map fst (filter (fun e => is_empty_dir (snd e)) es))
              (map id coll) Hids)
    as (rest & E & Hrest).
  - now apply nodup_names_filter.
  - intros k Hk. apply in_map_iff in Hk. destruct Hk as ([k' v] & Ek & Hin).
    apply filter_In in Hin. destruct Hin as [Hin Hv]. simpl in *. subst k'.
    destruct v as [s0 b|[|y l]]; try discriminate.
    exact (proj1 (Hdirs k [] Hin)).
  - exists rest. split; [exact E|].
    unfold with_assets. apply filter_ext_in. intros x Hx.
    destruct (layout_item_dir es s coll Hfile Hlay x Hx) as (sub & Hsub & _ & _).
    rewrite Hsub.
    apply eq_true_iff_eq. rewrite mem_in, Hrest.
    rewrite (layout_removed_iff es (id x) Hnd), Hsub.
    split.
    + intros [_ Hn]. destruct sub; [congruence | reflexivity].
    + intros Hne. split; [now apply in_map|].
      intros Heq. inversion Heq. subst. discriminate.
Qed.

End Layout.

(** C6, amended. After the cleanup pass over a directory in the output
    layout (its item collection lists items of pairwise distinct ids, every
    listed item has a directory of its own that holds files only, and every
    directory is a listed item's), for every item of the collection: its
    directory held zero files if and only if the item is absent from the
    rewritten item collection and its directory is gone from the disk; and
    the rewritten collection lists exactly the items whose directory holds a
    file, in their order, each directory left as it was. *)
Theorem cleanup_keeps_exactly_the_items_with_assets :
  forall {C : Collaborators} (out : path) (w : world) (es : dir)
         (s : N) (coll : list Item),
    FS.lookup (disk w) out = Some (Dir es) ->
    FS.find es default_file_name = Some (File s (Some coll)) ->
    item_layout es coll ->
    let kept := with_assets es coll in
    exists d',
      _remove_empty_items out w = (with_disk w d', Val tt)
      /\ FS.lookup d' (out ++ [default_file_name])
         = Some (File (json_size kept) (Some kept))
      /\ forall x, In x coll ->
           (FS.lookup (disk w) (out ++ [id x]) = Some (Dir [])
            <-> (~ In x kept /\ FS.lookup d' (out ++ [id x]) = None))
           /\ (In x kept
               <-> exists files, files <> []
                                 /\ FS.lookup d' (out ++ [id x]) = Some (Dir files))
           /\ (In x kept ->
               FS.lookup d' (out ++ [id x]) = FS.lookup (disk w) (out ++ [id x])).
Proof.
  intros C out w es s coll Hl Hfile Hlay kept.
  destruct (layout_remove_ids es s coll Hfile Hlay) as (rest & Hrm & Hkeep).
  eexists. split.
  - rewrite (remove_empty_items_spec out w es s coll Hl (proj1 Hlay) Hfile).
    cbv zeta. rewrite Hrm, Hkeep. reflexivity.
  - fold kept. split.
    + rewrite (FSFacts.lookup_graft_below out [default_file_name] (disk w) _ Hl).
      simpl. now rewrite FSFacts.find_put_same.
    + intros x Hx.
      destruct (layout_item_dir es s coll Hfile Hlay x Hx)
        as (sub & Hsub & Hflat & Hneq).
      assert (Hbefore : FS.lookup (disk w) (out ++ [id x]) = Some (Dir sub)).
      { rewrite FSFacts.lookup_app, Hl. simpl. now rewrite Hsub. }
      assert (Hafter : FS.lookup
                         (graft (disk w) out
                            (Dir (FS.put_entry default_file_name
                                    (File (json_size kept) (Some kept))
                                    (kept_entries es))))
                         (out ++ [id x])
                       = match sub with [] => None | _ => Some (Dir sub) end).
      { rewrite (FSFacts.lookup_graft_below out [id x] (disk w) _ Hl).
        simpl. rewrite FSFacts.find_put_other by congruence.
        unfold kept_entries.
        rewrite (find_prune es (id x) (proj1 (proj1 Hlay))), Hsub.
        destruct sub as [|e sub]; [reflexivity|].
        simpl FS.is_empty_dir. cbv iota.
        now rewrite (prune_flat (Dir (e :: sub)) Hflat). }
      assert (Hin : In x kept <-> sub <> []).
      { unfold kept, with_assets. rewrite filter_In, Hsub.
        destruct sub; simpl; split.
        - intros [_ H]. discriminate.
        - congruence.
        - discriminate.
        - intros _. split; [exact Hx | reflexivity]. }
      rewrite Hbefore, Hafter. split; [|split].
      * rewrite Hin. destruct sub; split.
        -- intros _. split; [tauto | reflexivity].
        -- reflexivity.
        -- discriminate.
        -- intros [H _]. exfalso. apply H. discriminate.
      * rewrite Hin. destruct sub as [|e sub]; split.
        -- tauto.
        -- intros (files & _ & H). discriminate.
        -- intros _. exists (e :: sub). split; [discriminate | reflexivity].
        -- discriminate.
      * rewrite Hin. destruct sub; [tauto | reflexivity].
Qed.

(* ------------------------------------------------------------------ *)
(** ** The cleanup on concrete directories *)

Lemma one_empty_item_layout : item_layout one_empty_item (Sim.items 2).
Proof.
  split; [|split; [|split]].
  - simpl. repeat split; repeat constructor; simpl; intuition discriminate.
  - simpl. repeat constructor; simpl; intuition discriminate.
  - intros x [<-|[<-|[]]]; reflexivity.
  - intros k sub [H|[H|[H|[]]]]; inversion H; subst; split; simpl; auto;
      repeat constructor.
Qed.

Lemma cleanup_keeps_exactly_the_items_with_assets_witness :
  exists d',
    @_remove_empty_items steady ["data"] (world_of one_empty_item)
      = (with_disk (world_of one_empty_item) d', Val tt)
    /\ FS.lookup d' ["data"; "item-collection.json"]
       = Some (File 576 (Some [Sim.item 0]))
    /\ FS.lookup d' ["data"; "S2_1"] = None
    /\ FS.lookup d' ["data"; "S2_0"] = Some (Dir [("B04.tif", File 2048 None)]).
Proof.
  destruct (@cleanup_keeps_exactly_the_items_with_assets
              steady ["data"] (world_of one_empty_item) one_empty_item 1088%N
              (Sim.items 2) eq_refl eq_refl one_empty_item_layout)
    as (d' & E & Hfile & Hitems).
  exists d'. split; [exact E|]. split; [exact Hfile|]. split.
  - destruct (Hitems (Sim.item 1) (or_intror (or_introl eq_refl)))
      as (H1 & _ & _).
    exact (proj2 (proj1 H1 eq_refl)).
  - destruct (Hitems (Sim.item 0) (or_introl eq_refl)) as (_ & _ & H3).
    exact (H3 (or_introl eq_refl)).
Defined.

(** C6 as stated fails outside that layout, on two cleanup passes.  When two
    listed items have the same id and their directory holds no file, the
    directory is removed but [list.remove] drops one occurrence of the id
    only, so both items stay listed.  When the preview fetches its sample of
    10 in two batches of 5, both batches are written under the one default
    name, and after the cleanup the item collection lists the 5 items of the
    last batch although the directories of all 10 hold a file. *)
Lemma cleanup_misses_outside_the_layout :
  (let r := @_remove_empty_items steady ["data"] (world_of one_id_twice) in
   snd r = Val tt
   /\ FS.lookup (disk (world_of one_id_twice)) ["data"; "S2_0"] = Some (Dir [])
   /\ FS.lookup (disk (fst r)) ["data"; "S2_0"] = None
   /\ option_map items_of
                 (FS.lookup (disk (fst r)) ["data"; "item-collection.json"])
      = Some [Sim.item 0; Sim.item 0])
  /\ (let r := bind (@download_batches steady 1 (Some 5%Z) (Sim.items 10)
                                       ["tmp"; "preview"]
                                       (fun _ => default_file_name))
                    (fun _ => @_remove_empty_items steady ["tmp"; "preview"])
                    before_preview in
      snd r = Val tt
      /\ option_map (fun n => map id (items_of n))
                    (FS.lookup (disk (fst r))
                               ["tmp"; "preview"; "item-collection.json"])
         = Some ["S2_5"; "S2_6"; "S2_7"; "S2_8"; "S2_9"]
      /\ FS.lookup (disk (fst r)) ["tmp"; "preview"; "S2_0"]
         = Some (Dir [("B04.tif", File 2048 None)])
      /\ option_map (@List.length string)
                    (FS.listdir (disk (fst r)) ["tmp"; "preview"])
         = Some 11%nat).
Proof.
  vm_compute. repeat split.
Qed.

Lemma cleanup_raises_after_deleting_witness :
  exists d',
    @_remove_empty_items steady ["data"] (world_of stale_directory)
      = (with_disk (world_of stale_directory) d', Raise ValueError)
    /\ FS.lookup (disk (world_of stale_directory)) ["data"; "stale"]
       = Some (Dir [])
    /\ FS.lookup d' ["data"; "stale"] = None
    /\ FS.lookup d' ["data"; "item-collection.json"]
       = Some (File 576 (Some (Sim.items 1))).
Proof.
  assert (Hwf : wf (Dir stale_directory)).
  { simpl. repeat split; repeat constructor; simpl; intuition discriminate. }
  assert (Hbad : exists p,
             In p (_find_empty_subdirs (disk (world_of stale_directory))
                                       ["data"])
             /\ ~ In (FS.basename p) (map id (Sim.items 1))).
  { exists ["data"; "stale"]. split; [now left|].
    simpl. intuition discriminate. }
  destruct (@cleanup_raises_after_deleting
              steady ["data"] (world_of stale_directory) stale_directory 576%N
              (Sim.items 1) eq_refl Hwf eq_refl Hbad)
    as (d' & E & Hgone & _ & Hfile).
  exists d'. split; [exact E|].
  destruct (Hgone ["data"; "stale"] (or_introl eq_refl)) as [H1 H2].
  split; [exact H1|]. split; [exact H2 | exact Hfile].
Defined.

(* ------------------------------------------------------------------ *)
(** ** The size estimate *)

Module EstimateFacts.

Import Estimate.
Local Open Scope R_scope.

Lemma total_squares_nonneg :
  forall (mu : R) (l : list R), 0 <= total (map (fun x => (x - mu) ^ 2) l).
Proof.
  intros mu. induction l as [|x l IH]; [simpl; lra|].
  change (0 <= (x - mu) ^ 2 + total (map (fun y => (y - mu) ^ 2) l)).
  apply Rplus_le_le_0_compat; [apply pow2_ge_0 | exact IH].
Qed.

Lemma variance_nonneg :
  forall l : list R, l <> [] -> 0 <= mean (map (fun x => (x - mean l) ^ 2) l).
Proof.
  intros l Hl. unfold mean at 1. rewrite length_map.
  apply Rmult_le_pos; [apply total_squares_nonneg|].
  left. apply Rinv_0_lt_compat. apply lt_0_INR.
  destruct l; [congruence | simpl; lia].
Qed.

(** The loop of [_sizeof_fmt] on a number whose magnitude lies between two
    consecutive powers of 1024 that have a unit among those left. *)
Lemma loop_unit :
  forall suffix us num k,
    (k < length us)%nat ->
    (k = 0%nat \/ 1024 ^ k <= Rabs num) ->
    Rabs num < 1024 ^ (k + 1) ->
    loop us num suffix
      = (num / 1024 ^ k, (nth k us ""%string ++ suffix)%string).
Proof.
  intros suffix. induction us as [|u us IH]; intros num k Hk Hlo Hhi;
    [simpl in Hk; lia|].
  destruct k as [|k].
  - simpl in Hhi. rewrite Rmult_1_r in Hhi. simpl.
    destruct (Rlt_dec (Rabs num) 1024) as [_|Hn]; [|contradiction].
    f_equal. field.
  - destruct Hlo as [Hlo|Hlo]; [discriminate|].
    assert (Hp : 0 < 1024 ^ k) by (apply pow_lt; lra).
    assert (Hge : 1024 <= Rabs num).
    { simpl in Hlo. assert (1 <= 1024 ^ k) by (apply pow_R1_Rle; lra). nra. }
    assert (Habs : Rabs (num / 1024) = Rabs num / 1024).
    { unfold Rdiv. rewrite Rabs_mult. rewrite (Rabs_right (/ 1024)) by lra.
      reflexivity. }
    simpl loop.
    destruct (Rlt_dec (Rabs num) 1024) as [Hn|_]; [lra|].
    rewrite (IH (num / 1024) k).
    + simpl nth. f_equal. simpl. field. lra.
    + simpl in Hk. lia.
    + right. rewrite Habs. simpl in Hlo. lra.
    + rewrite Habs. simpl in Hhi. lra.
Qed.

(** The same once every unit of the loop is too small. *)
Lemma loop_last :
  forall suffix us num,
    1024 ^ length us <= Rabs num ->
    loop us num suffix = (num / 1024 ^ length us, ("Yi" ++ suffix)%string).
Proof.
  intros suffix. induction us as [|u us IH]; intros num H.
  - simpl. f_equal. field.
  - assert (Hp : 1 <= 1024 ^ length us) by (apply pow_R1_Rle; lra).
    simpl in H. simpl loop.
    destruct (Rlt_dec (Rabs num) 1024) as [Hn|_]; [nra|].
    rewrite IH.
    + f_equal. simpl. field. apply pow_nonzero. lra.
    + unfold Rdiv. rewrite Rabs_mult.
      rewrite (Rabs_right (/ 1024)) by lra. lra.
Qed.

(** Every magnitude lies in one of the brackets. *)
Lemma bracket :
  forall (x : R) (n : nat),
    0 <= x -> x < 1024 ^ (n + 1) ->
    exists k, (k <= n)%nat
              /\ (k = 0%nat \/ 1024 ^ k <= x)
              /\ x < 1024 ^ (k + 1).
Proof.
  intros x. induction n as [|n IH]; intros Hx Hn.
  - exists 0%nat. split; [lia|]. split; [now left | exact Hn].
  - destruct (Rle_lt_dec (1024 ^ (S n)) x) as [Hge|Hlt].
    + exists (S n). split; [lia|]. split; [now right | exact Hn].
    + replace (S n) with (n + 1)%nat in Hlt by lia.
      destruct (IH Hx Hlt) as (k & Hk & Hlo & Hhi).
      exists k. split; [lia|]. split; assumption.
Qed.

Lemma abs_scaled :
  forall (x : R) (k : nat), Rabs (x / 1024 ^ k) = Rabs x / 1024 ^ k.
Proof.
  intros x k. assert (Hp : 0 < 1024 ^ k) by (apply pow_lt; lra).
  unfold Rdiv. rewrite Rabs_mult. f_equal.
  apply Rabs_right. left. now apply Rinv_0_lt_compat.
Qed.

(** What [_sizeof_fmt] returns is the number in base-1024 units. *)
Lemma sizeof_fmt_binary_units :
  forall x : R, binary_units (_sizeof_fmt x "B") x.
Proof.
  intros x. unfold _sizeof_fmt, binary_units.
  destruct (Rle_lt_dec (1024 ^ 8) (Rabs x)) as [Hge|Hlt].
  - exists 8%nat. rewrite (loop_last "B" units x Hge). cbn [fst snd length units].
    assert (Hp : 0 < 1024 ^ 8) by (apply pow_lt; lra).
    split; [lia|]. split; [field; lra|]. split; [reflexivity|].
    split; [lia|]. intros _. rewrite abs_scaled.
    apply (Rmult_le_reg_r (1024 ^ 8)); [exact Hp|].
    unfold Rdiv. rewrite Rmult_assoc, Rinv_l, Rmult_1_r by lra. lra.
  - destruct (bracket (Rabs x) 7 (Rabs_pos x) Hlt) as (k & Hk & Hlo & Hhi).
    exists k.
    rewrite (loop_unit "B" units x k) by (simpl; first [lia | assumption]).
    cbn [fst snd].
    assert (Hp : 0 < 1024 ^ k) by (apply pow_lt; lra).
    split; [lia|]. split; [field; lra|]. split.
    + rewrite app_nth1 by (simpl; lia). reflexivity.
    + rewrite abs_scaled. split; intros Hk'.
      * apply (Rmult_lt_reg_r (1024 ^ k)); [exact Hp|].
        unfold Rdiv. rewrite Rmult_assoc, Rinv_l, Rmult_1_r by lra.
        replace (k + 1)%nat with (S k) in Hhi by lia. simpl in Hhi. lra.
      * destruct Hlo as [->|Hlo]; [lia|].
        apply (Rmult_le_reg_r (1024 ^ k)); [exact Hp|].
        unfold Rdiv. rewrite Rmult_assoc, Rinv_l, Rmult_1_r by lra. lra.
Qed.

End EstimateFacts.

Section EstimateClaim.

Context {C : Collaborators}.

Import Estimate EstimateFacts.
Local Open Scope R_scope.

Lemma evaluate_size_val :
  forall self pre_coll w w' m,
    evaluate_size self pre_coll w = (w', Val m) ->
    exists names,
      FS.listdir (disk w) temp_dir = Some names
      /\ names <> []
      /\ m = mkMeasure
               (_get_dir_size (disk w) temp_dir)
               (length names)
               (map (fun x => _get_dir_size (disk w) (temp_dir ++ [id x])) pre_coll)
               (length (item_coll self)).
Proof.
  intros self pre_coll w w' m H.
  unfold evaluate_size, os_listdir, bind, get_disk in H.
  destruct (FS.listdir (disk w) temp_dir) as [names|] eqn:E; [|discriminate].
  exists names. split; [reflexivity|].
  destruct names as [|x names]; [discriminate|].
  split; [discriminate|]. simpl in H. inversion H. reflexivity.
Qed.

(** Measuring reads the disk and changes nothing. *)
Lemma evaluate_size_reads :
  forall self pre_coll w, fst (evaluate_size self pre_coll w) = w.
Proof.
  intros self pre_coll w. unfold evaluate_size, os_listdir, bind, get_disk.
  destruct (FS.listdir (disk w) temp_dir) as [names|]; [|reflexivity].
  cbn [ret]. destruct (length names =? 0)%nat; reflexivity.
Qed.

(** A preview that returns has made the scratch directory, fetched the
    sample into it, cleaned it, measured it and printed the estimate made
    of the measure as its last line. *)
Lemma preview_run_val :
  forall fuel self w,
    (preview_size self <= Z.of_nat (length (item_coll self)))%Z ->
    snd (preview_run fuel self w) = Val tt ->
    exists wa wb w1 m,
      disk_op (fun d => FS.mkdir d temp_dir) (printed w [EstimatingSize])
        = (wa, Val tt)
      /\ download_batches fuel (reauth_batch_size self)
           (choice (item_coll self) (Z.to_nat (preview_size self)))
           temp_dir (fun _ => default_file_name) wa = (wb, Val tt)
      /\ _remove_empty_items temp_dir wb = (w1, Val tt)
      /\ evaluate_size self
           (choice (item_coll self) (Z.to_nat (preview_size self))) w1
         = (w1, Val m)
      /\ trace (fst (preview_run fuel self w))
         = trace w1 ++ [Print (EstimatedTotal (_sizeof_fmt (mean_size m) "B")
                                              (_sizeof_fmt (ci_size m) "B"))].
Proof.
  intros fuel self w Hsize H. unfold preview_run in *.
  assert (E : (Z.of_nat (length (item_coll self)) >=? preview_size self)%Z = true)
    by (apply Z.geb_le; exact Hsize).
  rewrite E in *. clear E.
  unfold bind at 1 in H. unfold bind at 1.
  change (print EstimatingSize w) with (printed w [EstimatingSize], Val tt) in *.
  cbv iota beta in H |- *.
  unfold bind at 1 in H. unfold bind at 1.
  destruct (disk_op _ (printed w [EstimatingSize])) as [wa [[]| |]];
    try discriminate H.
  unfold finally in *.
  set (pre_coll := choice (item_coll self) (Z.to_nat (preview_size self))) in *.
  match type of H with
  | context [bind ?g ?k wa] => set (body := bind g k) in *
  end.
  destruct (body wa) as [w2 [[]| |]] eqn:Eb; cbn [snd] in H;
    [| unfold disk_op, bind, get_disk, set_disk in H; discriminate H
     | discriminate H].
  unfold body in Eb.
  apply bind_val_inv in Eb. destruct Eb as (wa' & [] & Hif & Eb).
  assert (wa' = wa).
  { destruct (_ <? 0)%Z; [discriminate Hif | now inversion Hif]. }
  subst wa'.
  apply bind_val_inv in Eb. destruct Eb as (wb & [] & Hdl & Eb).
  apply bind_val_inv in Eb. destruct Eb as (w1 & [] & Hrm & Eb).
  apply bind_val_inv in Eb. destruct Eb as (we & m & Hm & Eb).
  pose proof (evaluate_size_reads self pre_coll w1) as Hr.
  rewrite Hm in Hr. cbn [fst] in Hr. subst we.
  exists wa, wb, w1, m.
  split; [reflexivity|]. split; [exact Hdl|]. split; [exact Hrm|].
  split; [exact Hm|].
  unfold print, emit in Eb. inversion Eb.
  unfold disk_op, bind, get_disk, set_disk. reflexivity.
Qed.

End EstimateClaim.

Local Open Scope R_scope.

(** C5, amended. When the "preview run to estimate size" returns, it has
    fetched the sample into the scratch directory, cleaned and measured it,
    and the last line it has printed is the estimate: a projected total and
    a 95% confidence half-width, each rendered in base-1024 units (the
    number shown times 1024^k is the value, k indexing the unit among B,
    KiB, ..., YiB; the number shown is below 1024 for every unit but the
    last and at least 1 for every unit but the first).  With S and
    n_items >= 2 the size and the count that the estimator measures on the
    scratch directory, [sizes] the directory sizes of the sampled items and
    N_total the number of items of the whole collection, the values are
    mean = S / n_items * N_total and
    ci95 = 1.96 * stddev(sizes) / sqrt(n_items - 1) * N_total, where stddev
    is the population standard deviation, stddev^2 * len(sizes) being the
    sum of the squared deviations from the mean of the sizes: the sample is
    extrapolated by N_total, not by N_total / n.  The numbers are real
    numbers here, floats in the source. *)
Theorem size_estimate_closed_form :
  forall {C : Collaborators} (fuel : nat) (self : STACDownloader) (w : world),
    (preview_size self <= Z.of_nat (length (item_coll self)))%Z ->
    snd (preview_run fuel self w) = Val tt ->
    exists (wa wb w1 : world) (m : measure) (mean_shown ci_shown : R * string),
      let pre_coll := choice (item_coll self) (Z.to_nat (preview_size self)) in
      let S := Estimate.bytes (scratch_bytes m) in
      let n_items := INR (scratch_entries m) in
      let N_total := INR (length (item_coll self)) in
      let sizes :=
        map (fun x => Estimate.bytes (_get_dir_size (disk w1) (temp_dir ++ [id x])))
            pre_coll in
      let ci95 :=
        196 / 100 * Estimate.np_std sizes / sqrt (n_items - 1) * N_total in
      disk_op (fun d => FS.mkdir d temp_dir) (printed w [EstimatingSize])
        = (wa, Val tt)
      /\ download_batches fuel (reauth_batch_size self) pre_coll temp_dir
                          (fun _ => default_file_name) wa = (wb, Val tt)
      /\ _remove_empty_items temp_dir wb = (w1, Val tt)
      /\ evaluate_size self pre_coll w1 = (w1, Val m)
      /\ trace (fst (preview_run fuel self w))
         = trace w1 ++ [Print (EstimatedTotal mean_shown ci_shown)]
      /\ ((2 <= scratch_entries m)%nat ->
          binary_units mean_shown (S / n_items * N_total)
          /\ binary_units ci_shown ci95)
      /\ ((2 <= scratch_entries m)%nat -> pre_coll <> [] ->
          0 <= ci95
          /\ ci95 ^ 2 * (n_items - 1) * INR (length pre_coll)
             = (196 / 100) ^ 2
               * Estimate.total
                   (map (fun x => (x - Estimate.mean sizes) ^ 2) sizes)
               * N_total ^ 2).
Proof.
  intros C fuel self w Hsize Hret.
  destruct (preview_run_val fuel self w Hsize Hret)
    as (wa & wb & w1 & m & Hmk & Hdl & Hrm & H & Ht).
  exists wa, wb, w1, m, (Estimate._sizeof_fmt (Estimate.mean_size m) "B"),
         (Estimate._sizeof_fmt (Estimate.ci_size m) "B").
  intros pre_coll S n N_total sizes ci95.
  destruct (evaluate_size_val self pre_coll w1 w1 m H) as (names & Hls & Hne & Em).
  assert (Hsizes : map Estimate.bytes (sample_bytes m) = sizes).
  { rewrite Em. simpl. unfold sizes. now rewrite map_map. }
  assert (Hpop : INR (population m) = N_total) by (rewrite Em; reflexivity).
  assert (Hci : Estimate.ci_size m = ci95).
  { unfold Estimate.ci_size, Estimate.std_size. rewrite Hsizes, Hpop.
    reflexivity. }
  assert (Hmean : Estimate.mean_size m = S / n * N_total).
  { unfold Estimate.mean_size. rewrite Hpop. reflexivity. }
  split; [exact Hmk|]. split; [exact Hdl|]. split; [exact Hrm|].
  split; [exact H|]. split; [exact Ht|]. split.
  - intros _. split.
    + rewrite <- Hmean. apply EstimateFacts.sizeof_fmt_binary_units.
    + rewrite <- Hci. apply EstimateFacts.sizeof_fmt_binary_units.
  - intros Hm Hpre.
    assert (Hn : 1 <= n - 1).
    { unfold n. apply le_INR in Hm. simpl in Hm. lra. }
    assert (HN : 0 <= N_total) by apply pos_INR.
    assert (Hlen : 0 < INR (length sizes)).
    { apply lt_0_INR. unfold sizes. rewrite length_map.
      destruct pre_coll; [congruence | simpl; lia]. }
    assert (Hvar : 0 <= Estimate.mean
                          (map (fun x => (x - Estimate.mean sizes) ^ 2) sizes)).
    { apply EstimateFacts.variance_nonneg. unfold sizes.
      destruct pre_coll; [congruence | discriminate]. }
    assert (Hsq : 0 < sqrt (n - 1)) by (apply sqrt_lt_R0; lra).
    split.
    + unfold ci95. apply Rmult_le_pos; [|exact HN].
      apply Rmult_le_pos; [|left; now apply Rinv_0_lt_compat].
      apply Rmult_le_pos; [lra | apply sqrt_pos].
    + unfold ci95, Estimate.np_std.
      set (V := Estimate.mean (map (fun x => (x - Estimate.mean sizes) ^ 2) sizes))
        in *.
      assert (HV : sqrt V ^ 2 = V)
        by (simpl; rewrite Rmult_1_r; now apply sqrt_sqrt).
      assert (Hd : sqrt (n - 1) ^ 2 = n - 1)
        by (simpl; rewrite Rmult_1_r; apply sqrt_sqrt; lra).
      assert (HVt : V * INR (length pre_coll)
                    = Estimate.total
                        (map (fun x => (x - Estimate.mean sizes) ^ 2) sizes)).
      { unfold V, Estimate.mean at 1. rewrite length_map.
        assert (El : length sizes = length pre_coll)
          by (unfold sizes; apply length_map).
        rewrite El in *. field. lra. }
      rewrite <- HVt.
      replace ((196 / 100 * sqrt V / sqrt (n - 1) * N_total) ^ 2 * (n - 1)
               * INR (length pre_coll))
        with ((196 / 100) ^ 2 * (sqrt V ^ 2) * ((n - 1) / sqrt (n - 1) ^ 2)
              * INR (length pre_coll) * N_total ^ 2)
        by (field; lra).
      rewrite HV, Hd. field. lra.
Qed.

Lemma size_estimate_closed_form_witness :
  (preview_size batched25 <= Z.of_nat (length (item_coll batched25)))%Z
  /\ snd (@preview_run steady 1 batched25 Sim.world0) = Val tt
  /\ exists (w1 : world) (mean_shown ci_shown : R * string),
       @evaluate_size steady batched25 (Sim.items 10) w1
         = (w1, Val (mkMeasure 25664 11 (repeat 2048%N 10) 25))
       /\ trace (fst (@preview_run steady 1 batched25 Sim.world0))
          = trace w1 ++ [Print (EstimatedTotal mean_shown ci_shown)]
       /\ binary_units mean_shown (Estimate.bytes 25664 / INR 11 * INR 25).
Proof.
  assert (H1 : (preview_size batched25
                <= Z.of_nat (length (item_coll batched25)))%Z)
    by (simpl; lia).
  assert (H2 : snd (@preview_run steady 1 batched25 Sim.world0) = Val tt)
    by (vm_compute; reflexivity).
  split; [exact H1|]. split; [exact H2|].
  destruct (@size_estimate_closed_form steady 1 batched25 Sim.world0 H1 H2)
    as (wa & wb & w1 & m & mean_shown & ci_shown
        & Hmk & Hdl & Hrm & Hm & Ht & Hfmt & _).
  vm_compute in Hmk. inversion Hmk as [Ea]. rewrite <- Ea in Hdl. clear Hmk Ea.
  vm_compute in Hdl. inversion Hdl as [Eb]. rewrite <- Eb in Hrm. clear Hdl Eb.
  vm_compute in Hrm. inversion Hrm as [E1]. clear Hrm.
  assert (Em : m = mkMeasure 25664 11 (repeat 2048%N 10) 25).
  { rewrite <- E1 in Hm. vm_compute in Hm. inversion Hm. reflexivity. }
  rewrite Em in Hm, Hfmt.
  exists w1, mean_shown, ci_shown.
  split; [exact Hm|]. split; [exact Ht|].
  apply Hfmt. cbn [scratch_entries]. lia.
Defined.

(** C5 as stated fails on the preview of the attempt over 25 items whose
    assets are 2048 bytes each: the scratch directory lists 11 entries, the
    10 item directories and the item collection, 25664 bytes in all.  The
    claimed mean, sum(sizes)/n * N_total/n, is 5120 bytes, which would be
    shown as 5.0KiB; the estimator prints 25664/11 * 25 bytes, shown as
    more than 50 KiB. *)
Lemma estimate_is_not_the_claimed_formula :
  let m := mkMeasure 25664 11 (repeat 2048%N 10) 25 in
  let sizes := map Estimate.bytes (sample_bytes m) in
  filter is_estimate (trace (fst (@_async_download steady 1 batched25 Sim.world0)))
    = [Print (EstimatedTotal (Estimate._sizeof_fmt (Estimate.mean_size m) "B")
                             (Estimate._sizeof_fmt (Estimate.ci_size m) "B"))]
  /\ Estimate._sizeof_fmt (Estimate.mean_size m) "B"
     = (25664 / 11 * 25 / 1024 ^ 1, "KiB"%string)
  /\ Estimate._sizeof_fmt (Estimate.spec_mean sizes (population m)) "B"
     = (5120 / 1024 ^ 1, "KiB"%string)
  /\ 25664 / 11 * 25 / 1024 ^ 1 > 10 * (5120 / 1024 ^ 1).
Proof.
  cbv zeta. split; [reflexivity|].
  assert (Hmean : Estimate.mean_size (mkMeasure 25664 11 (repeat 2048%N 10) 25)
                  = 25664 / 11 * 25).
  { unfold Estimate.mean_size, Estimate.bytes. simpl. lra. }
  assert (Hspec : Estimate.spec_mean
                    (map Estimate.bytes (repeat 2048%N 10)) 25 = 5120).
  { unfold Estimate.spec_mean, Estimate.total, Estimate.bytes. simpl. lra. }
  cbn [sample_bytes population]. rewrite Hmean, Hspec.
  split; [|split; [|lra]].
  - apply (EstimateFacts.loop_unit "B" Estimate.units _ 1%nat);
      [simpl; lia | right | ]; rewrite Rabs_right by lra; simpl; lra.
  - apply (EstimateFacts.loop_unit "B" Estimate.units _ 1%nat);
      [simpl; lia | right | ]; rewrite Rabs_right by lra; simpl; lra.
Qed.

Local Close Scope R_scope.

(* ------------------------------------------------------------------ *)
(** ** The extent of a collection *)

Lemma fold_min_spec :
  forall t x,
    In (fold_left Z.min t x) (x :: t)
    /\ Forall (fun y => (fold_left Z.min t x <= y)%Z) (x :: t).
Proof.
  induction t as [|y t IH]; intros x; simpl.
  - split; [now left | constructor; [lia | constructor]].
  - destruct (IH (Z.min x y)) as [Hin Hall].
    inversion Hall as [|? ? Hm Ht]. subst. split.
    + destruct Hin as [Hin|Hin]; [|now right; right].
      rewrite <- Hin. destruct (Z.min_spec x y) as [[_ ->]|[_ ->]]; auto.
    + constructor; [lia|]. constructor; [lia | exact Ht].
Qed.

Lemma fold_max_spec :
  forall t x,
    In (fold_left Z.max t x) (x :: t)
    /\ Forall (fun y => (y <= fold_left Z.max t x)%Z) (x :: t).
Proof.
  induction t as [|y t IH]; intros x; simpl.
  - split; [now left | constructor; [lia | constructor]].
  - destruct (IH (Z.max x y)) as [Hin Hall].
    inversion Hall as [|? ? Hm Ht]. subst. split.
    + destruct Hin as [Hin|Hin]; [|now right; right].
      rewrite <- Hin. destruct (Z.max_spec x y) as [[_ ->]|[_ ->]]; auto.
    + constructor; [lia|]. constructor; [lia | exact Ht].
Qed.

(** C8. For every non-empty list of member items the extent of the
    collection is built without a fault; its one bounding box is the bounds
    of the union of the members' geometries, each buffered by zero, and its
    one interval runs from the least to the greatest datetime of the
    members, both of them datetimes of members.  In particular, on polygons
    given by their vertices, the unit squares at (0,0) and (1,1) give the
    bounding box (0, 0, 2, 2) and the interval from the earlier to the later
    of the two datetimes. *)
Theorem extent_of_members :
  (forall (Shape : Type) (Sh : Shapely Shape) (items : list Item),
      items <> [] ->
      exists lo hi,
        _create_full_extent items
          = Val (mkExtent
                   [bounds (unary_union
                              (map (fun p => buffer p 0)
                                   (map (fun i => shape (geometry i)) items)))]
                   [(lo, hi)])
        /\ In lo (map datetime items)
        /\ In hi (map datetime items)
        /\ Forall (fun i => (lo <= datetime i <= hi)%Z) items)
  /\ (forall t1 t2 : Z,
        @_create_full_extent Vertices.Shape Vertices.shapely
                             [unit_square "a" 0 0 t1; unit_square "b" 1 1 t2]
          = Val (mkExtent [(0, 0, 2, 2)%Z] [(Z.min t1 t2, Z.max t1 t2)])).
Proof.
  split.
  - intros Shape Sh items Hne.
    destruct items as [|i items]; [congruence|].
    unfold _create_full_extent. simpl map. unfold Py.min_list, Py.max_list.
    destruct (fold_min_spec (map datetime items) (datetime i)) as [Hlo Hlo'].
    destruct (fold_max_spec (map datetime items) (datetime i)) as [Hhi Hhi'].
    eexists _, _. split; [reflexivity|]. split; [exact Hlo|].
    split; [exact Hhi|].
    change (datetime i :: map datetime items) with (map datetime (i :: items))
      in Hlo', Hhi'.
    rewrite Forall_map in Hlo', Hhi'. rewrite Forall_forall in *.
    intros x Hx. split; [apply Hlo' | apply Hhi']; exact Hx.
  - intros t1 t2. reflexivity.
Qed.

Lemma extent_of_members_witness :
  [unit_square "a" 0 0 100; unit_square "b" 1 1 50] <> []
  /\ exists lo hi,
       @_create_full_extent Vertices.Shape Vertices.shapely
                            [unit_square "a" 0 0 100; unit_square "b" 1 1 50]
         = Val (mkExtent [(0, 0, 2, 2)%Z] [(lo, hi)])
       /\ In lo [100; 50]%Z
       /\ In hi [100; 50]%Z
       /\ Forall (fun i => (lo <= datetime i <= hi)%Z)
                 [unit_square "a" 0 0 100; unit_square "b" 1 1 50].
Proof.
  assert (H : [unit_square "a" 0 0 100; unit_square "b" 1 1 50] <> [])
    by discriminate.
  split; [exact H|].
  exact (proj1 extent_of_members Vertices.Shape Vertices.shapely
               [unit_square "a" 0 0 100; unit_square "b" 1 1 50] H).
Defined.

(* ------------------------------------------------------------------ *)
(** ** Rendering a size: the unit that is picked *)

Local Open Scope R_scope.

(** X1. [_sizeof_fmt] picks the first unit for which the number is below
    1024: a number whose magnitude lies in [1024^k, 1024^(k+1)), k < 8, or
    below 1024 for k = 0, is printed divided by 1024^k with the k-th unit of
    B, KiB, ..., ZiB, whatever its sign.  From 1024^8 on it is printed
    divided by 1024^8 with the unit YiB, however large it is.  So every
    number is printed, with one of the nine units. *)
Theorem sizeof_fmt_picks_the_first_unit :
  forall (num : R) (suffix : string),
    (forall k : nat,
       (k < 8)%nat ->
       (k = 0%nat \/ 1024 ^ k <= Rabs num) ->
       Rabs num < 1024 ^ (k + 1) ->
       Estimate._sizeof_fmt num suffix
         = (num / 1024 ^ k, (nth k Estimate.units ""%string ++ suffix)%string))
    /\ (1024 ^ 8 <= Rabs num ->
        Estimate._sizeof_fmt num suffix
          = (num / 1024 ^ 8, ("Yi" ++ suffix)%string))
    /\ (exists k : nat,
          (k <= 8)%nat
          /\ Estimate._sizeof_fmt num suffix
             = (num / 1024 ^ k,
                (nth k (Estimate.units ++ ["Yi"%string]) ""%string
                 ++ suffix)%string)).
Proof.
  intros num suffix.
  assert (Hunit : forall k : nat,
             (k < 8)%nat ->
             (k = 0%nat \/ 1024 ^ k <= Rabs num) ->
             Rabs num < 1024 ^ (k + 1) ->
             Estimate._sizeof_fmt num suffix
             = (num / 1024 ^ k,
                (nth k Estimate.units ""%string ++ suffix)%string)).
  { intros k Hk Hlo Hhi. apply EstimateFacts.loop_unit; assumption. }
  assert (Hlast : 1024 ^ 8 <= Rabs num ->
                  Estimate._sizeof_fmt num suffix
                  = (num / 1024 ^ 8, ("Yi" ++ suffix)%string)).
  { intros H. exact (EstimateFacts.loop_last suffix Estimate.units num H). }
  split; [exact Hunit|]. split; [exact Hlast|].
  destruct (Rle_lt_dec (1024 ^ 8) (Rabs num)) as [Hge|Hlt].
  - exists 8%nat. split; [lia|]. rewrite (Hlast Hge). reflexivity.
  - destruct (EstimateFacts.bracket (Rabs num) 7 (Rabs_pos num) Hlt)
      as (k & Hk & Hlo & Hhi).
    exists k. split; [lia|].
    rewrite (Hunit k) by first [lia | assumption].
    rewrite app_nth1 by (simpl; lia). reflexivity.
Qed.

Lemma sizeof_fmt_picks_the_first_unit_witness :
  Estimate._sizeof_fmt (- 3072) "B" = (- 3072 / 1024 ^ 1, "KiB"%string)
  /\ Estimate._sizeof_fmt (1024 ^ 9) "B" = (1024 ^ 9 / 1024 ^ 8, "YiB"%string).
Proof.
  destruct (sizeof_fmt_picks_the_first_unit (- 3072) "B") as (Hunit & _ & _).
  destruct (sizeof_fmt_picks_the_first_unit (1024 ^ 9) "B") as (_ & Hlast & _).
  split.
  - apply (Hunit 1%nat); [lia | right | ];
      rewrite Rabs_left by lra; simpl; lra.
  - apply Hlast. rewrite Rabs_right.
    + replace (1024 ^ 9) with (1024 * 1024 ^ 8) by (simpl; ring).
      assert (0 < 1024 ^ 8) by (apply pow_lt; lra). lra.
    + apply Rle_ge. apply pow_le. lra.
Defined.

Local Close Scope R_scope.

(* ------------------------------------------------------------------ *)
(** ** The empty directories of a tree *)

Section EmptyDirectories.

Import FS FSFacts.

Lemma lookup_nonempty :
  forall n name q m, lookup n (name :: q) = Some m -> is_nonempty_dir n = true.
Proof.
  intros n name q m H. destruct n as [s b|es]; [discriminate|].
  destruct es as [|e es]; [discriminate | reflexivity].
Qed.

Lemma walk_empty_complete :
  forall q n, lookup n q = Some (Dir []) -> In q (walk_empty [] n).
Proof.
  induction q as [|name q IH]; intros n H.
  - simpl in H. inversion H. subst. simpl. now left.
  - destruct n as [s b|es]; [discriminate|].
    simpl in H. destruct (find es name) as [c|] eqn:E; [|discriminate].
    apply find_some_in in E as Hin.
    rewrite walk_empty_dir. apply in_or_app. right. apply in_or_app.
    destruct q as [|name' q'].
    + left. simpl in H. inversion H. subst c.
      apply in_map_iff. exists (name, Dir []). split; [reflexivity|].
      apply filter_In. split; [exact Hin | reflexivity].
    + right. apply in_flat_map. exists (name, c). split; [exact Hin|].
      cbn [fst snd]. rewrite (lookup_nonempty _ _ _ _ H).
      rewrite walk_empty_prefix. apply in_map_iff.
      exists (name' :: q'). split; [reflexivity|]. apply IH. exact H.
Qed.

Lemma walk_empty_sound_all :
  forall n, wf n ->
    forall q, In q (walk_empty [] n) -> lookup n q = Some (Dir []).
Proof.
  intros n Hwf q Hin. destruct (is_empty_dir n) eqn:E.
  - destruct n as [s b|[|e es]]; try discriminate.
    simpl in Hin. destruct Hin as [<-|[]]. reflexivity.
  - now apply walk_empty_sound.
Qed.

Lemma nodup_map_app :
  forall (p : path) (l : list path), NoDup l -> NoDup (map (app p) l).
Proof.
  intros p l H. induction H as [|x l Hx Hl IH]; [constructor|].
  simpl. constructor; [|exact IH].
  intros Hin. apply in_map_iff in Hin. destruct Hin as (y & Hy & Hin).
  apply app_inv_head in Hy. subst y. contradiction.
Qed.

Lemma entry_walk_head :
  forall e p, In p (entry_walk e) -> exists q, p = fst e :: q.
Proof.
  intros e p H. unfold entry_walk in H. apply in_app_or in H.
  destruct H as [H|H].
  - destruct (is_empty_dir (snd e)); [|contradiction].
    destruct H as [<-|[]]. now exists [].
  - destruct (is_nonempty_dir (snd e)); [|contradiction].
    rewrite walk_empty_prefix in H. apply in_map_iff in H.
    destruct H as (q & <- & _). now exists q.
Qed.

Lemma walk_empty_entries :
  forall es,
    Permutation
      (map (fun e => [] ++ [fst e]) (filter (fun e => is_empty_dir (snd e)) es)
       ++ flat_map (fun e => if is_nonempty_dir (snd e)
                             then walk_empty ([] ++ [fst e]) (snd e)
                             else []) es)
      (flat_map entry_walk es).
Proof.
  induction es as [|e es IH]; [constructor|].
  cbn [filter flat_map]. unfold entry_walk at 1. cbn [app].
  destruct (is_empty_dir (snd e)) eqn:E.
  - assert (N : is_nonempty_dir (snd e) = false)
      by (destruct (snd e) as [|[|]]; [reflexivity | reflexivity | discriminate]).
    rewrite N. cbn [map app]. constructor. exact IH.
  - cbn [app].
    set (a := if is_nonempty_dir (snd e) then walk_empty [fst e] (snd e)
              else []).
    eapply Permutation_trans; [apply Permutation_app_swap_app|].
    apply Permutation_app_head. exact IH.
Qed.

Lemma walk_empty_nodup :
  forall n, wf n -> NoDup (walk_empty [] n).
Proof.
  induction n as [s b|es IH] using node_induction; intros Hwf;
    [constructor|].
  rewrite walk_empty_dir.
  destruct es as [|e0 es0].
  { simpl. constructor; [intros []| constructor]. }
  remember (e0 :: es0) as es eqn:Ees.
  replace (is_empty_dir (Dir es)) with false by (subst es; reflexivity).
  cbn [app].
  eapply Permutation_NoDup; [apply Permutation_sym, walk_empty_entries|].
  apply wf_children in Hwf. destruct Hwf as [Hnd Hch].
  clear Ees e0 es0.
  induction es as [|e es IHes]; [constructor|].
  inversion IH as [|? ? He Hes]. inversion Hch as [|? ? Hwe Hwes].
  inversion Hnd as [|? ? Hnotin Hnd']. subst.
  cbn [flat_map].
  apply NoDup_app; [| now apply IHes |].
  - unfold entry_walk.
    destruct (is_empty_dir (snd e)) eqn:E.
    + assert (N : is_nonempty_dir (snd e) = false)
        by (destruct (snd e) as [|[|]];
            [reflexivity | reflexivity | discriminate]).
      rewrite N. simpl. constructor; [intros [] | constructor].
    + cbn [app]. destruct (is_nonempty_dir (snd e)); [|constructor].
      rewrite walk_empty_prefix.
      apply nodup_map_app. now apply He.
  - intros p Hp Hq. apply entry_walk_head in Hp. destruct Hp as (q & ->).
    apply in_flat_map in Hq. destruct Hq as (e' & He' & Hq).
    apply entry_walk_head in Hq. destruct Hq as (q' & Hq).
    inversion Hq as [[Hk Hq']]. apply Hnotin. rewrite Hk. now apply in_map.
Qed.

End EmptyDirectories.

(** X2. [_find_empty_subdirs] returns exactly the empty directories at and
    below [directory], each once: a path is returned if and only if it
    starts with [directory] and is an empty directory on the disk (so
    [directory] itself is returned when it is empty).  When [directory] is
    missing or is a file the result is empty, without a fault. *)
Theorem find_empty_subdirs_lists_the_empty_directories :
  forall (d : node) (directory : path),
    (FS.is_dir (FS.lookup d directory) = false ->
     _find_empty_subdirs d directory = [])
    /\ (forall n,
          FS.lookup d directory = Some n -> wf n ->
          NoDup (_find_empty_subdirs d directory)
          /\ (forall p,
                In p (_find_empty_subdirs d directory)
                <-> below directory p /\ FS.lookup d p = Some (Dir []))).
Proof.
  intros d directory. unfold _find_empty_subdirs. split.
  - intros H. destruct (FS.lookup d directory) as [[s b|es]|];
      [reflexivity | discriminate | reflexivity].
  - intros n E Hwf. rewrite E. rewrite walk_empty_prefix. split.
    + apply nodup_map_app. now apply walk_empty_nodup.
    + intros p. split.
      * intros Hin. apply in_map_iff in Hin. destruct Hin as (q & <- & Hq).
        split; [now exists q|].
        rewrite FSFacts.lookup_app, E. now apply walk_empty_sound_all.
      * intros [(q & ->) Hl]. apply in_map_iff. exists q.
        split; [reflexivity|]. apply walk_empty_complete.
        rewrite FSFacts.lookup_app, E in Hl. exact Hl.
Qed.

Lemma find_empty_subdirs_lists_the_empty_directories_witness :
  FS.lookup (disk (world_of one_empty_item)) ["data"]
    = Some (Dir one_empty_item)
  /\ wf (Dir one_empty_item)
  /\ NoDup (_find_empty_subdirs (disk (world_of one_empty_item)) ["data"])
  /\ (In ["data"; "S2_1"]
         (_find_empty_subdirs (disk (world_of one_empty_item)) ["data"])
      <-> below ["data"] ["data"; "S2_1"]
          /\ FS.lookup (disk (world_of one_empty_item)) ["data"; "S2_1"]
             = Some (Dir [])).
Proof.
  assert (Hwf : wf (Dir one_empty_item)).
  { simpl. repeat split; repeat constructor; simpl; intuition discriminate. }
  destruct (proj2 (find_empty_subdirs_lists_the_empty_directories
                     (disk (world_of one_empty_item)) ["data"])
                  (Dir one_empty_item) eq_refl Hwf) as [Hnd Hiff].
  split; [reflexivity|]. split; [exact Hwf|]. split; [exact Hnd|].
  apply Hiff.
Defined.

(* ------------------------------------------------------------------ *)
(** ** What the cleanup leaves alone *)

Section Untouched.

Import FS FSFacts.

Lemma not_empty_of_lookup :
  forall v q s b, lookup v q = Some (File s b) -> is_empty_dir v = false.
Proof.
  intros v q s b H. destruct v as [s' b'|[|e es]]; try reflexivity.
  destruct q; simpl in H; discriminate.
Qed.

Lemma wf_find :
  forall es k v, wf (Dir es) -> find es k = Some v -> wf v.
Proof.
  intros es k v Hwf E. apply wf_children in Hwf. destruct Hwf as [_ Hch].
  apply find_some_in in E. rewrite Forall_forall in Hch.
  exact (Hch (k, v) E).
Qed.

Lemma lookup_prune_file :
  forall q n s b,
    wf n -> lookup n q = Some (File s b) -> lookup (prune n) q = Some (File s b).
Proof.
  induction q as [|name q IH]; intros n s b Hwf H.
  - simpl in H. inversion H. reflexivity.
  - destruct n as [s' b'|es]; [discriminate|].
    rewrite prune_dir. simpl in H. simpl.
    destruct (find es name) as [v|] eqn:E; [|discriminate].
    rewrite find_prune by (apply wf_children in Hwf; tauto).
    rewrite E. rewrite (not_empty_of_lookup _ _ _ _ H).
    apply IH; [eapply wf_find; eassumption | exact H].
Qed.

Lemma lookup_graft_file :
  forall out d p m v s b,
    lookup d out = Some m ->
    lookup d p = Some (File s b) ->
    (forall q, p = out ++ q -> lookup v q = Some (File s b)) ->
    lookup (graft d out v) p = Some (File s b).
Proof.
  induction out as [|name out IH]; intros d p m v s b Hm Hp Hq.
  - simpl. now apply Hq.
  - destruct d as [s' b'|es]; [discriminate|].
    simpl in Hm. destruct (find es name) as [c|] eqn:E; [|discriminate].
    simpl graft. rewrite E.
    destruct p as [|k p]; [discriminate|].
    simpl in Hp. simpl.
    destruct (String.eqb_spec k name) as [->|Hne].
    + rewrite find_put_same. rewrite E in Hp.
      apply (IH c p m v s b Hm Hp).
      intros q ->. now apply Hq.
    + rewrite find_put_other by congruence. exact Hp.
Qed.

Lemma tree_size_prune : forall n, tree_size (prune n) = tree_size n.
Proof.
  induction n as [s b|es IH] using node_induction; [reflexivity|].
  rewrite prune_dir. simpl.
  induction es as [|e es IHes]; [reflexivity|].
  inversion IH as [|? ? He Hes]. subst. simpl.
  destruct (is_empty_dir (snd e)) eqn:E; simpl.
  - destruct (snd e) as [|[|]]; try discriminate. simpl.
    now rewrite IHes.
  - now rewrite He, IHes.
Qed.

Lemma tree_size_put :
  forall es k v old,
    find es k = Some old ->
    (tree_size (Dir (put_entry k v es)) + tree_size old
     = tree_size (Dir es) + tree_size v)%N.
Proof.
  induction es as [|[k' w] es IH]; intros k v old H; [discriminate|].
  simpl in H. simpl put_entry.
  destruct (String.eqb k k') eqn:E.
  - inversion H. subst. simpl. lia.
  - specialize (IH k v old H). simpl in *. lia.
Qed.

Lemma dir_size_at :
  forall d out es name,
    lookup d out = Some (Dir es) ->
    _get_dir_size d (out ++ [name])
      = match find es name with
        | Some (Dir sub) => tree_size (Dir sub)
        | _ => 0%N
        end.
Proof.
  intros d out es name H. unfold _get_dir_size.
  rewrite lookup_app, H. simpl.
  destruct (find es name) as [[s b|sub]|]; reflexivity.
Qed.

Lemma find_kept_entries :
  forall es k,
    NoDup (map fst es) ->
    find (kept_entries es) k
      = match find es k with
        | Some v => if is_empty_dir v then None else Some (prune v)
        | None => None
        end.
Proof. intros es k H. unfold kept_entries. now apply find_prune. Qed.

End Untouched.

Section UntouchedClaims.

Context {C : Collaborators}.

Import FS FSFacts.

(** The disk after the cleanup of a well-formed directory that holds its
    item collection: the directory is pruned, and the item collection is
    rewritten unless [list.remove] raised. *)
Lemma cleanup_disk :
  forall out w es s coll,
    lookup (disk w) out = Some (Dir es) ->
    wf (Dir es) ->
    find es default_file_name = Some (File s (Some coll)) ->
    exists es',
      fst (_remove_empty_items out w)
        = with_disk w (graft (disk w) out (Dir es'))
      /\ ((es' = kept_entries es
           /\ snd (_remove_empty_items out w) = Raise ValueError)
          \/ exists keep,
               es' = put_entry default_file_name
                               (File (json_size keep) (Some keep))
                               (kept_entries es)
               /\ snd (_remove_empty_items out w) = Val tt).
Proof.
  intros out w es s coll Hout Hwf Hfile.
  rewrite (@remove_empty_items_spec C out w es s coll Hout Hwf Hfile).
  cbv zeta.
  destruct (remove_ids _ _) as [all_items|].
  - eexists. split; [reflexivity|]. right. eexists. split; reflexivity.
  - eexists. split; [reflexivity|]. left. split; reflexivity.
Qed.

End UntouchedClaims.

(** X3. The cleanup never deletes or changes a file other than
    item-collection.json: on a well-formed output directory that holds its
    item collection, every file of the disk (an asset of any item, at any
    depth, or any file outside the directory) is on the disk with the same
    content after [_remove_empty_items], however it ends; it calls neither
    the fetcher nor the signing service and prints nothing. *)
Theorem cleanup_never_touches_a_file :
  forall {C : Collaborators} (out : path) (w : world) (es : dir)
         (s : N) (coll : list Item),
    FS.lookup (disk w) out = Some (Dir es) ->
    wf (Dir es) ->
    FS.find es default_file_name = Some (File s (Some coll)) ->
    let w' := fst (_remove_empty_items out w) in
    w' = with_disk w (disk w')
    /\ (forall p size body,
          FS.lookup (disk w) p = Some (File size body) ->
          p <> out ++ [default_file_name] ->
          FS.lookup (disk w') p = Some (File size body)).
Proof.
  intros C out w es s coll Hout Hwf Hfile w'.
  destruct (cleanup_disk out w es s coll Hout Hwf Hfile) as (es' & E & Hes').
  subst w'. rewrite E. split; [reflexivity|].
  intros p size body Hp Hne. simpl.
  apply (lookup_graft_file out (disk w) p (Dir es) (Dir es') size body Hout Hp).
  intros q ->. rewrite FSFacts.lookup_app, Hout in Hp.
  assert (Hk : FS.lookup (Dir (kept_entries es)) q = Some (File size body)).
  { change (Dir (kept_entries es)) with
      (Dir (map (fun e => (fst e, prune (snd e)))
                (filter (fun e => negb (FS.is_empty_dir (snd e))) es))).
    rewrite <- prune_dir. now apply lookup_prune_file. }
  destruct Hes' as [[-> _]|(keep & -> & _)]; [exact Hk|].
  destruct q as [|k q]; [discriminate|].
  simpl in Hk. simpl.
  destruct (String.eqb_spec k default_file_name) as [->|Hk'].
  - exfalso. simpl in Hp. rewrite Hfile in Hp.
    destruct q; [now apply Hne | discriminate].
  - rewrite FSFacts.find_put_other by congruence. exact Hk.
Qed.

Lemma cleanup_never_touches_a_file_witness :
  FS.lookup (disk (world_of one_empty_item)) ["data"]
    = Some (Dir one_empty_item)
  /\ wf (Dir one_empty_item)
  /\ FS.lookup (disk (world_of one_empty_item)) ["data"; "S2_0"; "B04.tif"]
     = Some (File 2048 None)
  /\ FS.lookup (disk (fst (@_remove_empty_items steady ["data"]
                                                (world_of one_empty_item))))
               ["data"; "S2_0"; "B04.tif"]
     = Some (File 2048 None).
Proof.
  assert (Hwf : wf (Dir one_empty_item)).
  { simpl. repeat split; repeat constructor; simpl; intuition discriminate. }
  split; [reflexivity|]. split; [exact Hwf|]. split; [reflexivity|].
  apply (proj2 (@cleanup_never_touches_a_file
                  steady ["data"] (world_of one_empty_item) one_empty_item
                  1088%N (Sim.items 2) eq_refl Hwf eq_refl)
               ["data"; "S2_0"; "B04.tif"] 2048%N None eq_refl).
  discriminate.
Defined.

(** X4. The cleanup changes no measured size: for every entry of the
    output directory other than item-collection.json, [_get_dir_size] gives
    the same number before and after [_remove_empty_items], however it ends
    (a directory that is removed measures 0 before, being empty, and 0
    after, being missing); and when the cleanup returns, the size of the
    whole directory changes by the size of the rewritten item collection
    alone. *)
Theorem cleanup_keeps_every_measured_size :
  forall {C : Collaborators} (out : path) (w : world) (es : dir)
         (s : N) (coll : list Item),
    FS.lookup (disk w) out = Some (Dir es) ->
    wf (Dir es) ->
    FS.find es default_file_name = Some (File s (Some coll)) ->
    let d' := disk (fst (_remove_empty_items out w)) in
    (forall name,
        name <> default_file_name ->
        _get_dir_size d' (out ++ [name]) = _get_dir_size (disk w) (out ++ [name]))
    /\ (forall p,
          In p (_find_empty_subdirs (disk w) out) ->
          _get_dir_size (disk w) p = 0%N /\ _get_dir_size d' p = 0%N)
    /\ (snd (_remove_empty_items out w) = Val tt ->
        exists keep,
          FS.lookup d' (out ++ [default_file_name])
            = Some (File (json_size keep) (Some keep))
          /\ (_get_dir_size d' out + s
              = _get_dir_size (disk w) out + json_size keep)%N).
Proof.
  intros C out w es s coll Hout Hwf Hfile d'.
  destruct (cleanup_disk out w es s coll Hout Hwf Hfile) as (es' & E & Hes').
  assert (Hnd : NoDup (map fst es)) by (apply wf_children in Hwf; tauto).
  assert (Hd' : FS.lookup d' out = Some (Dir es')).
  { subst d'. rewrite E. simpl. eapply FSFacts.lookup_graft. exact Hout. }
  assert (Hentry : forall name,
             name <> default_file_name ->
             FS.find es' name
               = match FS.find es name with
                 | Some v => if FS.is_empty_dir v then None else Some (prune v)
                 | None => None
                 end).
  { intros name Hn.
    destruct Hes' as [[-> _]|(keep & -> & _)].
    - now apply find_kept_entries.
    - rewrite FSFacts.find_put_other by congruence.
      now apply find_kept_entries. }
  assert (Hsize : forall name,
             name <> default_file_name ->
             _get_dir_size d' (out ++ [name])
               = _get_dir_size (disk w) (out ++ [name])).
  { intros name Hn.
    rewrite (dir_size_at d' out es' name Hd').
    rewrite (dir_size_at (disk w) out es name Hout).
    rewrite (Hentry name Hn).
    destruct (FS.find es name) as [[s0 b0|sub]|]; try reflexivity.
    destruct sub as [|e sub]; [reflexivity|].
    cbn [FS.is_empty_dir].
    pose proof (tree_size_prune (Dir (e :: sub))) as Hp.
    destruct (prune (Dir (e :: sub))) as [s1 b1|sub'] eqn:Ep.
    - rewrite prune_dir in Ep. discriminate.
    - exact Hp. }
  split; [exact Hsize|]. split.
  - intros p Hin.
    assert (Hnonempty : FS.is_empty_dir (Dir es) = false).
    { destruct es; [discriminate | reflexivity]. }
    unfold _find_empty_subdirs in Hin. rewrite Hout in Hin.
    rewrite walk_empty_prefix in Hin. apply in_map_iff in Hin.
    destruct Hin as (q & <- & Hq).
    pose proof (walk_empty_sound (Dir es) Hwf Hnonempty q Hq) as Hl.
    pose proof (lookup_prune_removed (Dir es) Hwf Hnonempty q Hq) as Hr.
    split.
    + unfold _get_dir_size. rewrite FSFacts.lookup_app, Hout, Hl. reflexivity.
    + unfold _get_dir_size. rewrite FSFacts.lookup_app, Hd'.
      assert (Hk : FS.lookup (Dir (kept_entries es)) q = None).
      { change (Dir (kept_entries es)) with
          (Dir (map (fun e => (fst e, prune (snd e)))
                    (filter (fun e => negb (FS.is_empty_dir (snd e))) es))).
        rewrite <- prune_dir. exact Hr. }
      destruct Hes' as [[-> _]|(keep & -> & _)]; [now rewrite Hk|].
      destruct q as [|k q].
      { exfalso. now apply (walk_empty_nonempty_paths (Dir es) Hnonempty Hq). }
      simpl in Hk. simpl.
      destruct (String.eqb_spec k default_file_name) as [->|Hk'].
      * rewrite FSFacts.find_put_same. destruct q; reflexivity.
      * rewrite FSFacts.find_put_other by congruence. now rewrite Hk.
  - intros Hval.
    destruct Hes' as [[_ Hr]|(keep & -> & _)]; [congruence|].
    exists keep. split.
      * rewrite FSFacts.lookup_app, Hd'. simpl.
        now rewrite FSFacts.find_put_same.
      * unfold _get_dir_size. rewrite Hd', Hout.
        assert (Hfk : FS.find (kept_entries es) default_file_name
                      = Some (File s (Some coll))).
        { rewrite (find_kept_entries es default_file_name Hnd), Hfile.
          reflexivity. }
        pose proof (tree_size_put (kept_entries es) default_file_name
                      (File (json_size keep) (Some keep)) _ Hfk) as Hput.
        pose proof (tree_size_prune (Dir es)) as Hp.
        rewrite prune_dir in Hp.
        change (map (fun e => (fst e, prune (snd e)))
                    (filter (fun e => negb (FS.is_empty_dir (snd e))) es))
          with (kept_entries es) in Hp.
        simpl FS.tree_size at 2 4 in Hput.
        rewrite <- Hp. exact Hput.
Qed.

Lemma cleanup_keeps_every_measured_size_witness :
  FS.lookup (disk (world_of one_empty_item)) ["data"]
    = Some (Dir one_empty_item)
  /\ wf (Dir one_empty_item)
  /\ (let d' := disk (fst (@_remove_empty_items steady ["data"]
                                                (world_of one_empty_item))) in
      _get_dir_size d' ["data"; "S2_0"] = 2048%N
      /\ _get_dir_size d' ["data"; "S2_1"] = 0%N).
Proof.
  assert (Hwf : wf (Dir one_empty_item)).
  { simpl. repeat split; repeat constructor; simpl; intuition discriminate. }
  split; [reflexivity|]. split; [exact Hwf|].
  destruct (@cleanup_keeps_every_measured_size
              steady ["data"] (world_of one_empty_item) one_empty_item
              1088%N (Sim.items 2) eq_refl Hwf eq_refl) as (Hsame & Hgone & _).
  cbv zeta. split.
  - apply (Hsame "S2_0"). discriminate.
  - apply (Hgone ["data"; "S2_1"]). now left.
Defined.

(* ------------------------------------------------------------------ *)
(** ** What [run] reports *)

Section Reported.

Context {C : Collaborators}.

Lemma from_file_val :
  forall p w w' items,
    from_file p w = (w', Val items) ->
    w' = w /\ exists s, FS.lookup (disk w) p = Some (File s (Some items)).
Proof.
  intros p w w' items H. unfold from_file, bind, get_disk in H.
  destruct (FS.lookup (disk w) p) as [[s [l|]|es]|]; try discriminate.
  inversion H. subst. split; [reflexivity | now exists s].
Qed.

Lemma attempt_val :
  forall fuel self i w w1 coll,
    attempt fuel self i w = (w1, Val coll) ->
    exists s,
      FS.lookup (disk w1) (out_dir self ++ [default_file_name])
        = Some (File s (Some coll)).
Proof.
  intros fuel self i w w1 coll H. unfold attempt in H.
  apply bind_val_inv in H. destruct H as (wa & [] & _ & H).
  apply bind_val_inv in H. destruct H as (wb & [] & _ & H).
  apply bind_val_inv in H. destruct H as (wc & [] & _ & H).
  apply from_file_val in H. destruct H as [-> H]. exact H.
Qed.

Lemma retry_loop_loaded :
  forall fuel self todo locals w w' locals',
    retry_loop fuel self todo locals w = (w', Val locals') ->
    loaded self w locals ->
    loaded self w' locals'.
Proof.
  intros fuel self. induction todo as [|i todo IH];
    intros locals w w' locals' H Hl.
  - simpl in H. inversion H. subst. exact Hl.
  - simpl in H.
    apply bind_val_inv in H. destruct H as (w1 & coll & Ha & H).
    apply bind_val_inv in H. destruct H as (w2 & ratio & Hd & H).
    apply true_div_val in Hd. destruct Hd as (-> & Hn & ->).
    apply attempt_val in Ha.
    assert (Hnow : loaded self w1
                     (Some (coll, Z.of_nat (length coll)
                                  # Pos.of_nat (length (item_coll self))))).
    { simpl. split; [exact Ha|]. split; [exact Hn | reflexivity]. }
    destruct (Qeq_bool _ 1).
    + inversion H. subst. exact Hnow.
    + apply bind_val_inv in H. destruct H as (w3 & [] & Hp & H).
      assert (Hw3 : disk w3 = disk w1).
      { destruct (_ <? _)%Z; unfold print, emit in Hp; inversion Hp;
          reflexivity. }
      apply IH in H; [exact H|].
      simpl. rewrite Hw3. exact Hnow.
Qed.

End Reported.

(** X5. What [run] reports is what is on the disk: when [run] returns, the
    output directory holds an item-collection.json, the reported number of
    downloaded items is the number of items that file lists, the reported
    ratio is that number over the number of requested items (of which there
    is at least one), and the last two lines printed are the two of the
    summary. *)
Theorem run_reports_what_is_on_disk :
  forall {C : Collaborators} (fuel : nat) (self : STACDownloader)
         (w w' : world) (got : nat) (ratio : Q),
    run fuel self w = (w', Val (got, ratio)) ->
    exists s coll t,
      FS.lookup (disk w') (out_dir self ++ [default_file_name])
        = Some (File s (Some coll))
      /\ got = length coll
      /\ item_coll self <> []
      /\ ratio = (Z.of_nat got # Pos.of_nat (length (item_coll self)))
      /\ trace w'
         = t ++ [Print (DownloadedItems got (length (item_coll self)));
                 Print (SuccessRate ratio)].
Proof.
  intros C fuel self w w' got ratio H.
  rewrite run_unfold in H.
  apply bind_val_inv in H. destruct H as (w1 & locals & Hloop & Hsum).
  apply retry_loop_loaded in Hloop; [|exact I].
  destruct locals as [[coll r]|]; [|discriminate].
  destruct Hloop as ((s & Hfile) & Hn & ->).
  unfold summary, bind, print, emit, ret in Hsum. simpl in Hsum.
  inversion Hsum. subst. simpl.
  exists s, coll, (trace w1). split; [exact Hfile|]. split; [reflexivity|].
  split; [intros E; now rewrite E in Hn|]. split; [reflexivity|].
  now rewrite <- app_assoc.
Qed.

Lemma run_reports_what_is_on_disk_witness :
  exists w' s coll t,
    @run second_try 1 three_items Sim.world0 = (w', Val (3, 3 # 3))
    /\ FS.lookup (disk w') ["data"; "item-collection.json"]
       = Some (File s (Some coll))
    /\ 3 = length coll
    /\ trace w' = t ++ [Print (DownloadedItems 3 3); Print (SuccessRate (3 # 3))].
Proof.
  assert (H : @run second_try 1 three_items Sim.world0
              = (fst (@run second_try 1 three_items Sim.world0), Val (3, 3 # 3)))
    by (vm_compute; reflexivity).
  destruct (@run_reports_what_is_on_disk second_try 1 three_items Sim.world0
              _ 3 (3 # 3) H) as (s & coll & t & Hf & Hl & _ & _ & Ht).
  exists (fst (@run second_try 1 three_items Sim.world0)), s, coll, t.
  split; [exact H|]. split; [exact Hf|]. split; [exact Hl | exact Ht].
Defined.

(* ------------------------------------------------------------------ *)
(** ** The batch loop at the edges of its parameters *)

Section Edges.

Context {C : Collaborators}.

Lemma download_batches_negative :
  forall fuel b coll directory file_name_of w,
    (b < 0)%Z ->
    download_batches fuel (Some b) coll directory file_name_of w = (w, Val tt).
Proof.
  intros fuel b coll directory file_name_of w Hb.
  assert (E0 : (b =? 0)%Z = false) by (apply Z.eqb_neq; lia).
  assert (E1 : (b <? 0)%Z = true) by (apply Z.ltb_lt; lia).
  unfold download_batches, Py.or_else. rewrite E0.
  unfold Py.range_step. rewrite E0, E1. reflexivity.
Qed.

Lemma download_batches_nothing_to_do :
  forall fuel b directory file_name_of w,
    (b <> 0)%Z ->
    download_batches fuel (Some b) [] directory file_name_of w = (w, Val tt).
Proof.
  intros fuel b directory file_name_of w Hb.
  destruct (Z_lt_ge_dec b 0) as [Hneg|Hpos];
    [now apply download_batches_negative|].
  unfold download_batches. rewrite or_else_positive by lia.
  rewrite range_step_positive by lia.
  simpl length. rewrite ceil_div_zero by lia. reflexivity.
Qed.

Lemma download_batches_zero_step :
  forall fuel rbs directory file_name_of w,
    rbs = None \/ rbs = Some 0%Z ->
    download_batches fuel rbs [] directory file_name_of w
      = (w, Raise ValueError).
Proof.
  intros fuel rbs directory file_name_of w [->| ->]; reflexivity.
Qed.

Lemma download_batches_zero :
  forall fuel coll directory file_name_of w,
    coll <> [] ->
    download_batches fuel (Some 0%Z) coll directory file_name_of w
      = bind (reauth fuel (Some 0%Z) coll)
             (fun batch => call_download batch directory (file_name_of 0)) w.
Proof.
  intros fuel coll directory file_name_of w Hne.
  assert (Hl : 1 <= length coll) by (destruct coll; [congruence | simpl; lia]).
  unfold download_batches. cbn [Py.or_else Z.eqb].
  rewrite range_step_positive by lia.
  rewrite Nat2Z.id, ceil_div_self by lia.
  cbn [Py.offsets for_each]. unfold Py.slice. cbn [skipn].
  rewrite firstn_all.
  unfold bind at 1.
  destruct (bind (reauth fuel (Some 0%Z) coll) _ w) as [w1 [[]|e|]];
    reflexivity.
Qed.

End Edges.

(** X6. The batch loop at the edges of [reauth_batch_size].  A negative
    size makes [range(0, N, size)] empty: nothing is signed or fetched and
    the loop returns as if all was done.  A size of 0 is not "disabled":
    [0 or N] is N, so a non-empty collection is one batch, and since 0 is
    not [None] that batch is signed before it is fetched, under the name of
    offset 0.  On an empty collection a positive size gives no batch, and
    [None] or 0 give a step of 0, for which [range] raises [ValueError]. *)
Theorem batch_size_edge_cases :
  forall {C : Collaborators} (fuel : nat) (coll : list Item)
         (directory : path) (file_name_of : nat -> string) (w : world),
    (forall b, (b < 0)%Z ->
       download_batches fuel (Some b) coll directory file_name_of w
         = (w, Val tt))
    /\ (forall signed,
          coll <> [] -> 0 < fuel ->
          sign_metadata (sign_calls w) coll = Some signed ->
          let r := download_item_collection (fetch_calls w) signed directory
                                            (file_name_of 0) (disk w) in
          download_batches fuel (Some 0%Z) coll directory file_name_of w
            = (mkWorld (fst r) (S (sign_calls w)) (S (fetch_calls w))
                       (trace w ++ [Sign coll true;
                                    Fetch signed directory (file_name_of 0)]),
               match snd r with
               | None => Val tt
               | Some e => Raise e
               end))
    /\ (coll = [] ->
        (forall b, (0 < b)%Z ->
           download_batches fuel (Some b) coll directory file_name_of w
             = (w, Val tt))
        /\ download_batches fuel None coll directory file_name_of w
           = (w, Raise ValueError)
        /\ download_batches fuel (Some 0%Z) coll directory file_name_of w
           = (w, Raise ValueError)).
Proof.
  intros C fuel coll directory file_name_of w. split; [|split].
  - intros b Hb. now apply download_batches_negative.
  - intros signed Hne Hfuel Hs r.
    rewrite download_batches_zero by exact Hne.
    destruct fuel as [|fuel]; [lia|].
    unfold reauth, bind. cbn [sign_loop]. unfold bind, call_sign.
    rewrite Hs. unfold ret. cbn [fst snd Nat.ltb Nat.leb].
    unfold call_download. cbn [disk sign_calls fetch_calls trace].
    subst r.
    destruct (download_item_collection (fetch_calls w) signed directory
                                       (file_name_of 0) (disk w))
      as [d' [e|]]; cbn [fst snd]; now rewrite <- app_assoc.
  - intros ->. split; [|split].
    + intros b Hb. apply download_batches_nothing_to_do. lia.
    + apply download_batches_zero_step. now left.
    + apply download_batches_zero_step. now right.
Qed.

Lemma batch_size_edge_cases_witness :
  @download_batches steady 1 (Some (-5)%Z) (Sim.items 3) ["data"]
                    batch_file_name Sim.world0
    = (Sim.world0, Val tt)
  /\ calls (trace (fst (@download_batches steady 1 (Some 0%Z) (Sim.items 3)
                                          ["data"] batch_file_name Sim.world0)))
     = [Signed (Sim.items 3); Fetched ["data"] "item-collection-batch-0.json"].
Proof.
  destruct (@batch_size_edge_cases steady 1 (Sim.items 3) ["data"]
                                   batch_file_name Sim.world0)
    as (Hneg & Hzero & _).
  split.
  - apply Hneg. lia.
  - rewrite (Hzero (Sim.items 3)); [reflexivity | discriminate | lia
                                    | reflexivity].
Defined.

(* ------------------------------------------------------------------ *)
(** ** A preview without a sample *)

Section FreshDirectory.

Import FS FSFacts.

Lemma remove_put_fresh :
  forall es name v,
    find es name = None -> remove_entry name (put_entry name v es) = es.
Proof.
  induction es as [|[k w] es IH]; intros name v H; simpl.
  - unfold remove_entry. simpl. now rewrite String.eqb_refl.
  - simpl in H. destruct (String.eqb name k) eqn:E; [discriminate|].
    unfold remove_entry. simpl. rewrite E. simpl. f_equal.
    now apply IH.
Qed.

Lemma mkdir_fresh :
  forall d parent name es,
    lookup d parent = Some (Dir es) ->
    find es name = None ->
    mkdir d (parent ++ [name])
      = Some (graft d parent (Dir (put_entry name (Dir []) es))).
Proof.
  intros d parent name es Hp Hn. unfold mkdir.
  rewrite (modify_at _ parent d name Hp). now rewrite Hn.
Qed.

Lemma rmtree_fresh :
  forall d parent name es sub,
    lookup d parent = Some (Dir es) ->
    find es name = None ->
    rmtree (graft d parent (Dir (put_entry name (Dir sub) es))) (parent ++ [name])
      = Some d.
Proof.
  intros d parent name es sub Hp Hn. unfold rmtree.
  rewrite (modify_at _ parent _ name (lookup_graft parent d _ Hp)).
  rewrite find_put_same. simpl.
  rewrite remove_put_fresh by exact Hn.
  rewrite (graft_graft parent d _ _ Hp).
  now rewrite (graft_same parent d Hp).
Qed.

Lemma cleanup_missing :
  forall d parent name es,
    lookup d parent = Some (Dir es) ->
    find es name = None ->
    cleanup d (parent ++ [name]) = d.
Proof.
  intros d parent name es Hp Hn. unfold cleanup, rmtree.
  rewrite (modify_at _ parent d name Hp). now rewrite Hn.
Qed.

Lemma lookup_missing_below :
  forall d parent name es q,
    lookup d parent = Some (Dir es) ->
    find es name = None ->
    lookup d (parent ++ name :: q) = None.
Proof.
  intros d parent name es q Hp Hn. rewrite lookup_app, Hp. simpl.
  now rewrite Hn.
Qed.

End FreshDirectory.

Section NoSample.

Context {C : Collaborators}.

Lemma printed_printed :
  forall w a b, printed (printed w a) b = printed w (a ++ b).
Proof.
  intros w a b. unfold printed. simpl. now rewrite map_app, app_assoc.
Qed.

Lemma with_disk_printed :
  forall w lines, with_disk (printed w lines) (disk w) = printed w lines.
Proof. reflexivity. Qed.

Lemma print_printed :
  forall l w, print l w = (printed w [l], Val tt).
Proof. reflexivity. Qed.

(** The cleanup of a scratch directory that holds nothing: the directory
    itself is the one empty directory found, it is removed, and the load of
    its item collection fails. *)
Lemma remove_empty_items_of_nothing :
  forall w d parent name es,
    FS.lookup d parent = Some (Dir es) ->
    FS.find es name = None ->
    disk w = graft d parent (Dir (FS.put_entry name (Dir []) es)) ->
    _remove_empty_items (parent ++ [name]) w = (with_disk w d, Raise OSError).
Proof.
  intros w d parent name es Hp Hn Hw.
  assert (Hl : FS.lookup (disk w) (parent ++ [name]) = Some (Dir [])).
  { rewrite Hw. rewrite (FSFacts.lookup_graft_below parent [name] d _ Hp).
    simpl. now rewrite FSFacts.find_put_same. }
  unfold _remove_empty_items. unfold bind at 1. unfold get_disk.
  unfold _find_empty_subdirs. rewrite Hl. cbn [walk_empty FS.is_empty_dir
    map filter flat_map app for_each].
  unfold bind at 1. unfold bind at 1.
  rewrite (disk_op_ok (fun d0 => FS.rmtree d0 (parent ++ [name])) w (d' := d))
    by (rewrite Hw; now apply rmtree_fresh).
  cbn [ret]. unfold bind at 1. unfold from_file, bind, get_disk.
  cbn [disk with_disk].
  rewrite <- app_assoc. cbn [app].
  now rewrite (lookup_missing_below d parent name es _ Hp Hn).
Qed.

End NoSample.

(** X7. A preview that fetches nothing makes the attempt fail.  When
    [preview_size] is 0 (the sample is empty) or [reauth_batch_size] is
    negative (the batch loop of the preview is empty), the preview still
    runs, its scratch directory stays empty, the cleanup takes the scratch
    directory itself for an empty item directory and removes it, and the
    load of its item collection raises ([OSError]; with the sample empty and
    the batch size [None] or 0 the batch loop raises [ValueError] before
    that).  [_async_download] and [run] raise the same before anything is
    signed or fetched, and the disk is as it was. *)
Theorem preview_without_sample_fails :
  forall {C : Collaborators} (fuel : nat) (self : STACDownloader) (w : world)
         (parent : path) (name : string) (es : dir),
    temp_dir = parent ++ [name] ->
    FS.lookup (disk w) parent = Some (Dir es) ->
    FS.find es name = None ->
    (0 <= preview_size self <= Z.of_nat (length (item_coll self)))%Z ->
    (preview_size self = 0%Z /\ choice (item_coll self) 0 = []
     \/ exists b, reauth_batch_size self = Some b /\ (b < 0)%Z) ->
    let e := match reauth_batch_size self with
             | Some b => if (b =? 0)%Z then ValueError else OSError
             | None => ValueError
             end in
    preview_run fuel self w = (printed w [EstimatingSize], Raise e)
    /\ _async_download fuel self w = (printed w [EstimatingSize], Raise e)
    /\ ((1 <= retries self)%Z ->
        run fuel self w
          = (printed w [DownloadLoop 0; EstimatingSize], Raise e)).
Proof.
  intros C fuel self w parent name es Htemp Hp Hn Hsize Hcase e.
  assert (Hpre : forall w0 : world,
             disk w0 = disk w ->
             preview_run fuel self w0 = (printed w0 [EstimatingSize], Raise e)).
  { intros w0 Hw0. rewrite <- Hw0 in Hp.
    unfold preview_run.
    replace (Z.of_nat (length (item_coll self)) >=? preview_size self)%Z
      with true by (symmetry; apply Z.geb_le; lia).
    unfold bind at 1. rewrite print_printed.
    set (w1 := printed w0 [EstimatingSize]).
    set (d1 := graft (disk w0) parent (Dir (FS.put_entry name (Dir []) es))).
    unfold bind at 1.
    rewrite (disk_op_ok (fun d => FS.mkdir d temp_dir) w1 (d' := d1))
      by (rewrite Htemp; now apply mkdir_fresh).
    unfold finally.
    replace (preview_size self <? 0)%Z with false
      by (symmetry; apply Z.ltb_ge; lia).
    unfold bind at 1. cbn [ret].
    assert (Hbody :
              forall k : unit -> M unit,
                exists w2,
                  bind (download_batches fuel (reauth_batch_size self)
                          (choice (item_coll self)
                                  (Z.to_nat (preview_size self)))
                          temp_dir (fun _ => default_file_name))
                       (fun _ => bind (_remove_empty_items temp_dir) k)
                       (with_disk w1 d1)
                  = (with_disk w1 (disk w2), Raise e)
                  /\ FS.cleanup (disk w2) temp_dir = disk w0).
    { intros k.
      assert (Hclean :
                bind (_remove_empty_items temp_dir) k (with_disk w1 d1)
                = (with_disk w1 (disk w0), Raise OSError)).
      { unfold bind. rewrite Htemp.
        rewrite (remove_empty_items_of_nothing (with_disk w1 d1) (disk w0)
                   parent name es Hp Hn eq_refl).
        reflexivity. }
      assert (Hgone : FS.cleanup (disk w0) temp_dir = disk w0)
        by (rewrite Htemp; eapply cleanup_missing; eassumption).
      assert (Hthere : FS.cleanup d1 temp_dir = disk w0).
      { unfold FS.cleanup. rewrite Htemp. unfold d1.
        now rewrite (rmtree_fresh (disk w0) parent name es [] Hp Hn). }
      destruct Hcase as [[Hzero Hchoice]|(b & Hb & Hneg)].
      - rewrite Hzero. cbn [Z.to_nat]. rewrite Hchoice.
        subst e. destruct (reauth_batch_size self) as [b|] eqn:Eb.
        + destruct (Z.eqb_spec b 0) as [->|Hb0].
          * exists (with_disk w1 d1). unfold bind at 1.
            rewrite download_batches_zero_step by now right.
            split; [reflexivity | exact Hthere].
          * exists w0. unfold bind at 1.
            rewrite download_batches_nothing_to_do by exact Hb0.
            split; [exact Hclean | exact Hgone].
        + exists (with_disk w1 d1). unfold bind at 1.
          rewrite download_batches_zero_step by now left.
          split; [reflexivity | exact Hthere].
      - subst e. rewrite Hb.
        replace (b =? 0)%Z with false by (symmetry; apply Z.eqb_neq; lia).
        exists w0. unfold bind at 1.
        rewrite download_batches_negative by exact Hneg.
        split; [exact Hclean | exact Hgone]. }
    match goal with
    | |- context [bind (download_batches _ _ _ _ _)
                       (fun _ => bind (_remove_empty_items _) ?k)] =>
        destruct (Hbody k) as (w2 & -> & Hc)
    end.
    unfold disk_op, bind, get_disk, set_disk. cbn [disk with_disk].
    rewrite Hc. subst w1. unfold printed. cbn. reflexivity. }
  assert (Hasync : forall w0 : world,
             disk w0 = disk w ->
             _async_download fuel self w0
               = (printed w0 [EstimatingSize], Raise e)).
  { intros w0 Hw0. unfold _async_download.
    apply bind_raise. now apply Hpre. }
  split; [now apply Hpre|]. split; [now apply Hasync|].
  intros Hr. unfold run, Py.range.
  destruct (Z.to_nat (retries self)) as [|n] eqn:En; [lia|].
  cbn [seq retry_loop].
  apply bind_raise. apply bind_raise. unfold attempt.
  unfold bind at 1. rewrite print_printed.
  apply bind_raise. rewrite Hasync by reflexivity.
  now rewrite printed_printed.
Qed.

Lemma preview_without_sample_fails_witness :
  @temp_dir steady = ["tmp"] ++ ["preview"]
  /\ FS.lookup (disk Sim.world0) ["tmp"] = Some (Dir [])
  /\ (0 <= preview_size no_sample
      <= Z.of_nat (length (item_coll no_sample)))%Z
  /\ @run steady 1 no_sample Sim.world0
     = (printed Sim.world0 [DownloadLoop 0; EstimatingSize], Raise OSError).
Proof.
  assert (Hsize : (0 <= preview_size no_sample
                   <= Z.of_nat (length (item_coll no_sample)))%Z)
    by (simpl; lia).
  split; [reflexivity|]. split; [reflexivity|]. split; [exact Hsize|].
  apply (@preview_without_sample_fails steady 1 no_sample Sim.world0
           ["tmp"] "preview" [] eq_refl eq_refl eq_refl Hsize).
  - left. split; reflexivity.
  - simpl. lia.
Defined.

(* ------------------------------------------------------------------ *)
(** ** Grouping by collection *)

Section Grouping.

Lemma before_trans : forall a b c, before a b -> before b c -> before a c.
Proof.
  unfold before. intros a b c Hab Hbc.
  apply OrderedTypeEx.String_as_OT.cmp_lt.
  apply OrderedTypeEx.String_as_OT.cmp_lt in Hab, Hbc.
  eapply OrderedTypeEx.String_as_OT.lt_trans; eassumption.
Qed.

Lemma before_flip : forall a b, String.compare a b = Gt -> before b a.
Proof.
  unfold before. intros a b H. rewrite String.compare_antisym, H. reflexivity.
Qed.

Lemma before_irrefl : forall a, ~ before a a.
Proof.
  unfold before. intros a H.
  pose proof (String.compare_antisym a a) as E. rewrite H in E. discriminate.
Qed.

Lemma in_insert_key :
  forall k keys x, In x (insert_key k keys) <-> x = k \/ In x keys.
Proof.
  intros k keys x. induction keys as [|h t IH]; simpl.
  - intuition.
  - destruct (String.compare k h) eqn:E.
    + apply String.compare_eq_iff in E. subst h. simpl. intuition.
    + simpl. intuition.
    + simpl. rewrite IH. intuition.
Qed.

Lemma sorted_insert_key :
  forall k keys,
    StronglySorted before keys -> StronglySorted before (insert_key k keys).
Proof.
  intros k keys H. induction H as [|h t Ht IH Hall]; simpl.
  - constructor; constructor.
  - destruct (String.compare k h) eqn:E.
    + now constructor.
    + constructor; [now constructor|].
      constructor; [exact E|].
      rewrite Forall_forall in *. intros x Hx.
      apply before_trans with h; [exact E | now apply Hall].
    + constructor; [exact IH|].
      rewrite Forall_forall in *. intros x Hx.
      apply in_insert_key in Hx. destruct Hx as [->|Hx];
        [now apply before_flip | now apply Hall].
Qed.

Lemma group_keys_spec :
  forall colls,
    StronglySorted before (group_keys colls)
    /\ forall k, In k (group_keys colls) <-> In k colls.
Proof.
  induction colls as [|c colls [Hs Hin]]; simpl.
  - split; [constructor | tauto].
  - split; [now apply sorted_insert_key|].
    intros k. rewrite in_insert_key, Hin. intuition.
Qed.

Lemma sorted_nodup :
  forall keys, StronglySorted before keys -> NoDup keys.
Proof.
  intros keys H. induction H as [|h t Ht IH Hall]; constructor; [|exact IH].
  intros Hin. rewrite Forall_forall in Hall.
  exact (before_irrefl h (Hall h Hin)).
Qed.

Lemma filter_map_comm :
  forall A B (h : A -> B) (p : B -> bool) l,
    filter p (map h l) = map h (filter (fun x => p (h x)) l).
Proof.
  intros A B h p. induction l as [|x l IH]; simpl; [reflexivity|].
  destruct (p (h x)); simpl; now rewrite IH.
Qed.

Lemma flat_map_map :
  forall A B D (h : A -> B) (f : B -> list D) l,
    flat_map f (map h l) = flat_map (fun x => f (h x)) l.
Proof.
  intros A B D h f. induction l as [|x l IH]; simpl; [reflexivity|].
  now rewrite IH.
Qed.

(** The items at the positions whose collection is [k] are the items whose
    collection is [k], in their order. *)
Lemma row_items_filter :
  forall (k : string) (l : list Item),
    row_items l (filter (fun i => String.eqb (nth i (map collection l) "") k)
                        (seq 0 (length (map collection l))))
      = filter (fun x => String.eqb (collection x) k) l.
Proof.
  intros k. unfold row_items. induction l as [|x l IH]; [reflexivity|].
  cbn [map length seq]. rewrite <- seq_shift.
  cbn [filter nth]. rewrite filter_map_comm.
  destruct (String.eqb (collection x) k).
  - cbn [flat_map nth_error app]. f_equal.
    rewrite flat_map_map. exact IH.
  - rewrite flat_map_map. exact IH.
Qed.

Lemma filter_split :
  forall A (f : A -> bool) l,
    Permutation (filter f l ++ filter (fun x => negb (f x)) l) l.
Proof.
  intros A f. induction l as [|x l IH]; simpl; [constructor|].
  destruct (f x); simpl.
  - now constructor.
  - eapply Permutation_trans; [apply Permutation_sym, Permutation_middle|].
    now constructor.
Qed.

Lemma partition_by_key :
  forall keys (l : list Item),
    NoDup keys ->
    (forall x, In x l -> In (collection x) keys) ->
    Permutation
      (flat_map (fun k => filter (fun x => String.eqb (collection x) k) l) keys)
      l.
Proof.
  induction keys as [|k keys IH]; intros l Hnd Hin.
  - destruct l as [|x l]; [constructor|]. destruct (Hin x (or_introl eq_refl)).
  - inversion Hnd as [|? ? Hk Hnd']. subst. cbn [flat_map].
    set (rest := filter (fun x => negb (String.eqb (collection x) k)) l).
    eapply Permutation_trans; [|apply filter_split with
                                  (f := fun x => String.eqb (collection x) k)].
    apply Permutation_app_head. fold rest.
    rewrite (flat_map_ext_in
               (fun k' => filter (fun x => String.eqb (collection x) k') l)
               (fun k' => filter (fun x => String.eqb (collection x) k') rest)).
    + apply IH; [exact Hnd'|]. intros x Hx. unfold rest in Hx.
      apply filter_In in Hx. destruct Hx as [Hx Hne].
      destruct (Hin x Hx) as [E|H]; [|exact H].
      cbn beta in Hne. rewrite <- E, String.eqb_refl in Hne. discriminate.
    + intros k' Hk'. unfold rest. rewrite filter_filter.
      apply filter_ext. intros x.
      destruct (String.eqb_spec (collection x) k') as [->|Hne];
        [|now rewrite andb_false_r].
      destruct (String.eqb_spec k' k) as [->|_]; [contradiction | reflexivity].
Qed.

End Grouping.

(** X8. The grouped download hands every item to exactly one collection:
    [grouped_df] has one row per collection id, the ids in ascending order
    without repeats; the items of a row are the items of that collection, in
    the order of the input, and there is at least one; every item's
    collection has a row; and the rows together hold the items of the input,
    each as often as the input does. *)
Theorem grouping_partitions_the_items :
  forall item_coll : list Item,
    let rows := grouped_df item_coll in
    StronglySorted (fun a b => String.compare a b = Lt) (map fst rows)
    /\ NoDup (map fst rows)
    /\ (forall k index,
          In (k, index) rows ->
          row_items item_coll index
            = filter (fun x => String.eqb (collection x) k) item_coll
          /\ row_items item_coll index <> [])
    /\ (forall x, In x item_coll -> In (collection x) (map fst rows))
    /\ Permutation (flat_map (fun r => row_items item_coll (snd r)) rows)
                   item_coll.
Proof.
  intros item_coll rows.
  destruct (group_keys_spec (map collection item_coll)) as [Hs Hin].
  assert (Hkeys : map fst rows = group_keys (map collection item_coll)).
  { unfold rows, grouped_df. rewrite map_map. cbn [fst]. apply map_id. }
  assert (Hrow : forall k index,
             In (k, index) rows ->
             row_items item_coll index
               = filter (fun x => String.eqb (collection x) k) item_coll).
  { intros k index H. unfold rows, grouped_df in H.
    apply in_map_iff in H. destruct H as (k' & E & _).
    inversion E. subst. apply row_items_filter. }
  rewrite Hkeys. split; [exact Hs|]. split; [now apply sorted_nodup|].
  split; [|split].
  - intros k index H. split; [now apply Hrow|].
    rewrite (Hrow k index H).
    assert (Hk : In k (map collection item_coll)).
    { apply Hin. rewrite <- Hkeys. apply in_map_iff.
      now exists (k, index). }
    apply in_map_iff in Hk. destruct Hk as (x & <- & Hx).
    intros E.
    assert (Hf : In x (filter (fun y => String.eqb (collection y) (collection x))
                               item_coll))
      by (apply filter_In; split; [exact Hx | apply String.eqb_refl]).
    rewrite E in Hf. contradiction.
  - intros x Hx. apply Hin. now apply in_map.
  - assert (E : flat_map (fun r => row_items item_coll (snd r)) rows
                = flat_map (fun k => filter (fun x => String.eqb (collection x) k)
                                            item_coll)
                           (group_keys (map collection item_coll))).
    { unfold rows, grouped_df. rewrite flat_map_map. cbn [snd].
      apply flat_map_ext. intros k. apply row_items_filter. }
    rewrite E. apply partition_by_key; [now apply sorted_nodup|].
    intros x Hx. apply Hin. now apply in_map.
Qed.

(* ------------------------------------------------------------------ *)
(** ** The catalog *)

Section CatalogFacts.

Import FS FSFacts.

Lemma graft_app :
  forall p q d m v,
    lookup d p = Some m -> graft d (p ++ q) v = graft d p (graft m q v).
Proof.
  induction p as [|name p IH]; intros q d m v H.
  - simpl in H. inversion H. reflexivity.
  - destruct d as [s b|es]; [discriminate|].
    simpl in H. simpl. destruct (find es name) as [c|]; [|discriminate].
    now rewrite (IH q c m v H).
Qed.

Lemma graft_child :
  forall out d m pre k v rest v',
    lookup d out = Some m ->
    ~ In k (map fst pre) ->
    graft (graft d out (Dir (pre ++ (k, v) :: rest))) (out ++ [k]) v'
      = graft d out (Dir (pre ++ (k, v') :: rest)).
Proof.
  intros out d m pre k v rest v' Hm Hk.
  rewrite (graft_app out [k] _ _ v' (lookup_graft out d _ Hm)).
  simpl. rewrite (find_middle pre rest k v Hk).
  rewrite (put_entry_middle pre rest k v v' Hk).
  now rewrite (graft_graft out d _ _ Hm).
Qed.

Lemma remove_entry_absent :
  forall es name, find es name = None -> remove_entry name es = es.
Proof.
  intros es name H. unfold remove_entry. apply filter_names_id.
  now apply find_none_not_in.
Qed.

Lemma remove_at :
  forall d p sub s b,
    lookup d p = Some (Dir sub) ->
    find sub default_file_name = Some (File s b) ->
    remove d (p ++ [default_file_name])
      = Some (graft d p (Dir (remove_entry default_file_name sub))).
Proof.
  intros d p sub s b Hp Hf. unfold remove.
  rewrite (modify_at _ p d default_file_name Hp). now rewrite Hf.
Qed.

Lemma dirs_of_app : forall a b, dirs_of (a ++ b) = dirs_of a ++ dirs_of b.
Proof. intros. unfold dirs_of. now rewrite filter_app, map_app. Qed.

Lemma listed_dirs :
  forall d out es,
    lookup d out = Some (Dir es) ->
    NoDup (map fst es) ->
    filter (fun name => OS.path_isdir d (out ++ [name])) (map fst es)
      = dirs_of es.
Proof.
  intros d out es Hout Hnd. unfold dirs_of.
  rewrite filter_map_comm. f_equal.
  apply filter_ext_in. intros [k v] Hin. cbn [fst snd].
  unfold OS.path_isdir. rewrite lookup_app, Hout. simpl.
  now rewrite (find_in_nodup es k v Hnd Hin).
Qed.

End CatalogFacts.

Section CatalogLoop.

Context {C : Collaborators} {Shape : Type} {Sh : Shapely Shape}.

Lemma create_full_extent_some :
  forall items, items <> [] -> exists extent, _create_full_extent items = Val extent.
Proof.
  intros [|x items] H; [congruence|]. unfold _create_full_extent.
  simpl. eexists. reflexivity.
Qed.

Lemma collection_of_some :
  forall name items extent,
    _create_full_extent items = Val extent ->
    collection_of name items
      = [mkCollection name ("Collection for " ++ name)%string extent items].
Proof. intros name items extent H. unfold collection_of. now rewrite H. Qed.

(** One item collection that lists an item, loaded from the directory
    [p]: the collection is added and the file removed. *)
Lemma load_and_add :
  forall out catalog p coll_path sub s items w,
    FS.lookup (disk w) p = Some (Dir sub) ->
    FS.find sub default_file_name = Some (File s (Some items)) ->
    items <> [] ->
    Downloader._load_and_add_collection (p ++ [default_file_name]) out
                                        catalog coll_path w
      = (with_disk w (graft (disk w) p
                            (Dir (FS.remove_entry default_file_name sub))),
         Val (mkCatalog (catalog_id catalog) (catalog_description catalog)
                        (children catalog
                         ++ collection_of (FS.basename coll_path) items))).
Proof.
  intros out catalog p coll_path sub s items w Hp Hf Hne.
  assert (Hl : FS.lookup (disk w) (p ++ [default_file_name])
               = Some (File s (Some items))).
  { rewrite FSFacts.lookup_app, Hp. simpl. now rewrite Hf. }
  unfold Downloader._load_and_add_collection.
  unfold bind at 1. rewrite (from_file_ok _ w Hl).
  destruct (create_full_extent_some items Hne) as (extent & E).
  rewrite E. unfold bind.
  rewrite (disk_op_ok _ w (remove_at (disk w) p sub s (Some items) Hp Hf)).
  rewrite (collection_of_some _ items extent E). reflexivity.
Qed.

(** An item collection that lists nothing: the extent cannot be computed,
    and the file stays. *)
Lemma load_and_add_nothing :
  forall out catalog p coll_path s w,
    FS.lookup (disk w) p = Some (File s (Some [])) ->
    Downloader._load_and_add_collection p out catalog coll_path w
      = (w, Raise ValueError).
Proof.
  intros out catalog p coll_path s w Hl.
  unfold Downloader._load_and_add_collection.
  unfold bind at 1. rewrite (from_file_ok _ w Hl). reflexivity.
Qed.

Lemma add_collections_app :
  forall out a b catalog w,
    Downloader.add_collections out (a ++ b) catalog w
      = bind (Downloader.add_collections out a catalog)
             (fun c => Downloader.add_collections out b c) w.
Proof.
  intros out a. induction a as [|k a IH]; intros b catalog w; [reflexivity|].
  cbn [app Downloader.add_collections]. unfold bind, get_disk.
  destruct (OS.path_exists (disk w) (out ++ [k; default_file_name])).
  - destruct (Downloader._load_and_add_collection _ _ _ _ w)
      as [w1 [c|e|]]; [|reflexivity|reflexivity].
    rewrite IH. reflexivity.
  - unfold ret. rewrite IH. reflexivity.
Qed.

Lemma add_collections_loadable :
  forall out d m suf pre tail catalog w,
    FS.lookup d out = Some m ->
    disk w = graft d out (Dir (pre ++ suf ++ tail)) ->
    NoDup (map fst (pre ++ suf ++ tail)) ->
    Forall loadable suf ->
    Downloader.add_collections out (dirs_of suf) catalog w
      = (with_disk w (graft d out (Dir (pre ++ map consumed suf ++ tail))),
         Val (mkCatalog (catalog_id catalog) (catalog_description catalog)
                        (children catalog ++ collections_of suf))).
Proof.
  intros out d m. induction suf as [|[k v] suf IH];
    intros pre tail catalog w Hm Hw Hnd Hok.
  - simpl in Hw |- *. unfold ret. rewrite <- Hw, with_disk_disk, app_nil_r.
    now destruct catalog.
  - inversion Hok as [|? ? Hk Hok']. subst.
    cbn [app map] in Hw, Hnd |- *.
    assert (Hre : forall (e : string * node) (l : dir),
               pre ++ e :: l ++ tail = (pre ++ [e]) ++ l ++ tail)
      by (intros; now rewrite <- app_assoc).
    assert (Hnames : forall v', map fst ((pre ++ [(k, v')]) ++ suf ++ tail)
                                = map fst (pre ++ (k, v) :: suf ++ tail)).
    { intros v'. rewrite <- app_assoc. rewrite !map_app. cbn [app map fst].
      now rewrite !map_app. }
    assert (Hfresh : ~ In k (map fst pre))
      by (now apply (nodup_middle pre (suf ++ tail) (k, v)) in Hnd).
    destruct v as [s b|sub].
    + unfold dirs_of. cbn [filter FS.is_dir snd]. fold (dirs_of suf).
      cbn [collections_of flat_map snd app]. fold (collections_of suf).
      unfold consumed at 1. cbn [snd]. rewrite Hre.
      apply IH; [exact Hm | now rewrite <- Hre | now rewrite Hnames
                 | exact Hok'].
    + assert (Hdir : FS.lookup (disk w) (out ++ [k]) = Some (Dir sub)).
      { rewrite Hw. rewrite (FSFacts.lookup_graft_below out [k] d _ Hm).
        simpl. now rewrite (find_middle pre (suf ++ tail) k (Dir sub) Hfresh). }
      unfold dirs_of. cbn [filter FS.is_dir map fst snd].
      fold (dirs_of suf). cbn [Downloader.add_collections].
      unfold bind at 1. unfold get_disk. unfold bind at 1.
      unfold OS.path_exists.
      replace (out ++ [k; default_file_name])
        with ((out ++ [k]) ++ [default_file_name])
        by (now rewrite <- app_assoc).
      rewrite FSFacts.lookup_app, Hdir. cbn [FS.lookup].
      unfold loadable in Hk. cbn [snd] in Hk.
      cbn [collections_of flat_map snd fst]. fold (collections_of suf).
      unfold consumed at 1. cbn [snd fst].
      destruct (FS.find sub default_file_name) as [n|] eqn:Ef.
      * destruct Hk as (s & items & -> & Hne).
        rewrite (load_and_add out catalog (out ++ [k]) (out ++ [k]) sub s items w
                              Hdir Ef Hne).
        rewrite (basename_under out [k]) by discriminate.
        cbn [FS.basename last items_of].
        rewrite (IH (pre ++ [(k, Dir (FS.remove_entry default_file_name sub))])
                    tail).
        -- cbn [with_disk disk sign_calls fetch_calls trace catalog_id
                  catalog_description children].
           rewrite <- Hre. now rewrite <- app_assoc.
        -- exact Hm.
        -- cbn [disk with_disk]. rewrite Hw, <- Hre.
           now apply graft_child with (m := m).
        -- now rewrite Hnames.
        -- exact Hok'.
      * unfold ret.
        rewrite (IH (pre ++ [(k, Dir sub)]) tail);
          [| exact Hm | now rewrite <- Hre | now rewrite Hnames | exact Hok'].
        rewrite (remove_entry_absent sub default_file_name Ef).
        now rewrite <- Hre.
Qed.

Lemma loadable_rest :
  forall es, Forall loadable es ->
             Forall loadable (FS.remove_entry default_file_name es).
Proof.
  intros es H. rewrite Forall_forall in *. intros e He.
  unfold FS.remove_entry in He. apply filter_In in He. now apply H.
Qed.

(** The catalog after the item collection of the root directory. *)
Lemma gather_root :
  forall out name desc w es,
    FS.lookup (disk w) out = Some (Dir es) ->
    loadable (""%string, Dir es) ->
    let catalog := mkCatalog name desc [] in
    (if OS.path_exists (disk w) (out ++ [default_file_name])
     then Downloader._load_and_add_collection (out ++ [default_file_name]) out
            catalog []
     else ret catalog) w
    = (with_disk w (graft (disk w) out
                          (Dir (FS.remove_entry default_file_name es))),
       Val (mkCatalog name desc
              match FS.find es default_file_name with
              | Some n => collection_of ""%string (items_of n)
              | None => []
              end)).
Proof.
  intros out name desc w es Hout Hroot catalog.
  unfold OS.path_exists. rewrite FSFacts.lookup_app, Hout. cbn [FS.lookup].
  unfold loadable in Hroot. cbn [snd] in Hroot.
  destruct (FS.find es default_file_name) as [n|] eqn:Ef.
  - destruct Hroot as (s & items & -> & Hne).
    rewrite (load_and_add out catalog out [] es s items w Hout Ef Hne).
    reflexivity.
  - unfold ret. rewrite (remove_entry_absent es default_file_name Ef).
    now rewrite (FSFacts.graft_same out (disk w) Hout), with_disk_disk.
Qed.

Lemma gather_loadable :
  forall out name desc w es,
    FS.lookup (disk w) out = Some (Dir es) ->
    NoDup (map fst es) ->
    loadable (""%string, Dir es) ->
    Forall loadable es ->
    let rest := FS.remove_entry default_file_name es in
    let root := match FS.find es default_file_name with
                | Some n => collection_of ""%string (items_of n)
                | None => []
                end in
    Downloader.gather out name desc w
      = (with_disk w (graft (disk w) out (Dir (map consumed rest))),
         Val (mkCatalog name desc (root ++ collections_of rest))).
Proof.
  intros out name desc w es Hout Hnd Hroot Hok rest root.
  unfold Downloader.gather. unfold bind at 1. unfold get_disk.
  unfold bind at 1.
  rewrite (gather_root out name desc w es Hout Hroot). fold rest root.
  set (w1 := with_disk w (graft (disk w) out (Dir rest))).
  assert (H1 : FS.lookup (disk w1) out = Some (Dir rest))
    by (apply (FSFacts.lookup_graft out (disk w) _ Hout)).
  assert (Hnd1 : NoDup (map fst rest))
    by (unfold rest, FS.remove_entry; now apply nodup_names_filter).
  unfold bind at 1. unfold os_listdir, bind, get_disk, FS.listdir.
  rewrite H1. cbn [ret].
  rewrite (listed_dirs (disk w1) out rest H1 Hnd1).
  rewrite (add_collections_loadable out (disk w) (Dir es) rest [] []
             (mkCatalog name desc root) w1 Hout);
    [| now rewrite app_nil_r | now rewrite app_nil_r
     | now apply loadable_rest].
  cbn [app catalog_id catalog_description children].
  rewrite app_nil_r. reflexivity.
Qed.

Lemma map_fst_consumed : forall es, map fst (map consumed es) = map fst es.
Proof.
  intros es. rewrite map_map. apply map_ext. intros [k [s b|sub]]; reflexivity.
Qed.

Lemma find_consumed :
  forall es k,
    FS.find (map consumed es) k
      = option_map (fun v => snd (consumed (k, v))) (FS.find es k).
Proof.
  induction es as [|[k' v] es IH]; intros k; [reflexivity|].
  cbn [map FS.find].
  replace (fst (consumed (k', v))) with k' by (destruct v; reflexivity).
  assert (E : consumed (k', v) = (k', snd (consumed (k', v))))
    by (destruct v; reflexivity).
  rewrite E. cbn [FS.find]. destruct (String.eqb_spec k k') as [->|Hne].
  - reflexivity.
  - apply IH.
Qed.

Lemma nothing_left :
  forall es k,
    FS.lookup (Dir (map consumed es)) [k; default_file_name] = None.
Proof.
  intros es k. cbn [FS.lookup]. rewrite find_consumed.
  destruct (FS.find es k) as [[s b|sub]|]; cbn [option_map consumed snd];
    try reflexivity.
  unfold FS.remove_entry.
  rewrite (FSFacts.find_filter
             (fun name => negb (String.eqb default_file_name name)) sub).
  now rewrite String.eqb_refl.
Qed.

End CatalogLoop.

(** X9. The catalog is made of the item collections found: on an output
    directory whose item collections each list at least one item,
    [_create_and_save_catalog] hands pystac one catalog, named as asked,
    whose collections are, in this order, the one of the root directory's
    own item-collection.json (with the empty string for its id, the base
    name of the empty path) and one for every subdirectory that holds an
    item-collection.json, in the order the subdirectories are listed, with
    the directory name for id, "Collection for <id>" for description, the
    items of the file and their extent.  Every item-collection.json that
    was read is removed, and nothing else on the disk is changed before the
    catalog is saved. *)
Theorem catalog_collects_the_item_collections :
  forall {Shape : Type} {Sh : Shapely Shape} {P : Pystac}
         (out : path) (name desc : string) (s : session) (es : dir),
    FS.lookup (disk (inner s)) out = Some (Dir es) ->
    NoDup (map fst es) ->
    loadable (""%string, Dir es) ->
    Forall loadable es ->
    let rest := FS.remove_entry default_file_name es in
    let root := match FS.find es default_file_name with
                | Some n => collection_of ""%string (items_of n)
                | None => []
                end in
    let catalog := mkCatalog name desc (root ++ collections_of rest) in
    let d1 := graft (disk (inner s)) out (Dir (map consumed rest)) in
    let r := save_catalog (length (saved s)) catalog out d1 in
    Downloader.gather out name desc (inner s)
      = (with_disk (inner s) d1, Val catalog)
    /\ Downloader._create_and_save_catalog out name desc s
       = (mkSession (with_disk (inner s) (fst r)) (console s)
                    (saved s ++ [(catalog, out)]),
          match snd r with
          | None => Val tt
          | Some e => Raise e
          end)
    /\ FS.lookup d1 (out ++ [default_file_name]) = None
    /\ (forall k, FS.lookup d1 (out ++ [k; default_file_name]) = None).
Proof.
  intros Shape Sh P out name desc s es Hout Hnd Hroot Hok
         rest root catalog d1 r.
  assert (Hg : Downloader.gather out name desc (inner s)
               = (with_disk (inner s) d1, Val catalog))
    by (now apply gather_loadable).
  split; [exact Hg|]. split; [|split].
  - unfold Downloader._create_and_save_catalog, obind, lift.
    rewrite Hg. unfold Downloader.call_save. cbn [inner saved console].
    cbn [disk with_disk]. fold r.
    destruct r as [d' [e|]]; cbn [fst snd];
      now rewrite with_disk_twice.
  - unfold d1. rewrite (FSFacts.lookup_graft_below out _ _ _ Hout).
    cbn [FS.lookup]. rewrite find_consumed.
    unfold rest, FS.remove_entry.
    rewrite (FSFacts.find_filter
               (fun name => negb (String.eqb default_file_name name)) es).
    now rewrite String.eqb_refl.
  - intros k. unfold d1. rewrite (FSFacts.lookup_graft_below out _ _ _ Hout).
    apply nothing_left.
Qed.

Lemma catalog_collects_the_item_collections_witness :
  let s := mkSession (world_of grouped_output) [] [] in
  FS.lookup (disk (inner s)) ["data"] = Some (Dir grouped_output)
  /\ NoDup (map fst grouped_output)
  /\ Forall loadable grouped_output
  /\ exists catalog d',
       fst (@Downloader._create_and_save_catalog
              Vertices.Shape Vertices.shapely writes_catalog
              ["data"] "root_catalog" "Root catalog" s)
         = mkSession (with_disk (world_of grouped_output) d') []
                     [(catalog, ["data"])]
       /\ map collection_id (children catalog)
          = ["sentinel-2-l2a"; "landsat-c2-l2"]
       /\ map collection_extent (children catalog)
          = [mkExtent [(0, 0, 1, 1)%Z] [(20, 20)%Z];
             mkExtent [(1, 1, 3, 3)%Z] [(10, 30)%Z]]
       /\ FS.lookup d' ["data"; "landsat-c2-l2"; "item-collection.json"] = None
       /\ FS.lookup d' ["data"; "landsat-c2-l2"; "L8_1"; "B4.tif"]
          = Some (File 1024 None)
       /\ FS.is_file (FS.lookup d' ["data"; "catalog.json"]) = true.
Proof.
  cbv zeta.
  assert (Hnd : NoDup (map fst grouped_output))
    by (repeat constructor; simpl; intuition discriminate).
  assert (Hok : Forall loadable grouped_output).
  { repeat constructor; unfold loadable; cbn;
      try (do 2 eexists; split; [reflexivity | discriminate]). }
  split; [reflexivity|]. split; [exact Hnd|]. split; [exact Hok|].
  destruct (@catalog_collects_the_item_collections
              Vertices.Shape Vertices.shapely writes_catalog
              ["data"] "root_catalog" "Root catalog"
              (mkSession (world_of grouped_output) [] []) grouped_output
              eq_refl Hnd I Hok) as (_ & Hsave & _).
  rewrite Hsave. cbn [fst].
  eexists _, _. split; [reflexivity|].
  vm_compute. repeat split.
Defined.

(** X10. A collection left without items breaks the catalog: when a
    subdirectory of the output directory holds an item-collection.json that
    lists no item (every item of the collection was removed by the
    cleanup), [_create_and_save_catalog] raises [ValueError] at the [min] of
    no datetimes.  No catalog is saved, and the item collections of the
    subdirectories listed before that one are already removed. *)
Theorem catalog_refuses_an_empty_collection :
  forall {Shape : Type} {Sh : Shapely Shape} {P : Pystac}
         (out : path) (name desc : string) (s : session)
         (pre suf : dir) (k : string) (sub : dir) (size : N),
    FS.lookup (disk (inner s)) out = Some (Dir (pre ++ (k, Dir sub) :: suf)) ->
    NoDup (map fst (pre ++ (k, Dir sub) :: suf)) ->
    FS.find (pre ++ (k, Dir sub) :: suf) default_file_name = None ->
    Forall loadable pre ->
    FS.find sub default_file_name = Some (File size (Some [])) ->
    let d1 := graft (disk (inner s)) out
                    (Dir (map consumed pre ++ (k, Dir sub) :: suf)) in
    Downloader._create_and_save_catalog out name desc s
      = (mkSession (with_disk (inner s) d1) (console s) (saved s),
         Raise ValueError)
    /\ (forall j, FS.lookup d1 (out ++ [j; default_file_name]) <> None ->
                  In j (map fst ((k, Dir sub) :: suf))).
Proof.
  intros Shape Sh P out name desc s pre suf k sub size
         Hout Hnd Hroot Hok Hsub d1.
  remember (pre ++ (k, Dir sub) :: suf) as es eqn:Ees.
  remember (inner s) as w eqn:Ew.
  assert (Hfresh : ~ In k (map fst pre))
    by (rewrite Ees in Hnd;
        now apply (nodup_middle pre suf (k, Dir sub)) in Hnd).
  assert (Hg : Downloader.gather out name desc w
               = (with_disk w d1, Raise ValueError)).
  { unfold Downloader.gather. unfold bind at 1. unfold get_disk.
    unfold bind at 1.
    assert (Hr : loadable (""%string, Dir es))
      by (unfold loadable; cbn [snd]; now rewrite Hroot).
    rewrite (gather_root out name desc w es Hout Hr).
    rewrite Hroot, (remove_entry_absent es default_file_name Hroot).
    rewrite (FSFacts.graft_same out (disk w) Hout), with_disk_disk.
    unfold bind at 1. unfold os_listdir, bind, get_disk, FS.listdir.
    rewrite Hout. cbn [ret].
    rewrite (listed_dirs (disk w) out es Hout Hnd).
    rewrite Ees at 1. rewrite dirs_of_app.
    rewrite add_collections_app. unfold bind at 1.
    rewrite (add_collections_loadable out (disk w) (Dir es) pre []
               ((k, Dir sub) :: suf) (mkCatalog name desc []) w Hout);
      [| cbn [app]; rewrite <- Ees;
         now rewrite (FSFacts.graft_same out (disk w) Hout)
       | cbn [app]; now rewrite <- Ees | exact Hok].
    cbn [app]. fold d1.
    unfold dirs_of. cbn [filter FS.is_dir snd map fst].
    cbn [Downloader.add_collections].
    unfold bind at 1. unfold get_disk. unfold bind at 1.
    assert (Hl : FS.lookup d1 (out ++ [k; default_file_name])
                 = Some (File size (Some []))).
    { unfold d1. rewrite (FSFacts.lookup_graft_below out _ _ _ Hout).
      cbn [FS.lookup].
      rewrite (find_middle (map consumed pre) suf k (Dir sub))
        by (now rewrite map_fst_consumed).
      now rewrite Hsub. }
    unfold OS.path_exists. cbn [disk with_disk]. rewrite Hl.
    now rewrite (load_and_add_nothing out _ (out ++ [k; default_file_name])
                   (out ++ [k]) size (with_disk w d1) Hl). }
  split.
  - unfold Downloader._create_and_save_catalog, obind, lift.
    rewrite <- Ew, Hg. reflexivity.
  - intros j Hj. unfold d1 in Hj.
    rewrite (FSFacts.lookup_graft_below out _ _ _ Hout) in Hj.
    cbn [FS.lookup] in Hj.
    destruct (in_dec string_dec j (map fst ((k, Dir sub) :: suf)))
      as [Hin|Hnot]; [exact Hin|].
    exfalso. apply Hj.
    assert (E : FS.find (map consumed pre ++ (k, Dir sub) :: suf) j
                = FS.find (map consumed pre) j).
    { clear - Hnot. induction (map consumed pre) as [|[k' v] l IH].
      - cbn [app]. apply FSFacts.find_none_not_in. exact Hnot.
      - cbn [app FS.find]. destruct (String.eqb j k'); [reflexivity | exact IH]. }
    rewrite E. exact (nothing_left pre j).
Qed.

Lemma catalog_refuses_an_empty_collection_witness :
  let s := mkSession (world_of one_collection_lost) [] [] in
  exists d',
    @Downloader._create_and_save_catalog
       Vertices.Shape Vertices.shapely writes_catalog
       ["data"] "root_catalog" "Root catalog" s
      = (mkSession (with_disk (world_of one_collection_lost) d') [] [],
         Raise ValueError)
    /\ FS.lookup d' ["data"; "sentinel-2-l2a"; "item-collection.json"] = None
    /\ FS.is_file (FS.lookup d' ["data"; "modis"; "item-collection.json"])
       = true
    /\ FS.lookup d' ["data"; "catalog.json"] = None.
Proof.
  cbv zeta.
  assert (Hnd : NoDup (map fst one_collection_lost))
    by (repeat constructor; simpl; intuition discriminate).
  assert (Hok : Forall loadable
                  [("sentinel-2-l2a",
                    Dir [("S2_0", Dir [("B04.tif", File 2048 None)]);
                         ("item-collection.json",
                          File 576 (Some [unit_square "S2_0" 0 0 20]))])]).
  { repeat constructor. unfold loadable. cbn.
    do 2 eexists. split; [reflexivity | discriminate]. }
  destruct (@catalog_refuses_an_empty_collection
              Vertices.Shape Vertices.shapely writes_catalog
              ["data"] "root_catalog" "Root catalog"
              (mkSession (world_of one_collection_lost) [] [])
              (firstn 1 one_collection_lost) (skipn 2 one_collection_lost)
              "landsat-c2-l2"
              [("item-collection.json", File 64 (Some []))] 64%N
              eq_refl Hnd eq_refl Hok eq_refl)
    as [Hraise _].
  eexists. split; [exact Hraise|].
  vm_compute. repeat split.
Defined.

(* ------------------------------------------------------------------ *)
(** ** A download that retrieves nothing *)

Section Nothing.

Context {C : Collaborators}.

Lemma run_val_file :
  forall fuel self w w' got ratio,
    run fuel self w = (w', Val (got, ratio)) ->
    exists s coll,
      FS.lookup (disk w') (out_dir self ++ [default_file_name])
        = Some (File s (Some coll))
      /\ got = length coll.
Proof.
  intros fuel self w w' got ratio H.
  rewrite run_unfold in H.
  apply bind_val_inv in H. destruct H as (w1 & locals & Hloop & Hsum).
  apply retry_loop_loaded in Hloop; [|exact I].
  destruct locals as [[coll r]|]; [|discriminate].
  destruct Hloop as ((s & Hfile) & _ & _).
  unfold summary, bind, print, emit, ret in Hsum. simpl in Hsum.
  inversion Hsum. subst. simpl. now exists s, coll.
Qed.

End Nothing.

(** X11. A download that retrieves nothing does not end with its report:
    when the [_STACDownloader] of an ungrouped [Downloader.run] returns with
    0 downloaded items (every attempt of the budget left an empty item
    collection, which is no fault for [_STACDownloader.run]), the catalog
    stage reads that empty item collection and [Downloader.run] raises
    [ValueError]; no catalog is saved and the disk stays as the download
    left it. *)
Theorem ungrouped_run_without_items_fails :
  forall {C : Collaborators} {Shape : Type} {Sh : Shapely Shape} {P : Pystac}
         (fuel : nat) (self : Outer.Downloader) (s : session) (w' : world)
         (ratio : Q),
    run fuel (Downloader.stac self (Outer.item_coll self) (Outer.out_dir self))
        (inner s)
      = (w', Val (0, ratio)) ->
    Downloader.run fuel self false s
      = (mkSession w' (console s) (saved s), Raise ValueError).
Proof.
  intros C Shape Sh P fuel self s w' ratio H.
  destruct (run_val_file _ _ _ _ _ _ H) as (size & coll & Hfile & Hlen).
  destruct coll as [|x coll]; [|discriminate]. cbn [out_dir Downloader.stac] in Hfile.
  unfold Downloader.run, Downloader._download_ungrouped.
  unfold obind at 1. unfold obind at 1. unfold lift at 1. rewrite H.
  unfold oret. unfold Downloader._create_and_save_catalog, obind, lift.
  cbn [inner console saved].
  assert (Hg : Downloader.gather (Outer.out_dir self) "root_catalog"
                 "Root catalog containing multiple collections." w'
               = (w', Raise ValueError)).
  { unfold Downloader.gather. unfold bind at 1. unfold get_disk.
    unfold bind at 1. unfold OS.path_exists. rewrite Hfile.
    now rewrite (load_and_add_nothing _ _ _ _ size w' Hfile). }
  rewrite Hg. reflexivity.
Qed.

Lemma ungrouped_run_without_items_fails_witness :
  exists w',
    @run barren 1 (Downloader.stac three_outer (Outer.item_coll three_outer)
                                   (Outer.out_dir three_outer))
         (inner session0)
      = (w', Val (0, 0 # 3))
    /\ @Downloader.run barren Vertices.Shape Vertices.shapely writes_catalog
                       1 three_outer false session0
       = (mkSession w' [] [], Raise ValueError)
    /\ count (fun e => match e with Print (DownloadLoop _) => true | _ => false end)
             (trace w') = 3.
Proof.
  assert (H : @run barren 1
                   (Downloader.stac three_outer (Outer.item_coll three_outer)
                                    (Outer.out_dir three_outer))
                   (inner session0)
              = (fst (@run barren 1
                           (Downloader.stac three_outer
                                            (Outer.item_coll three_outer)
                                            (Outer.out_dir three_outer))
                           (inner session0)), Val (0, 0 # 3)))
    by (vm_compute; reflexivity).
  eexists. split; [exact H|]. split.
  - exact (@ungrouped_run_without_items_fails
             barren Vertices.Shape Vertices.shapely writes_catalog
             1 three_outer session0 _ (0 # 3) H).
  - vm_compute. reflexivity.
Defined.

(* ------------------------------------------------------------------ *)
(** ** Cleaning twice *)

Section Twice.

Context {C : Collaborators}.

Import FS FSFacts.

Lemma names_put_entry :
  forall l k v old,
    find l k = Some old -> map fst (put_entry k v l) = map fst l.
Proof.
  induction l as [|[k' w] l IH]; intros k v old H; [discriminate|].
  simpl in H. simpl. destruct (String.eqb k k') eqn:E; [reflexivity|].
  simpl. f_equal. eapply IH. exact H.
Qed.

Lemma in_put_entry :
  forall l k v e, In e (put_entry k v l) -> snd e = v \/ In e l.
Proof.
  induction l as [|[k' w] l IH]; intros k v e H.
  - simpl in H. destruct H as [<-|[]]. now left.
  - simpl in H. destruct (String.eqb k k').
    + destruct H as [<-|H]; [now left | right; now right].
    + destruct H as [<-|H]; [right; now left|].
      destruct (IH k v e H) as [Hv|Hin]; [now left | right; now right].
Qed.

Lemma put_entry_same :
  forall l k v, find l k = Some v -> put_entry k v l = l.
Proof.
  induction l as [|[k' w] l IH]; intros k v H; [discriminate|].
  simpl in H. simpl. destruct (String.eqb k k') eqn:E.
  - inversion H. reflexivity.
  - f_equal. now apply IH.
Qed.

Lemma wf_dir :
  forall es,
    NoDup (map fst es) -> Forall (fun e => wf (snd e)) es -> wf (Dir es).
Proof.
  intros es Hnd Hch. simpl. split; [exact Hnd|].
  induction Hch as [|e es He Hes IH]; simpl; [exact I|].
  inversion Hnd. split; [exact He | now apply IH].
Qed.

Lemma kept_entries_tidy :
  forall es,
    (forall e, In e es ->
               is_empty_dir (snd e) = false
               /\ (forall sub, snd e = Dir sub -> flat (Dir sub))) ->
    kept_entries es = es.
Proof.
  induction es as [|[k v] es IH]; intros H; [reflexivity|].
  destruct (H (k, v) (or_introl eq_refl)) as [Hne Hflat]. cbn [snd] in *.
  unfold kept_entries. cbn [filter snd]. rewrite Hne. cbn [negb map fst snd].
  f_equal.
  - f_equal. destruct v as [s b|sub]; [reflexivity|].
    apply prune_flat. now apply Hflat.
  - apply IH. intros e He. apply H. now right.
Qed.

Lemma in_kept_entries :
  forall es e',
    In e' (kept_entries es) ->
    exists e, In e es /\ is_empty_dir (snd e) = false
              /\ e' = (fst e, prune (snd e)).
Proof.
  intros es e' H. unfold kept_entries in H. apply in_map_iff in H.
  destruct H as (e & <- & He). apply filter_In in He.
  destruct He as [He Hne]. exists e. split; [exact He|].
  split; [now apply negb_true_iff in Hne | reflexivity].
Qed.

(** The directory the cleanup leaves is in the output layout again, and
    holds no empty directory. *)
Lemma layout_after_cleanup :
  forall es s coll,
    find es default_file_name = Some (File s (Some coll)) ->
    item_layout es coll ->
    let keep := with_assets es coll in
    let es1 := put_entry default_file_name (File (json_size keep) (Some keep))
                         (kept_entries es) in
    item_layout es1 keep
    /\ find es1 default_file_name = Some (File (json_size keep) (Some keep))
    /\ (forall e, In e es1 ->
                  is_empty_dir (snd e) = false
                  /\ (forall sub, snd e = Dir sub -> flat (Dir sub)))
    /\ with_assets es1 keep = keep.
Proof.
  intros es s coll Hfile Hlay keep es1.
  pose proof Hlay as (Hwf & Hids & Hitems & Hdirs).
  pose proof (wf_children Hwf) as [Hnd Hch].
  assert (Hfk : find (kept_entries es) default_file_name
                = Some (File s (Some coll)))
    by (rewrite (find_kept_entries es _ Hnd), Hfile; reflexivity).
  assert (Hentry : forall e, In e es1 ->
             snd e = File (json_size keep) (Some keep)
             \/ (exists sub, In (fst e, Dir sub) es /\ snd e = Dir sub
                             /\ sub <> [] /\ flat (Dir sub))
             \/ (exists s0 b, snd e = File s0 b)).
  { intros e He. apply in_put_entry in He. destruct He as [Hv|He];
      [now left|]. right.
    apply in_kept_entries in He. destruct He as ([k v] & Hin & Hne & ->).
    cbn [fst snd] in *. destruct v as [s0 b|sub].
    - right. now exists s0, b.
    - left. destruct (Hdirs k sub Hin) as [_ Hflat].
      exists sub. rewrite (prune_flat _ Hflat).
      split; [exact Hin|]. split; [reflexivity|].
      split; [|exact Hflat]. intros ->. discriminate. }
  assert (Hfind : forall x, In x keep ->
             exists sub, find es (id x) = Some (Dir sub) /\ sub <> []
                         /\ find es1 (id x) = Some (Dir sub)).
  { intros x Hx. unfold keep, with_assets in Hx. apply filter_In in Hx.
    destruct Hx as [Hx Hn].
    destruct (layout_item_dir es s coll Hfile Hlay x Hx)
      as (sub & Hsub & Hflat & Hneq).
    rewrite Hsub in Hn. exists sub. split; [exact Hsub|].
    assert (Hs : sub <> []) by (intros ->; discriminate).
    split; [exact Hs|]. unfold es1.
    rewrite find_put_other by congruence.
    rewrite (find_kept_entries es _ Hnd), Hsub.
    destruct sub as [|e0 sub]; [congruence|]. cbn [is_empty_dir].
    now rewrite (prune_flat _ Hflat). }
  assert (Hnd1 : NoDup (map fst es1)).
  { unfold es1. rewrite (names_put_entry _ _ _ _ Hfk).
    unfold kept_entries. rewrite map_map. cbn [fst].
    now apply nodup_names_filter. }
  split; [|split; [|split]].
  - split; [|split; [|split]].
    + apply wf_dir; [exact Hnd1|]. rewrite Forall_forall. intros e He.
      destruct (Hentry e He) as [-> |[(sub & Hin & -> & _ & _)|(s0 & b & ->)]];
        try exact I.
      rewrite Forall_forall in Hch. exact (Hch _ Hin).
    + unfold keep, with_assets. clear - Hids.
      induction coll as [|x coll IH]; [constructor|].
      inversion Hids as [|? ? Hx Hrest]. subst. cbn [filter].
      destruct (match find es (id x) with Some n => _ | None => false end).
      * cbn [map]. constructor; [|now apply IH].
        intros Hin. apply Hx. apply in_map_iff in Hin.
        destruct Hin as (y & Ey & Hy). apply filter_In in Hy.
        apply in_map_iff. exists y. tauto.
      * now apply IH.
    + intros x Hx. destruct (Hfind x Hx) as (sub & _ & _ & ->). reflexivity.
    + intros k sub Hin.
      destruct (Hentry (k, Dir sub) Hin)
        as [Hv|[(sub' & Hin' & Hv & Hne & Hflat)|(s0 & b & Hv)]];
        try discriminate.
      cbn [fst snd] in *. inversion Hv. subst sub'.
      split; [|exact Hflat].
      destruct (Hdirs k sub Hin') as [Hk _].
      apply in_map_iff in Hk. destruct Hk as (x & <- & Hx).
      apply in_map. unfold keep, with_assets. apply filter_In.
      split; [exact Hx|].
      rewrite (find_in_nodup es (id x) (Dir sub) Hnd Hin').
      destruct sub; [congruence | reflexivity].
  - unfold es1. apply find_put_same.
  - intros e He.
    destruct (Hentry e He) as [-> |[(sub & _ & -> & Hne & Hflat)|(s0 & b & ->)]].
    + split; [reflexivity | discriminate].
    + split; [destruct sub; [congruence | reflexivity]|].
      intros sub' E. inversion E. now subst.
    + split; [reflexivity | discriminate].
  - unfold with_assets at 1. rewrite <- (filter_ext_in (fun _ => true)).
    + clear. induction keep as [|x l IH]; [reflexivity|]. cbn. now rewrite IH.
    + intros x Hx. destruct (Hfind x Hx) as (sub & _ & Hne & ->).
      destruct sub; [congruence | reflexivity].
Qed.

End Twice.

(** X12. The cleanup is idempotent on the output layout: when the item
    collection lists items of pairwise distinct ids, each with a directory
    of its own that holds files only, and every directory is a listed
    item's, [_remove_empty_items] returns, and running it again right away
    returns too and leaves the world exactly as the first run left it (no
    further directory removed, the item collection rewritten with the same
    items). *)
Theorem cleanup_is_idempotent :
  forall {C : Collaborators} (out : path) (w : world) (es : dir)
         (s : N) (coll : list Item),
    FS.lookup (disk w) out = Some (Dir es) ->
    FS.find es default_file_name = Some (File s (Some coll)) ->
    item_layout es coll ->
    exists w1,
      _remove_empty_items out w = (w1, Val tt)
      /\ _remove_empty_items out w1 = (w1, Val tt)
      /\ _find_empty_subdirs (disk w1) out = [].
Proof.
  intros C out w es s coll Hout Hfile Hlay.
  pose proof (layout_after_cleanup es s coll Hfile Hlay)
    as (Hlay1 & Hfile1 & Htidy & Hkeep1).
  set (keep := with_assets es coll) in *.
  set (es1 := FS.put_entry default_file_name
                (File (json_size keep) (Some keep)) (kept_entries es)) in *.
  exists (with_disk w (graft (disk w) out (Dir es1))).
  assert (Hout1 : FS.lookup (graft (disk w) out (Dir es1)) out
                  = Some (Dir es1))
    by (apply (FSFacts.lookup_graft out (disk w) _ Hout)).
  assert (Hwalk1 : walk_empty [] (Dir es1) = []).
  { rewrite (layout_walk es1 _ keep Hfile1 Hlay1).
    replace (filter _ es1) with (@nil (string * node)); [reflexivity|].
    symmetry. clear - Htidy. induction es1 as [|e l IH]; [reflexivity|].
    cbn [filter]. rewrite (proj1 (Htidy e (or_introl eq_refl))).
    apply IH. intros e' He'. apply Htidy. now right. }
  split; [|split].
  - rewrite (remove_empty_items_spec out w es s coll Hout (proj1 Hlay) Hfile).
    cbv zeta.
    destruct (layout_remove_ids es s coll Hfile Hlay) as (rest & -> & ->).
    reflexivity.
  - rewrite (remove_empty_items_spec out
               (with_disk w (graft (disk w) out (Dir es1))) es1 _ keep
               Hout1 (proj1 Hlay1) Hfile1).
    cbv zeta. rewrite Hwalk1. cbn [map remove_ids].
    replace (filter (fun x => Py.mem (id x) (map id keep)) keep) with keep.
    + rewrite (kept_entries_tidy es1 Htidy).
      rewrite (put_entry_same es1 _ _ Hfile1).
      cbn [disk with_disk].
      rewrite (FSFacts.graft_same out _ Hout1).
      now rewrite with_disk_twice.
    + symmetry. rewrite <- (filter_ext_in (fun _ => true)).
      * clear. induction keep as [|x l IH]; [reflexivity|]. cbn. now rewrite IH.
      * intros x Hx. symmetry. apply mem_in. now apply in_map.
  - unfold _find_empty_subdirs. cbn [disk with_disk]. rewrite Hout1.
    rewrite walk_empty_prefix, Hwalk1. reflexivity.
Qed.

Lemma cleanup_is_idempotent_witness :
  FS.lookup (disk (world_of one_empty_item)) ["data"]
    = Some (Dir one_empty_item)
  /\ item_layout one_empty_item (Sim.items 2)
  /\ exists w1,
       @_remove_empty_items steady ["data"] (world_of one_empty_item)
         = (w1, Val tt)
       /\ @_remove_empty_items steady ["data"] w1 = (w1, Val tt)
       /\ _find_empty_subdirs (disk w1) ["data"] = [].
Proof.
  split; [reflexivity|]. split; [exact one_empty_item_layout|].
  exact (@cleanup_is_idempotent steady ["data"] (world_of one_empty_item)
           one_empty_item 1088%N (Sim.items 2) eq_refl eq_refl
           one_empty_item_layout).
Defined.

(* ------------------------------------------------------------------ *)
(** ** The output directory of a [Downloader] *)

Section OutputDirectory.

Import FS FSFacts.

Lemma make_along_existing :
  forall p n es, lookup n p = Some (Dir es) -> OS.make_along n p = Some n.
Proof.
  induction p as [|name p IH]; intros n es H.
  - simpl in H. inversion H. reflexivity.
  - destruct n as [s b|es0]; [discriminate|].
    simpl in H. simpl. destruct (find es0 name) as [c|] eqn:E; [|discriminate].
    rewrite (IH c es H). simpl. now rewrite (put_entry_same es0 name c E).
Qed.

Lemma make_along_dir :
  forall p n n', OS.make_along n p = Some n' -> is_dir (lookup n' p) = true.
Proof.
  induction p as [|name p IH]; intros n n' H.
  - destruct n as [s b|es]; [discriminate|]. simpl in H. inversion H.
    reflexivity.
  - destruct n as [s b|es]; [discriminate|]. simpl in H.
    destruct (OS.make_along _ p) as [c'|] eqn:E; [|discriminate].
    simpl in H. inversion H. subst. simpl. rewrite find_put_same.
    eapply IH. exact E.
Qed.

Lemma make_along_keeps_files :
  forall p n n' r s b,
    OS.make_along n p = Some n' ->
    lookup n r = Some (File s b) -> lookup n' r = Some (File s b).
Proof.
  induction p as [|name p IH]; intros n n' r s b H Hr.
  - destruct n as [s0 b0|es]; [discriminate|]. simpl in H. inversion H.
    now subst.
  - destruct n as [s0 b0|es]; [discriminate|]. simpl in H.
    destruct (OS.make_along _ p) as [c'|] eqn:E; [|discriminate].
    simpl in H. inversion H. subst. clear H.
    destruct r as [|k r]; [discriminate|]. simpl in Hr. simpl.
    destruct (String.eqb_spec k name) as [->|Hne].
    + rewrite find_put_same. destruct (find es name) as [c|]; [|discriminate].
      eapply IH; eassumption.
    + rewrite find_put_other by congruence. exact Hr.
Qed.

Lemma make_along_blocked :
  forall q n r s b,
    lookup n q = Some (File s b) -> OS.make_along n (q ++ r) = None.
Proof.
  induction q as [|name q IH]; intros n r s b H.
  - simpl in H. inversion H. destruct r; reflexivity.
  - destruct n as [s0 b0|es]; [discriminate|]. simpl in H. simpl.
    destruct (find es name) as [c|]; [|discriminate].
    now rewrite (IH c r s b H).
Qed.

End OutputDirectory.

(** X13. [Downloader.__init__] makes sure the output directory exists and
    touches nothing else: the directory is [out_dir], or [data_<time>] when
    [out_dir] is [None] or empty; when the constructor returns the
    directory exists and every file that was on the disk is still there
    unchanged; when the directory is there already the disk is left exactly
    as it is; and when a file stands where the directory or one of its
    parents should be the constructor raises [OSError] and changes
    nothing. *)
Theorem init_makes_the_output_directory :
  forall (item_coll : list Item) (out_dir : option path)
         (retries preview_size : Z) (reauth_batch_size : option Z)
         (stamp : string) (w : world),
    let out := match out_dir with
               | Some (n :: p) => n :: p
               | _ => [("data_" ++ stamp)%string]
               end in
    let self := Outer.mkDownloader item_coll out retries preview_size
                                   reauth_batch_size in
    let init := Downloader.__init__ item_coll out_dir retries preview_size
                                    reauth_batch_size stamp w in
    (forall w' self',
        init = (w', Val self') ->
        self' = self
        /\ FS.is_dir (FS.lookup (disk w') out) = true
        /\ (forall p size body,
              FS.lookup (disk w) p = Some (File size body) ->
              FS.lookup (disk w') p = Some (File size body)))
    /\ (FS.is_dir (FS.lookup (disk w) out) = true -> init = (w, Val self))
    /\ (forall q r size body,
          out = q ++ r ->
          FS.lookup (disk w) q = Some (File size body) ->
          init = (w, Raise OSError)).
Proof.
  intros item_coll out_dir retries preview_size reauth_batch_size stamp w
         out self init.
  assert (Hout : exists n p, out = n :: p).
  { unfold out. destruct out_dir as [[|n p]|]; eauto. }
  destruct Hout as (n0 & p0 & Eout).
  assert (Hinit : init = match OS.make_along (disk w) out with
                         | Some d' => (with_disk w d', Val self)
                         | None => (w, Raise OSError)
                         end).
  { unfold init, Downloader.__init__. fold out. unfold bind, disk_op, bind,
      get_disk, OS.makedirs. rewrite Eout. rewrite <- Eout.
    destruct (OS.make_along (disk w) out); reflexivity. }
  split; [|split].
  - intros w' self' H. rewrite Hinit in H.
    destruct (OS.make_along (disk w) out) as [d'|] eqn:E; [|discriminate].
    inversion H. subst. split; [reflexivity|]. split.
    + eapply make_along_dir. exact E.
    + intros p size body Hp. eapply make_along_keeps_files; eassumption.
  - intros Hdir. rewrite Hinit.
    destruct (FS.lookup (disk w) out) as [[s b|es]|] eqn:E; try discriminate.
    rewrite (make_along_existing out (disk w) es E).
    now rewrite with_disk_disk.
  - intros q r size body Hq Hfile. rewrite Hinit, Hq.
    now rewrite (make_along_blocked q (disk w) r size body Hfile).
Qed.

Lemma init_makes_the_output_directory_witness :
  (exists w',
      Downloader.__init__ (Sim.items 3) None 3 10 (Some 1000%Z)
                          "20240101_120000" Sim.world0
        = (w', Val (Outer.mkDownloader (Sim.items 3) ["data_20240101_120000"]
                                       3 10 (Some 1000%Z)))
      /\ FS.is_dir (FS.lookup (disk w') ["data_20240101_120000"]) = true)
  /\ Downloader.__init__ (Sim.items 3) (Some ["data"]) 3 10 (Some 1000%Z)
                         "20240101_120000" Sim.world0
     = (Sim.world0, Val three_outer).
Proof.
  destruct (init_makes_the_output_directory
              (Sim.items 3) None 3 10 (Some 1000%Z) "20240101_120000"
              Sim.world0) as (Hnew & _ & _).
  destruct (init_makes_the_output_directory
              (Sim.items 3) (Some ["data"]) 3 10 (Some 1000%Z)
              "20240101_120000" Sim.world0) as (_ & Hold & _).
  split.
  - eexists. split; [reflexivity|].
    exact (proj1 (proj2 (Hnew _ _ eq_refl))).
  - apply Hold. reflexivity.
Defined.

(* ------------------------------------------------------------------ *)
(** ** What the preview leaves on the disk *)

Section Frames.

Context {C : Collaborators}.

Lemma keeps_ret : forall A I (a : A), keeps I (ret a).
Proof. intros A I a w H. exact H. Qed.

Lemma keeps_raise : forall A I e, keeps I (@raise A e).
Proof. intros A I e w H. exact H. Qed.

Lemma keeps_diverge : forall A I, keeps I (@diverge A).
Proof. intros A I w H. exact H. Qed.

Lemma keeps_bind :
  forall A B I (c : M A) (k : A -> M B),
    keeps I c -> (forall a, keeps I (k a)) -> keeps I (bind c k).
Proof.
  intros A B I c k Hc Hk w H. unfold bind. specialize (Hc w H).
  destruct (c w) as [w1 [a|e|]]; cbn [fst] in *; try exact Hc.
  now apply Hk.
Qed.

Lemma keeps_emit : forall I e, keeps I (emit e).
Proof. intros I e w H. exact H. Qed.

Lemma keeps_get_disk : forall I, keeps I get_disk.
Proof. intros I w H. exact H. Qed.

Lemma keeps_disk_op :
  forall (I : node -> Prop) f,
    (forall d d', I d -> f d = Some d' -> I d') -> keeps I (disk_op f).
Proof.
  intros I f Hf w H. unfold disk_op, bind, get_disk, set_disk.
  destruct (f (disk w)) as [d'|] eqn:E; cbn [fst disk]; [|exact H].
  eapply Hf; eassumption.
Qed.

Lemma keeps_for_each :
  forall A I (body : A -> M unit) l,
    (forall x, keeps I (body x)) -> keeps I (for_each l body).
Proof.
  intros A I body l Hb. induction l as [|x l IH]; [apply keeps_ret|].
  cbn [for_each]. apply keeps_bind; [apply Hb | intros _; exact IH].
Qed.

Lemma keeps_for_each_in :
  forall A I (body : A -> M unit) l,
    (forall x, In x l -> keeps I (body x)) -> keeps I (for_each l body).
Proof.
  intros A I body l. induction l as [|x l IH]; intros Hb; [apply keeps_ret|].
  cbn [for_each]. apply keeps_bind; [apply Hb; now left|].
  intros _. apply IH. intros y Hy. apply Hb. now right.
Qed.

Lemma keeps_call_sign : forall I batch, keeps I (call_sign batch).
Proof. intros I batch w H. exact H. Qed.

Lemma keeps_sign_loop :
  forall I fuel batch held, keeps I (sign_loop fuel batch held).
Proof.
  intros I. induction fuel as [|fuel IH]; intros batch held;
    [apply keeps_diverge|].
  cbn [sign_loop]. apply keeps_bind; [apply keeps_call_sign|].
  intros [signed|]; [apply keeps_ret|].
  apply keeps_bind.
  - destruct (_ =? 1); [apply keeps_emit | apply keeps_ret].
  - intros _. apply keeps_bind; [apply keeps_emit | intros _; apply IH].
Qed.

Lemma keeps_reauth :
  forall I fuel rbs batch, keeps I (reauth fuel rbs batch).
Proof.
  intros I fuel [b|] batch; [|apply keeps_ret].
  cbn [reauth]. apply keeps_bind; [apply keeps_sign_loop|].
  intros r. apply keeps_bind; [|intros _; apply keeps_ret].
  destruct (0 <? snd r); [apply keeps_emit | apply keeps_ret].
Qed.

Lemma keeps_from_file : forall I p, keeps I (from_file p).
Proof.
  intros I p. unfold from_file. apply keeps_bind; [apply keeps_get_disk|].
  intros d. destruct (FS.lookup d p) as [[s [l|]|es]|];
    first [apply keeps_ret | apply keeps_raise].
Qed.

Lemma keeps_os_listdir : forall I p, keeps I (os_listdir p).
Proof.
  intros I p. unfold os_listdir. apply keeps_bind; [apply keeps_get_disk|].
  intros d. destruct (FS.listdir d p); [apply keeps_ret | apply keeps_raise].
Qed.

End Frames.

Section Scratch.

Context {C : Collaborators}.

Variables (d0 : node) (parent : path) (name : string) (es : dir).
Hypothesis Hparent : FS.lookup d0 parent = Some (Dir es).
Hypothesis Hfree : FS.find es name = None.

Import FS FSFacts.

Lemma put_put :
  forall l k (v v' : node), put_entry k v' (put_entry k v l) = put_entry k v' l.
Proof.
  induction l as [|[k' w] l IH]; intros k v v'; simpl.
  - now rewrite String.eqb_refl.
  - destruct (String.eqb k k') eqn:E; simpl; rewrite E; [reflexivity|].
    now rewrite IH.
Qed.

Lemma lookup_scratch :
  forall sub,
    lookup (with_scratch d0 parent name es sub) (parent ++ [name])
      = Some (Dir sub).
Proof.
  intros sub. unfold with_scratch.
  rewrite (lookup_graft_below parent [name] d0 _ Hparent). simpl.
  now rewrite find_put_same.
Qed.

Lemma graft_scratch :
  forall sub v,
    graft (with_scratch d0 parent name es sub) (parent ++ [name]) (Dir v)
      = with_scratch d0 parent name es v.
Proof.
  intros sub v. unfold with_scratch.
  rewrite (graft_app parent [name] _ _ (Dir v) (lookup_graft parent d0 _ Hparent)).
  simpl. rewrite find_put_same, put_put.
  now rewrite (graft_graft parent d0 _ _ Hparent).
Qed.

Lemma modify_dir :
  forall g q l n',
    q <> [] -> modify g (Dir l) q = Some n' -> exists l', n' = Dir l'.
Proof.
  intros g [|x q] l n' Hq H; [congruence|]. simpl in H.
  destruct q as [|y q].
  - destruct (g l x) as [l'|]; [|discriminate]. simpl in H.
    inversion H. now exists l'.
  - destruct (find l x) as [c|]; [|discriminate].
    destruct (modify g c (y :: q)) as [c'|]; [|discriminate].
    simpl in H. inversion H. eauto.
Qed.

Lemma modify_without_scratch :
  forall g q, q <> [] -> modify g d0 ((parent ++ [name]) ++ q) = None.
Proof.
  intros g q Hq. rewrite <- app_assoc.
  rewrite (@Prune.modify_under g parent d0 (Dir es) ([name] ++ q) Hparent)
    by discriminate.
  destruct q as [|x q]; [congruence|]. simpl. now rewrite Hfree.
Qed.

Lemma modify_in_scratch :
  forall g q d d',
    q <> [] -> scratch_only d0 parent name es d ->
    modify g d ((parent ++ [name]) ++ q) = Some d' ->
    scratched d0 parent name es d'.
Proof.
  intros g q d d' Hq [->|(sub & ->)] H.
  - rewrite (modify_without_scratch g q Hq) in H. discriminate.
  - rewrite (@Prune.modify_under g (parent ++ [name]) _ (Dir sub) q
               (lookup_scratch sub) Hq) in H.
    destruct (modify g (Dir sub) q) as [n'|] eqn:E; [|discriminate].
    destruct (modify_dir g q sub n' Hq E) as (l' & ->).
    simpl in H. inversion H. exists l'. apply graft_scratch.
Qed.

Lemma rmtree_scratch :
  forall q d d',
    scratch_only d0 parent name es d ->
    rmtree d ((parent ++ [name]) ++ q) = Some d' ->
    scratch_only d0 parent name es d'.
Proof.
  intros q d d' Hd H. destruct q as [|x q].
  - rewrite app_nil_r in H. destruct Hd as [->|(sub & ->)].
    + unfold rmtree in H. rewrite (modify_at _ parent d0 name Hparent) in H.
      rewrite Hfree in H. discriminate.
    + unfold with_scratch in H.
      rewrite (rmtree_fresh d0 parent name es sub Hparent Hfree) in H.
      inversion H. now left.
  - right. eapply modify_in_scratch; [| exact Hd | exact H]. discriminate.
Qed.

Lemma cleanup_scratch :
  forall d,
    scratch_only d0 parent name es d -> cleanup d (parent ++ [name]) = d0.
Proof.
  intros d [->|(sub & ->)].
  - eapply cleanup_missing; eassumption.
  - unfold cleanup, with_scratch.
    now rewrite (rmtree_fresh d0 parent name es sub Hparent Hfree).
Qed.

Lemma keeps_call_download :
  forall batch file_name,
    confined ->
    keeps (scratched d0 parent name es)
          (call_download batch (parent ++ [name]) file_name).
Proof.
  intros batch file_name Hc w (sub & Hw). unfold call_download.
  destruct (Hc (fetch_calls w) batch (parent ++ [name]) file_name (disk w)
               sub) as (sub' & E).
  { rewrite Hw. apply lookup_scratch. }
  destruct (download_item_collection (fetch_calls w) batch (parent ++ [name])
                                     file_name (disk w)) as [d' [e|]];
    cbn [fst disk] in *; subst d'; rewrite Hw; exists sub';
    apply graft_scratch.
Qed.

Lemma keeps_download_batches :
  forall fuel rbs coll file_name_of,
    confined ->
    keeps (scratched d0 parent name es)
          (download_batches fuel rbs coll (parent ++ [name]) file_name_of).
Proof.
  intros fuel rbs coll file_name_of Hc. unfold download_batches.
  destruct (Py.range_step _ _) as [starts|]; [|apply keeps_raise].
  apply keeps_for_each. intros i. apply keeps_bind; [apply keeps_reauth|].
  intros batch. now apply keeps_call_download.
Qed.

Lemma keeps_remove_empty_items :
  keeps (scratch_only d0 parent name es) (_remove_empty_items (parent ++ [name])).
Proof.
  unfold _remove_empty_items. apply keeps_bind; [apply keeps_get_disk|].
  intros d. apply keeps_bind.
  - apply keeps_for_each_in. intros p Hin.
    unfold _find_empty_subdirs in Hin.
    destruct (lookup d (parent ++ [name])) as [n|]; [|contradiction].
    rewrite walk_empty_prefix in Hin. apply in_map_iff in Hin.
    destruct Hin as (q & <- & _).
    apply keeps_disk_op.
    intros d1 d' H1 E. eapply rmtree_scratch; eassumption.
  - intros _. apply keeps_bind; [apply keeps_from_file|].
    intros in_coll. destruct (remove_ids _ _) as [all_items|];
      [|apply keeps_raise].
    unfold save_object. apply keeps_disk_op. intros d1 d' H1 E.
    right. unfold write in E.
    eapply modify_in_scratch; [| exact H1 | exact E]. discriminate.
Qed.

End Scratch.

Section PreviewFrame.

Context {C : Collaborators}.

Lemma keeps_evaluate_size :
  forall I self pre_coll, keeps I (evaluate_size self pre_coll).
Proof.
  intros I self pre_coll. unfold evaluate_size.
  apply keeps_bind; [apply keeps_os_listdir|]. intros names.
  apply keeps_bind; [apply keeps_get_disk|]. intros d.
  apply keeps_bind; [|intros _; apply keeps_ret].
  destruct (_ =? 0); [apply keeps_raise | apply keeps_ret].
Qed.

End PreviewFrame.

Section Ending.

Context {C : Collaborators}.

Lemma ends_ret : forall A (a : A), ends (ret a).
Proof. intros A a w. discriminate. Qed.

Lemma ends_raise : forall A e, ends (@raise A e).
Proof. intros A e w. discriminate. Qed.

Lemma ends_bind :
  forall A B (c : M A) (k : A -> M B),
    ends c -> (forall a, ends (k a)) -> ends (bind c k).
Proof.
  intros A B c k Hc Hk w. unfold bind. specialize (Hc w).
  destruct (c w) as [w1 [a|e|]]; cbn [snd] in *;
    [apply Hk | discriminate | congruence].
Qed.

Lemma ends_emit : forall e, ends (emit e).
Proof. intros e w. discriminate. Qed.

Lemma ends_disk_op : forall f, ends (disk_op f).
Proof.
  intros f w. unfold disk_op, bind, get_disk, set_disk.
  destruct (f (disk w)); discriminate.
Qed.

Lemma ends_for_each :
  forall A (body : A -> M unit) l,
    (forall x, ends (body x)) -> ends (for_each l body).
Proof.
  intros A body l Hb. induction l as [|x l IH]; [apply ends_ret|].
  cbn [for_each]. apply ends_bind; [apply Hb | intros _; exact IH].
Qed.

Lemma ends_from_file : forall p, ends (from_file p).
Proof.
  intros p w. unfold from_file, bind, get_disk.
  destruct (FS.lookup (disk w) p) as [[s [l|]|es]|]; discriminate.
Qed.

Lemma ends_remove_empty_items :
  forall out_path, ends (_remove_empty_items out_path).
Proof.
  intros out_path. unfold _remove_empty_items.
  apply ends_bind; [intros w; discriminate|]. intros d.
  apply ends_bind; [apply ends_for_each; intros p; apply ends_disk_op|].
  intros _. apply ends_bind; [apply ends_from_file|]. intros in_coll.
  destruct (remove_ids _ _); [apply ends_disk_op | apply ends_raise].
Qed.

Lemma ends_evaluate_size :
  forall self pre_coll, ends (evaluate_size self pre_coll).
Proof.
  intros self pre_coll w. unfold evaluate_size, os_listdir, bind, get_disk.
  destruct (FS.listdir (disk w) temp_dir) as [names|]; [|discriminate].
  cbn [ret]. destruct (length names =? 0); discriminate.
Qed.

End Ending.

(** X14. The preview leaves nothing behind once it has ended: with a
    fetcher that only writes below the directory it is given, and the
    scratch directory a free name in an existing directory, the disk after
    the "preview run to estimate size" is the disk before it, whether the
    preview returns or raises (in fetching, cleaning or measuring): the
    output directory is not touched and the scratch directory is gone.
    While the preview is still waiting for the signing service, the scratch
    directory is still there, with what was fetched so far, and the rest of
    the disk is as it was. *)
Theorem preview_leaves_the_disk_as_found :
  forall {C : Collaborators} (fuel : nat) (self : STACDownloader) (w : world)
         (parent : path) (name : string) (es : dir),
    temp_dir = parent ++ [name] ->
    FS.lookup (disk w) parent = Some (Dir es) ->
    FS.find es name = None ->
    confined ->
    match snd (preview_run fuel self w) with
    | Diverge =>
        scratched (disk w) parent name es (disk (fst (preview_run fuel self w)))
    | _ => disk (fst (preview_run fuel self w)) = disk w
    end.
Proof.
  intros C fuel self w parent name es Htemp Hp Hn Hc.
  destruct (preview_run fuel self w) as [w' o] eqn:Erun. cbn [fst snd].
  unfold preview_run in Erun.
  destruct (_ >=? _)%Z;
    [|rewrite print_printed in Erun; inversion Erun; reflexivity].
  unfold bind at 1 in Erun. rewrite print_printed in Erun.
  set (w0 := printed w [EstimatingSize]) in Erun.
  unfold bind at 1 in Erun.
  rewrite (disk_op_ok (fun d => FS.mkdir d temp_dir) w0
             (d' := with_scratch (disk w) parent name es [])) in Erun
    by (rewrite Htemp; now apply mkdir_fresh).
  set (w1 := with_disk w0 _) in Erun.
  assert (H1 : scratched (disk w) parent name es (disk w1))
    by (now exists []).
  unfold finally in Erun.
  match type of Erun with
  | context [bind ?g ?k w1] => set (body := bind g k) in Erun
  end.
  assert (Hbody :
            forall w2 r, body w1 = (w2, r) ->
              scratch_only (disk w) parent name es (disk w2)
              /\ (r = Diverge -> scratched (disk w) parent name es (disk w2))).
  { intros w2 r Eb. unfold body in Eb. unfold bind at 1 in Eb.
    destruct (_ <? 0)%Z; cbn [raise ret] in Eb.
    { inversion Eb. subst w2 r. split; [now right | discriminate]. }
    unfold bind at 1 in Eb. rewrite Htemp in Eb.
    pose proof (keeps_download_batches (disk w) parent name es Hp
                  fuel (reauth_batch_size self)
                  (choice (item_coll self) (Z.to_nat (preview_size self)))
                  (fun _ => default_file_name) Hc w1 H1) as H2.
    destruct (download_batches _ _ _ _ _ w1) as [w3 [[]|e|]];
      cbn [fst] in H2.
    - match type of Eb with
      | ?g w3 = _ => set (rest := g) in Eb
      end.
      assert (Hk : keeps (scratch_only (disk w) parent name es) rest).
      { apply keeps_bind; [now apply keeps_remove_empty_items|].
        intros _. apply keeps_bind; [apply keeps_evaluate_size|].
        intros m. apply keeps_emit. }
      assert (He : ends rest).
      { apply ends_bind; [apply ends_remove_empty_items|].
        intros _. apply ends_bind; [apply ends_evaluate_size|].
        intros m. apply ends_emit. }
      specialize (Hk w3 (or_intror H2)). specialize (He w3).
      rewrite Eb in Hk, He. cbn [fst snd] in Hk, He.
      split; [exact Hk | intros Hd; contradiction].
    - inversion Eb. subst w2 r. split; [now right | discriminate].
    - inversion Eb. subst w2 r. split; [now right | now intros _]. }
  assert (Hclean :
            forall w2, scratch_only (disk w) parent name es (disk w2) ->
              disk_op (fun d => Some (FS.cleanup d temp_dir)) w2
              = (with_disk w2 (disk w), Val tt)).
  { intros w2 Hw2. apply disk_op_ok. rewrite Htemp. f_equal.
    exact (cleanup_scratch (disk w) parent name es Hp Hn (disk w2) Hw2). }
  destruct (body w1) as [w2 [u|e|]] eqn:Eb;
    destruct (Hbody _ _ eq_refl) as [Hleft Hwait].
  - rewrite (Hclean w2 Hleft) in Erun. inversion Erun. reflexivity.
  - rewrite (Hclean w2 Hleft) in Erun. inversion Erun. reflexivity.
  - inversion Erun. subst w' o. now apply Hwait.
Qed.

Section SimulatedFetcher.

Import FS FSFacts.

Lemma sim_makedirs_existing :
  forall p d sub, lookup d p = Some (Dir sub) -> Sim.makedirs d p = d.
Proof.
  induction p as [|k p IH]; intros d sub H; [reflexivity|].
  destruct d as [s b|l]; [discriminate|]. simpl in H. simpl.
  destruct (find l k) as [c|] eqn:E; [|discriminate].
  rewrite (IH c sub H). now rewrite (put_entry_same l k c E).
Qed.

Lemma sim_put_at :
  forall l d p k v sub,
    lookup d p = Some (Dir sub) ->
    Sim.put_at l d p k v = graft d p (Dir (Sim.place l k v sub)).
Proof.
  intros l d p k v sub H. unfold Sim.put_at.
  now rewrite (modify_at _ p d k H).
Qed.

Lemma sim_download_confined :
  forall l failing assets, @confined (Sim.collaborators l failing assets).
Proof.
  intros l failing assets k batch directory file_name d sub0 H.
  cbn [download_item_collection Sim.collaborators]. unfold Sim.download.
  rewrite (sim_makedirs_existing directory d sub0 H). cbn [fst].
  assert (Hfold : forall batch d1 sub1,
             d1 = graft d directory (Dir sub1) ->
             exists sub2,
               fold_left (Sim.fetch_item l (assets k) directory) batch d1
               = graft d directory (Dir sub2)).
  { clear batch. induction batch as [|x batch IH]; intros d1 sub1 E.
    - now exists sub1.
    - cbn [fold_left]. eapply IH. unfold Sim.fetch_item.
      rewrite (sim_put_at l d1 directory _ _ sub1)
        by (rewrite E; now apply (lookup_graft directory d _ H)).
      rewrite E. now rewrite (graft_graft directory d _ _ H). }
  destruct (Hfold batch d sub0) as (sub2 & E).
  { symmetry. now apply graft_same. }
  rewrite E.
  rewrite (sim_put_at l _ directory _ _ sub2)
    by (now apply (lookup_graft directory d _ H)).
  eexists. now rewrite (graft_graft directory d _ _ H).
Qed.

End SimulatedFetcher.

Lemma preview_leaves_the_disk_as_found_witness :
  @temp_dir steady = ["tmp"] ++ ["preview"]
  /\ FS.lookup (disk Sim.world0) ["tmp"] = Some (Dir [])
  /\ @confined steady
  /\ disk (fst (@preview_run steady 1 batched25 Sim.world0)) = disk Sim.world0
  /\ snd (@preview_run stalls 3 batched_by5 Sim.world0) = Diverge
  /\ scratched Sim.disk0 ["tmp"] "preview" []
               (disk (fst (@preview_run stalls 3 batched_by5 Sim.world0)))
  /\ option_map (@List.length string)
                (FS.listdir (disk (fst (@preview_run stalls 3 batched_by5
                                                     Sim.world0)))
                            ["tmp"; "preview"])
     = Some 6.
Proof.
  assert (Hc : @confined steady) by apply sim_download_confined.
  assert (Hs : @confined stalls) by apply sim_download_confined.
  assert (Hret : snd (@preview_run steady 1 batched25 Sim.world0) = Val tt)
    by (vm_compute; reflexivity).
  assert (Hdiv : snd (@preview_run stalls 3 batched_by5 Sim.world0) = Diverge)
    by (vm_compute; reflexivity).
  pose proof (@preview_leaves_the_disk_as_found steady 1 batched25 Sim.world0
                ["tmp"] "preview" [] eq_refl eq_refl eq_refl Hc) as H1.
  pose proof (@preview_leaves_the_disk_as_found stalls 3 batched_by5 Sim.world0
                ["tmp"] "preview" [] eq_refl eq_refl eq_refl Hs) as H2.
  rewrite Hret in H1. rewrite Hdiv in H2.
  split; [reflexivity|]. split; [reflexivity|]. split; [exact Hc|].
  split; [exact H1|]. split; [exact Hdiv|]. split; [exact H2|].
  vm_compute. reflexivity.
Defined.

(* ------------------------------------------------------------------ *)
(** ** What the batch loop writes *)

(** X15. The batch loop writes to the disk through the fetcher alone: any
    property of the disk that every fetch into [directory] preserves holds
    after the loop when it held before, whether the loop returns, raises or
    is still waiting for the signing service. *)
Theorem batch_loop_writes_only_through_the_fetcher :
  forall {C : Collaborators} (fuel : nat) (rbs : option Z) (coll : list Item)
         (directory : path) (file_name_of : nat -> string) (w : world)
         (I : node -> Prop),
    (forall k batch file_name d,
        I d ->
        I (fst (download_item_collection k batch directory file_name d))) ->
    I (disk w) ->
    I (disk (fst (download_batches fuel rbs coll directory file_name_of w))).
Proof.
  intros C fuel rbs coll directory file_name_of w I Hfetch Hw.
  assert (Hk : keeps I (download_batches fuel rbs coll directory
                                         file_name_of)).
  { unfold download_batches.
    destruct (Py.range_step _ _) as [starts|]; [|apply keeps_raise].
    apply keeps_for_each. intros i.
    apply keeps_bind; [apply keeps_reauth|].
    intros batch w1 H1. unfold call_download.
    specialize (Hfetch (fetch_calls w1) batch (file_name_of i) (disk w1) H1).
    destruct (download_item_collection _ _ _ _ _) as [d' [e|]];
      exact Hfetch. }
  exact (Hk w Hw).
Qed.

Lemma batch_loop_writes_only_through_the_fetcher_witness :
  disk (fst (@download_batches idle 1 (Some 10%Z) (Sim.items 25) ["data"]
                               batch_file_name Sim.world0))
    = Sim.disk0.
Proof.
  apply (@batch_loop_writes_only_through_the_fetcher
           idle 1 (Some 10%Z) (Sim.items 25) ["data"] batch_file_name
           Sim.world0 (fun d => d = Sim.disk0)).
  - intros k batch file_name d H. exact H.
  - reflexivity.
Defined.

(* ------------------------------------------------------------------ *)
(** ** The extent and the order of the items *)

Section ExtentOrder.

Lemma min_list_perm :
  forall l l', Permutation l l' -> Py.min_list l = Py.min_list l'.
Proof.
  intros l l' H. destruct l as [|x t]; destruct l' as [|x' t'].
  - reflexivity.
  - apply Permutation_nil in H. discriminate.
  - apply Permutation_sym, Permutation_nil in H. discriminate.
  - simpl. f_equal.
    destruct (fold_min_spec t x) as [Hin Hall].
    destruct (fold_min_spec t' x') as [Hin' Hall'].
    rewrite Forall_forall in Hall, Hall'.
    apply Z.le_antisymm.
    + apply Hall. eapply Permutation_in; [apply Permutation_sym, H | exact Hin'].
    + apply Hall'. eapply Permutation_in; [exact H | exact Hin].
Qed.

Lemma max_list_perm :
  forall l l', Permutation l l' -> Py.max_list l = Py.max_list l'.
Proof.
  intros l l' H. destruct l as [|x t]; destruct l' as [|x' t'].
  - reflexivity.
  - apply Permutation_nil in H. discriminate.
  - apply Permutation_sym, Permutation_nil in H. discriminate.
  - simpl. f_equal.
    destruct (fold_max_spec t x) as [Hin Hall].
    destruct (fold_max_spec t' x') as [Hin' Hall'].
    rewrite Forall_forall in Hall, Hall'.
    apply Z.le_antisymm.
    + apply Hall'. eapply Permutation_in; [exact H | exact Hin].
    + apply Hall. eapply Permutation_in; [apply Permutation_sym, H | exact Hin'].
Qed.

End ExtentOrder.

(** X16. The temporal extent of a collection does not depend on the order
    of its items: two lists with the same items, in any order (as the merge
    of the batch artifacts may leave them), give the same interval, from
    the least to the greatest datetime; and the extent of no items is a
    [ValueError], the [min] of an empty sequence. *)
Theorem temporal_extent_ignores_the_order :
  forall {Shape : Type} {Sh : Shapely Shape} (items items' : list Item),
    Permutation items items' ->
    (items = [] -> _create_full_extent items' = Raise ValueError)
    /\ (forall extent,
          _create_full_extent items = Val extent ->
          exists extent',
            _create_full_extent items' = Val extent'
            /\ temporal extent' = temporal extent
            /\ exists lo hi,
                 temporal extent = [(lo, hi)]
                 /\ Forall (fun x => (lo <= datetime x <= hi)%Z) items').
Proof.
  intros Shape Sh items items' H. split.
  - intros ->. apply Permutation_nil in H. subst. reflexivity.
  - intros extent E. unfold _create_full_extent in *.
    pose proof (Permutation_map datetime H) as Hd.
    rewrite <- (min_list_perm _ _ Hd), <- (max_list_perm _ _ Hd).
    destruct items as [|x items]; [discriminate|].
    cbn [map Py.min_list Py.max_list] in *.
    inversion E. subst. cbn [temporal].
    eexists. split; [reflexivity|]. split; [reflexivity|].
    eexists _, _. split; [reflexivity|].
    destruct (fold_min_spec (map datetime items) (datetime x)) as [_ Hlo].
    destruct (fold_max_spec (map datetime items) (datetime x)) as [_ Hhi].
    change (datetime x :: map datetime items)
      with (map datetime (x :: items)) in Hlo, Hhi.
    rewrite Forall_map in Hlo, Hhi. rewrite Forall_forall in *.
    intros y Hy. apply (Permutation_in _ (Permutation_sym H)) in Hy.
    split; [now apply Hlo | now apply Hhi].
Qed.

Lemma temporal_extent_ignores_the_order_witness :
  Permutation [unit_square "a" 0 0 100; unit_square "b" 1 1 50]
              [unit_square "b" 1 1 50; unit_square "a" 0 0 100]
  /\ exists extent',
       @_create_full_extent Vertices.Shape Vertices.shapely
         [unit_square "b" 1 1 50; unit_square "a" 0 0 100] = Val extent'
       /\ temporal extent' = [(50, 100)%Z].
Proof.
  assert (H : Permutation [unit_square "a" 0 0 100; unit_square "b" 1 1 50]
                          [unit_square "b" 1 1 50; unit_square "a" 0 0 100])
    by apply perm_swap.
  split; [exact H|].
  destruct (proj2 (@temporal_extent_ignores_the_order
                     Vertices.Shape Vertices.shapely _ _ H)
                  (mkExtent [(0, 0, 2, 2)%Z] [(50, 100)%Z]) eq_refl)
    as (extent' & E & Ht & _).
  exists extent'. split; [exact E | exact Ht].
Defined.

(* ------------------------------------------------------------------ *)
(** ** What the size evaluation counts *)

Section Evaluation.

Context {C : Collaborators}.

Import FS FSFacts.

Lemma modify_some :
  forall g p x d d',
    modify g d (p ++ [x]) = Some d' ->
    exists es es',
      lookup d p = Some (Dir es) /\ g es x = Some es'
      /\ lookup d' p = Some (Dir es').
Proof.
  intros g. induction p as [|k p IH]; intros x d d' H.
  - destruct d as [s b|es]; [discriminate|]. simpl in H.
    destruct (g es x) as [es'|] eqn:E; [|discriminate].
    simpl in H. inversion H. now exists es, es'.
  - destruct d as [s b|es0]; [discriminate|].
    cbn [app modify] in H.
    destruct (p ++ [x]) as [|y q] eqn:Eq;
      [symmetry in Eq; now apply app_cons_not_nil in Eq|].
    destruct (find es0 k) as [c|] eqn:Ek; [|discriminate].
    destruct (modify g c (y :: q)) as [c'|] eqn:Ec; [|discriminate].
    simpl in H. inversion H. subst d'.
    rewrite <- Eq in Ec. destruct (IH x c c' Ec) as (es & es' & H1 & H2 & H3).
    exists es, es'. simpl. rewrite Ek, find_put_same. auto.
Qed.

Lemma tree_size_find :
  forall es k v,
    find es k = Some v -> (tree_size v <= tree_size (Dir es))%N.
Proof.
  induction es as [|[k' w] es IH]; intros k v H; [discriminate|].
  simpl in H. destruct (String.eqb k k').
  - inversion H. subst. simpl. lia.
  - specialize (IH k v H). simpl in *. lia.
Qed.

Lemma save_object_val :
  forall items p w w',
    save_object items (p ++ [default_file_name]) w = (w', Val tt) ->
    exists es',
      lookup (disk w') p = Some (Dir es')
      /\ find es' default_file_name
         = Some (File (json_size items) (Some items)).
Proof.
  intros items p w w' H. unfold save_object, disk_op, bind, get_disk in H.
  destruct (write _ (disk w) _) as [d'|] eqn:E; [|discriminate].
  unfold set_disk in H. inversion H. subst. cbn [disk].
  unfold write in E. apply modify_some in E.
  destruct E as (es & es' & _ & Hg & Hl).
  exists es'. split; [exact Hl|].
  destruct (is_dir (find es default_file_name)); [discriminate|].
  inversion Hg. apply find_put_same.
Qed.

Lemma remove_empty_items_val :
  forall p w w',
    _remove_empty_items p w = (w', Val tt) ->
    exists es' keep,
      lookup (disk w') p = Some (Dir es')
      /\ find es' default_file_name
         = Some (File (json_size keep) (Some keep)).
Proof.
  intros p w w' H. unfold _remove_empty_items in H.
  apply bind_val_inv in H. destruct H as (w1 & d & _ & H).
  apply bind_val_inv in H. destruct H as (w2 & [] & _ & H).
  apply bind_val_inv in H. destruct H as (w3 & in_coll & _ & H).
  destruct (remove_ids _ _) as [all_items|]; [|discriminate].
  apply save_object_val in H. destruct H as (es' & H1 & H2).
  eauto.
Qed.

End Evaluation.

(** X17. The size evaluation counts the item collection: whenever the
    cleanup of the scratch directory returns, the directory lists
    item-collection.json, so [n_items], the number of its entries, is at
    least 1 and the division by it never faults; [n_items] is one more than
    the number of item directories, and the measured total includes the
    size of item-collection.json. *)
Theorem size_evaluation_counts_the_item_collection :
  forall {C : Collaborators} (self : STACDownloader) (pre_coll : list Item)
         (w w' : world),
    _remove_empty_items temp_dir w = (w', Val tt) ->
    exists names keep m,
      FS.listdir (disk w') temp_dir = Some names
      /\ In default_file_name names
      /\ FS.lookup (disk w') (temp_dir ++ [default_file_name])
         = Some (File (json_size keep) (Some keep))
      /\ evaluate_size self pre_coll w' = (w', Val m)
      /\ scratch_entries m = length names
      /\ 1 <= scratch_entries m
      /\ (json_size keep <= scratch_bytes m)%N.
Proof.
  intros C self pre_coll w w' H.
  destruct (remove_empty_items_val temp_dir w w' H) as (es' & keep & Hl & Hf).
  assert (Hin : In default_file_name (map fst es')).
  { apply FSFacts.find_some_in in Hf. apply in_map_iff.
    exists (default_file_name, File (json_size keep) (Some keep)).
    split; [reflexivity | exact Hf]. }
  assert (Hlen : 1 <= length (map fst es'))
    by (destruct (map fst es'); [destruct Hin | simpl; lia]).
  exists (map fst es'), keep,
         (mkMeasure (_get_dir_size (disk w') temp_dir) (length (map fst es'))
                    (map (fun x => _get_dir_size (disk w') (temp_dir ++ [id x]))
                         pre_coll)
                    (length (item_coll self))).
  split; [unfold FS.listdir; now rewrite Hl|].
  split; [exact Hin|]. split.
  { rewrite FSFacts.lookup_app, Hl. simpl. now rewrite Hf. }
  split.
  { unfold evaluate_size, os_listdir, bind, get_disk, FS.listdir.
    rewrite Hl. cbn [ret].
    replace (length (map fst es') =? 0) with false
      by (symmetry; apply Nat.eqb_neq; lia).
    reflexivity. }
  cbn [scratch_entries scratch_bytes].
  split; [reflexivity|]. split; [exact Hlen|].
  unfold _get_dir_size. rewrite Hl.
  exact (tree_size_find _ _ _ Hf).
Qed.

Lemma size_evaluation_counts_the_item_collection_witness :
  exists w',
    @_remove_empty_items steady (@temp_dir steady) after_preview = (w', Val tt)
    /\ @evaluate_size steady (default_downloader (Sim.items 20) ["data"])
                      (Sim.items 2) w' = (w', Val measured)
    /\ 1 <= scratch_entries measured.
Proof.
  assert (H : @_remove_empty_items steady (@temp_dir steady) after_preview
              = (fst (@_remove_empty_items steady (@temp_dir steady)
                                           after_preview), Val tt))
    by (vm_compute; reflexivity).
  destruct (@size_evaluation_counts_the_item_collection
              steady (default_downloader (Sim.items 20) ["data"])
              (Sim.items 2) after_preview _ H)
    as (names & keep & m & _ & _ & _ & Hm & _ & Hone & _).
  assert (Hmeasured :
            @evaluate_size steady (default_downloader (Sim.items 20) ["data"])
                           (Sim.items 2)
                           (fst (@_remove_empty_items steady (@temp_dir steady)
                                                      after_preview))
            = (fst (@_remove_empty_items steady (@temp_dir steady)
                                         after_preview), Val measured))
    by (vm_compute; reflexivity).
  rewrite Hmeasured in Hm. inversion Hm as [Em]. rewrite <- Em in Hone.
  eexists. split; [exact H|]. split; [exact Hmeasured | exact Hone].
Defined.

(* ------------------------------------------------------------------ *)
(** ** The grouped download *)

Section Grouped.

Context {C : Collaborators}.

Lemma download_rows_done :
  forall fuel self total rows s s' k,
    collections_done fuel self total rows s s' ->
    Downloader.download_rows fuel self (rows ++ k) total s
      = Downloader.download_rows fuel self k total s'.
Proof.
  intros fuel self total rows s s' k H.
  induction H as [s|idx coll index rest s w' v s' Hrun _ IH]; [reflexivity|].
  cbn [app Downloader.download_rows].
  unfold obind at 1. unfold notify at 1. unfold obind at 1. unfold lift.
  cbn [inner console saved]. rewrite Hrun.
  unfold obind at 1. unfold notify at 1. cbn [inner console saved].
  rewrite <- app_assoc. exact IH.
Qed.

Lemma download_rows_fault :
  forall fuel self total idx coll index rest s w' e,
    run fuel (Downloader.stac self (row_items (Outer.item_coll self) index)
                              (Outer.out_dir self ++ [coll]))
        (inner s) = (w', Raise e) ->
    Downloader.download_rows fuel self ((idx, (coll, index)) :: rest) total s
      = (mkSession w' (console s ++ [CollectionHeader coll (idx + 1) total])
                   (saved s),
         Raise e).
Proof.
  intros fuel self total idx coll index rest s w' e Hrun.
  cbn [Downloader.download_rows].
  unfold obind at 1. unfold notify at 1. unfold obind at 1. unfold lift.
  cbn [inner console saved]. now rewrite Hrun.
Qed.

End Grouped.

(** X18. A fault in one collection ends the grouped run: the collections
    are downloaded in the ascending order of their ids, each into
    [out_dir/<id>], after a header "<id> (collection i/n)" and before a
    blank line; when the download of one of them raises, [Downloader.run]
    raises the same right after that collection's header: the collections
    after it are not started and no catalog is built or saved.  When all
    return, the catalog is built from the session they leave. *)
Theorem grouped_run_stops_at_the_first_fault :
  forall {C : Collaborators} {Shape : Type} {Sh : Shapely Shape} {P : Pystac}
         (fuel : nat) (self : Outer.Downloader) (s s1 : session)
         (done rest : list (nat * (string * list nat))),
    let rows := grouped_df (Outer.item_coll self) in
    let total := length rows in
    combine (seq 0 total) rows = done ++ rest ->
    collections_done fuel self total done s s1 ->
    (forall idx coll index later w' e,
        rest = (idx, (coll, index)) :: later ->
        run fuel (Downloader.stac self (row_items (Outer.item_coll self) index)
                                  (Outer.out_dir self ++ [coll]))
            (inner s1) = (w', Raise e) ->
        Downloader.run fuel self true s
          = (mkSession w' (console s1 ++ [CollectionHeader coll (idx + 1) total])
                       (saved s1),
             Raise e))
    /\ (rest = [] ->
        Downloader.run fuel self true s
          = Downloader._create_and_save_catalog
              (Outer.out_dir self) "root_catalog"
              "Root catalog containing multiple collections." s1).
Proof.
  intros C Shape Sh P fuel self s s1 done rest rows total Hrows Hdone.
  assert (Hd : Downloader._download_grouped fuel self s
               = Downloader.download_rows fuel self rest total s1).
  { unfold Downloader._download_grouped. fold rows. fold total.
    rewrite Hrows. now apply download_rows_done. }
  split.
  - intros idx coll index later w' e -> Hrun.
    unfold Downloader.run, obind. rewrite Hd.
    now rewrite (download_rows_fault fuel self total idx coll index later
                   s1 w' e Hrun).
  - intros ->. unfold Downloader.run, obind at 1. rewrite Hd. reflexivity.
Qed.

Lemma grouped_run_stops_at_the_first_fault_witness :
  combine (seq 0 2) (grouped_df (Outer.item_coll no_budget))
    = [] ++ [(0, ("landsat-c2-l2", [0; 2])); (1, ("sentinel-2-l2a", [1]))]
  /\ @Downloader.run steady Vertices.Shape Vertices.shapely writes_catalog
                     1 no_budget true session0
     = (mkSession Sim.world0 [CollectionHeader "landsat-c2-l2" 1 2] [],
        Raise UnboundLocalError).
Proof.
  assert (Hrows : combine (seq 0 2) (grouped_df (Outer.item_coll no_budget))
                  = [] ++ [(0, ("landsat-c2-l2", [0; 2]));
                           (1, ("sentinel-2-l2a", [1]))])
    by (vm_compute; reflexivity).
  split; [exact Hrows|].
  exact (proj1 (@grouped_run_stops_at_the_first_fault
                  steady Vertices.Shape Vertices.shapely writes_catalog
                  1 no_budget session0 session0 [] _ Hrows
                  (done_none 1 no_budget 2 session0))
               0 "landsat-c2-l2" [0; 2] _ Sim.world0 UnboundLocalError
               eq_refl eq_refl).
Defined.

(* ------------------------------------------------------------------ *)
(** ** The ungrouped download and its catalog *)

Section Ungrouped.

Context {Shape : Type} {Sh : Shapely Shape}.

Lemma collections_of_items_only :
  forall es,
    (forall k sub, In (k, Dir sub) es ->
                   FS.find sub default_file_name = None) ->
    collections_of es = [] /\ map consumed es = es /\ Forall loadable es.
Proof.
  induction es as [|[k v] es IH]; intros H.
  - repeat split; constructor.
  - destruct IH as (H1 & H2 & H3); [intros k' sub Hin; eapply H; right;
                                    exact Hin|].
    destruct v as [s b|sub].
    + cbn [collections_of flat_map snd app map consumed]. fold (collections_of es).
      rewrite H1, H2. repeat split. constructor; [exact I | exact H3].
    + pose proof (H k sub (or_introl eq_refl)) as Hn.
      cbn [collections_of flat_map snd fst app map]. fold (collections_of es).
      unfold consumed at 1. cbn [snd fst]. rewrite Hn, H1, H2.
      rewrite (remove_entry_absent sub default_file_name Hn).
      repeat split. constructor; [|exact H3].
      unfold loadable. cbn [snd]. now rewrite Hn.
Qed.

End Ungrouped.

(** X19. The ungrouped run makes a catalog of one collection without a
    name: when the download returns with at least one item and no item
    directory holds an item-collection.json of its own, [Downloader.run]
    hands pystac the catalog "root_catalog" with a single collection whose
    id is the empty string (the base name of the empty path it is given)
    and whose description is "Collection for ", holding the downloaded
    items and their extent; the item-collection.json of the output
    directory is removed before the catalog is saved, and the outcome of
    the run is the outcome of the save. *)
Theorem ungrouped_run_makes_one_unnamed_collection :
  forall {C : Collaborators} {Shape : Type} {Sh : Shapely Shape} {P : Pystac}
         (fuel : nat) (self : Outer.Downloader) (s : session) (w' : world)
         (got : nat) (ratio : Q) (es : dir),
    run fuel (Downloader.stac self (Outer.item_coll self) (Outer.out_dir self))
        (inner s)
      = (w', Val (got, ratio)) ->
    0 < got ->
    FS.lookup (disk w') (Outer.out_dir self) = Some (Dir es) ->
    NoDup (map fst es) ->
    (forall k sub, In (k, Dir sub) es ->
                   FS.find sub default_file_name = None) ->
    exists size coll extent,
      FS.find es default_file_name = Some (File size (Some coll))
      /\ length coll = got
      /\ _create_full_extent coll = Val extent
      /\ let catalog :=
           mkCatalog "root_catalog"
                     "Root catalog containing multiple collections."
                     [mkCollection "" "Collection for " extent coll] in
         let d1 := graft (disk w') (Outer.out_dir self)
                         (Dir (FS.remove_entry default_file_name es)) in
         let r := save_catalog (length (saved s)) catalog
                               (Outer.out_dir self) d1 in
         Downloader.run fuel self false s
           = (mkSession (with_disk w' (fst r)) (console s)
                        (saved s ++ [(catalog, Outer.out_dir self)]),
              match snd r with
              | None => Val tt
              | Some e => Raise e
              end).
Proof.
  intros C Shape Sh P fuel self s w' got ratio es Hrun Hgot Hout Hnd Hsub.
  destruct (run_val_file _ _ _ _ _ _ Hrun) as (size & coll & Hfile & Hlen).
  cbn [out_dir Downloader.stac] in Hfile.
  rewrite FSFacts.lookup_app, Hout in Hfile. cbn [FS.lookup] in Hfile.
  destruct (FS.find es default_file_name) as [n|] eqn:Ef; [|discriminate].
  destruct n as [s0 b0|l]; [|destruct l; discriminate].
  inversion Hfile. subst s0 b0. clear Hfile.
  assert (Hne : coll <> []) by (intros ->; simpl in Hlen; lia).
  destruct (create_full_extent_some coll Hne) as (extent & Hext).
  exists size, coll, extent. split; [reflexivity|].
  split; [now symmetry|]. split; [exact Hext|]. cbv zeta.
  assert (Hroot : loadable (""%string, Dir es)).
  { unfold loadable. cbn [snd]. rewrite Ef. now exists size, coll. }
  assert (Hrest : forall k sub,
             In (k, Dir sub) (FS.remove_entry default_file_name es) ->
             FS.find sub default_file_name = None).
  { intros k sub Hin. unfold FS.remove_entry in Hin. apply filter_In in Hin.
    eapply Hsub. exact (proj1 Hin). }
  destruct (collections_of_items_only es Hsub) as (_ & _ & Hok).
  destruct (collections_of_items_only _ Hrest) as (Hnone & Hsame & _).
  pose proof (gather_loadable (Outer.out_dir self) "root_catalog"
                "Root catalog containing multiple collections." w' es
                Hout Hnd Hroot Hok) as Hg.
  cbv zeta in Hg. rewrite Ef, Hnone, Hsame, app_nil_r in Hg.
  cbn [items_of] in Hg. rewrite (collection_of_some "" coll extent Hext) in Hg.
  unfold Downloader.run, Downloader._download_ungrouped.
  unfold obind at 1. unfold obind at 1. unfold lift at 1. rewrite Hrun.
  unfold oret. unfold Downloader._create_and_save_catalog, obind, lift.
  cbn [inner console saved]. rewrite Hg.
  unfold Downloader.call_save. cbn [inner saved console disk with_disk].
  destruct (save_catalog _ _ _ _) as [d' [e|]]; cbn [fst snd];
    now rewrite with_disk_twice.
Qed.

Lemma ungrouped_run_makes_one_unnamed_collection_witness :
  exists w' catalog d',
    @run steady 1 (Downloader.stac three_outer (Outer.item_coll three_outer)
                                   (Outer.out_dir three_outer))
         (inner session0)
      = (w', Val (3, 3 # 3))
    /\ @Downloader.run steady Vertices.Shape Vertices.shapely writes_catalog
                       1 three_outer false session0
       = (mkSession (with_disk w' d') [] [(catalog, ["data"])], Val tt)
    /\ map collection_id (children catalog) = [""]
    /\ map (fun c => length (collection_items c)) (children catalog) = [3]
    /\ FS.lookup d' ["data"; "item-collection.json"] = None.
Proof.
  set (r := @run steady 1
                 (Downloader.stac three_outer (Outer.item_coll three_outer)
                                  (Outer.out_dir three_outer))
                 (inner session0)).
  assert (Hrun : r = (fst r, Val (3, 3 # 3))) by (vm_compute; reflexivity).
  assert (Hout : FS.lookup (disk (fst r)) (Outer.out_dir three_outer)
                 = Some (Dir [("S2_0", Dir [("B04.tif", File 2048 None)]);
                              ("S2_1", Dir [("B04.tif", File 2048 None)]);
                              ("S2_2", Dir [("B04.tif", File 2048 None)]);
                              ("item-collection.json",
                               File 1600 (Some (Sim.items 3)))]))
    by (vm_compute; reflexivity).
  destruct (@ungrouped_run_makes_one_unnamed_collection
              steady Vertices.Shape Vertices.shapely writes_catalog
              1 three_outer session0 (fst r) 3 (3 # 3) _ Hrun
              ltac:(lia) Hout)
    as (size & coll & extent & Hf & Hlen & Hext & Hsave).
  - repeat constructor; simpl; intuition discriminate.
  - intros k sub Hin. simpl in Hin.
    destruct Hin as [E|[E|[E|[E|[]]]]]; inversion E; reflexivity.
  - cbv zeta in Hsave. cbn [FS.find String.eqb] in Hf.
    vm_compute in Hf. inversion Hf. subst size coll.
    eexists _, _, _. split; [exact Hrun|]. split; [exact Hsave|].
    split; [reflexivity|]. split; [reflexivity|].
    vm_compute. reflexivity.
Defined.
